(** * GlobeViewer: texture-swap lifecycle and upload-history cache

    A shallow embedding of [src/main.js] (class [GlobeViewer]): the
    texture loading paths ([loadTexture], [loadTextureFromUrl],
    [loadTextureFromDataUrl]), the upload history with its IndexedDB
    write-through ([saveTextureToIndexedDB], [loadUploadHistory]) and the
    per-entry view settings ([saveCurrentSettings], [restoreSavedSettings]).

    Conventions of the embedding:
    - the viewer object and the browser around it form one [State] record;
      every method is a function [State -> State];
    - asynchronous work (FileReader, Image decode) is a list of in-flight
      tasks; a completion callback is a separate function, run by [step]
      when the matching event arrives, in any order;
    - JavaScript objects that are shared and mutated (upload entries) live
      in an object heap and are referred to by location;
    - what the viewer does to its collaborators (renderer, DOM) is logged,
      in order, in the [effects] field.

    Left to the collaborators and absent from the model: the position of
    the directional light, the DOM classes and the timers (error message,
    "Saved!" button, start-up animation).  What [OrbitControls.update()]
    makes of the camera is library code: the model takes it from the
    environment.  The state [ready] is the viewer once the default image
    has been bound; a whole [session], from the constructor on, also has
    the outcome of the start-up load of the default image, success or
    fallback, among the things that happen. *)

From Stdlib Require Import ZArith QArith List String Ascii Lia.
From stdpp Require Import base option list gmap strings sorting.

Local Open Scope string_scope.
Local Open Scope list_scope.
Local Open Scope Z_scope.

(** ** JavaScript string helpers *)

(** [s.split(sep)] for a one-character separator: the pieces between the
    occurrences of [sep]; the result is never empty. *)
Fixpoint split (sep : ascii) (s : string) : list string :=
  match s with
  | EmptyString => [EmptyString]
  | String c s' =>
      if Ascii.eqb c sep then EmptyString :: split sep s'
      else match split sep s' with
           | [] => [String c EmptyString]
           | p :: ps => String c p :: ps
           end
  end.

(** [arr[0]] on the array returned by [split]. *)
Definition first_piece (ps : list string) : string := hd EmptyString ps.

(** [arr.pop()] read as a value: the last element. *)
Definition pop (ps : list string) : string := List.last ps EmptyString.

(** [a || b] on strings: the empty string is falsy. *)
Definition or_default (a b : string) : string :=
  match a with EmptyString => b | _ => a end.

(** ** Data model *)

Module File.
(** The fields of a DOM [File] the viewer reads. *)
Record t := mk { name : string; type : string; size : Z }.
End File.

Record Vec3 := mkVec3 { vx : Q; vy : Q; vz : Q }.

Record LightingSettings := mkLighting {
  s_ambientBrightness : Q;
  s_directionalBrightness : Q;
  s_lightRotation : Z
}.

Record CameraSettings := mkCamera {
  s_position : Vec3;
  s_target : Vec3
}.

(** [savedSettings] objects: [restoreSavedSettings] tests the two groups
    separately ([if (savedSettings.lighting)], [if (savedSettings.camera)]),
    so each group may be missing.  A group that is there has all its
    fields, numbers and vectors, as in every object [saveCurrentSettings]
    builds (the only place where the viewer makes one); records that
    something else than the viewer put in the store, with a group that
    lacks a field, are outside the model. *)
Record SavedSettings := mkSaved {
  lighting : option LightingSettings;
  camera : option CameraSettings
}.

Module UploadEntry.
(** The object literal built in [addToUploadHistory].  [id] is the
    JavaScript number [Date.now() + Math.random()]; the viewer only uses
    it as the IndexedDB key, so it is kept as an integer key here.
    [timestamp] is a [Date], in milliseconds. *)
Record t := mk {
  id : Z;
  name : string;
  thumbnailUrl : string;
  originalDataUrl : string;
  timestamp : Z;
  savedSettings : option SavedSettings
}.

(** [entry.savedSettings = s]. *)
Definition set_savedSettings (s : option SavedSettings) (e : t) : t :=
  mk (id e) (name e) (thumbnailUrl e) (originalDataUrl e) (timestamp e) s.
End UploadEntry.

(** Locations of upload-entry objects in the object heap. *)
Abbreviation loc := nat.

(** Texture handles: the index of the texture in the list of textures
    created so far. *)
Abbreviation tex := nat.

(** Asynchronous work in flight, with what its callbacks close over. *)
Inductive Task :=
  | ReadingFile (file : File.t)
  | DecodingFile (file : File.t) (src : string)
  | DecodingUrl (url : string)
  | DecodingDataUrl (dataUrl : string) (savedSettings : option SavedSettings)
                    (uploadEntry : option loc).

(** Calls to the collaborators, in the order they are made. *)
Inductive Effect :=
  | ShowError (message : string)
  | ShowLoading (text : string)
  | HideLoading
  | ReadAsDataURL (file : File.t)
  | SetImgSrc (src : string)
  | Dispose (t : tex)
  | Bind (t : tex)
  | DisposeMaterial
  | UpdateLighting
  | SetCameraPosition (p : Vec3)
  | SetControlsTarget (p : Vec3)
  | ControlsUpdate
  | UpdateUploadHistoryUI (items : list loc)
  | Alert (message : string).

(** The IndexedDB object store ['textures'], keyPath ['id']. *)
Abbreviation Store := (gmap Z UploadEntry.t).

Record State := mkState {
  (* renderer side *)
  textures : list string;            (* image source of every texture created *)
  disposed : list tex;               (* textures on which dispose() was called *)
  material_map : option tex;         (* this.globe.material.map *)
  currentTexture : option tex;
  (* lighting *)
  lightRotation : Z;
  ambientBrightness : Q;
  directionalBrightness : Q;
  ambientLight_intensity : Q;
  directionalLight_intensity : Q;
  (* camera and controls *)
  autoRotate : bool;
  controls_autoRotate : bool;
  camera_position : Vec3;
  controls_target : Vec3;
  (* upload history *)
  heap : list UploadEntry.t;
  uploadHistory : list loc;
  currentUploadEntry : option loc;
  db : option Store;
  (* browser *)
  loadingVisible : bool;
  inflight : list Task;
  effects : list Effect
}.

(** Field updates. *)
Definition set_textures v (s : State) :=
  mkState v (disposed s) (material_map s) (currentTexture s) (lightRotation s)
    (ambientBrightness s) (directionalBrightness s) (ambientLight_intensity s)
    (directionalLight_intensity s) (autoRotate s) (controls_autoRotate s)
    (camera_position s) (controls_target s) (heap s) (uploadHistory s)
    (currentUploadEntry s) (db s) (loadingVisible s) (inflight s) (effects s).
Definition set_disposed v (s : State) :=
  mkState (textures s) v (material_map s) (currentTexture s) (lightRotation s)
    (ambientBrightness s) (directionalBrightness s) (ambientLight_intensity s)
    (directionalLight_intensity s) (autoRotate s) (controls_autoRotate s)
    (camera_position s) (controls_target s) (heap s) (uploadHistory s)
    (currentUploadEntry s) (db s) (loadingVisible s) (inflight s) (effects s).
Definition set_material_map v (s : State) :=
  mkState (textures s) (disposed s) v (currentTexture s) (lightRotation s)
    (ambientBrightness s) (directionalBrightness s) (ambientLight_intensity s)
    (directionalLight_intensity s) (autoRotate s) (controls_autoRotate s)
    (camera_position s) (controls_target s) (heap s) (uploadHistory s)
    (currentUploadEntry s) (db s) (loadingVisible s) (inflight s) (effects s).
Definition set_currentTexture v (s : State) :=
  mkState (textures s) (disposed s) (material_map s) v (lightRotation s)
    (ambientBrightness s) (directionalBrightness s) (ambientLight_intensity s)
    (directionalLight_intensity s) (autoRotate s) (controls_autoRotate s)
    (camera_position s) (controls_target s) (heap s) (uploadHistory s)
    (currentUploadEntry s) (db s) (loadingVisible s) (inflight s) (effects s).
Definition set_lightRotation v (s : State) :=
  mkState (textures s) (disposed s) (material_map s) (currentTexture s) v
    (ambientBrightness s) (directionalBrightness s) (ambientLight_intensity s)
    (directionalLight_intensity s) (autoRotate s) (controls_autoRotate s)
    (camera_position s) (controls_target s) (heap s) (uploadHistory s)
    (currentUploadEntry s) (db s) (loadingVisible s) (inflight s) (effects s).
Definition set_ambientBrightness v (s : State) :=
  mkState (textures s) (disposed s) (material_map s) (currentTexture s)
    (lightRotation s) v (directionalBrightness s) (ambientLight_intensity s)
    (directionalLight_intensity s) (autoRotate s) (controls_autoRotate s)
    (camera_position s) (controls_target s) (heap s) (uploadHistory s)
    (currentUploadEntry s) (db s) (loadingVisible s) (inflight s) (effects s).
Definition set_directionalBrightness v (s : State) :=
  mkState (textures s) (disposed s) (material_map s) (currentTexture s)
    (lightRotation s) (ambientBrightness s) v (ambientLight_intensity s)
    (directionalLight_intensity s) (autoRotate s) (controls_autoRotate s)
    (camera_position s) (controls_target s) (heap s) (uploadHistory s)
    (currentUploadEntry s) (db s) (loadingVisible s) (inflight s) (effects s).
Definition set_light_intensities a d (s : State) :=
  mkState (textures s) (disposed s) (material_map s) (currentTexture s)
    (lightRotation s) (ambientBrightness s) (directionalBrightness s) a d
    (autoRotate s) (controls_autoRotate s)
    (camera_position s) (controls_target s) (heap s) (uploadHistory s)
    (currentUploadEntry s) (db s) (loadingVisible s) (inflight s) (effects s).
Definition set_autoRotate v (s : State) :=
  mkState (textures s) (disposed s) (material_map s) (currentTexture s)
    (lightRotation s) (ambientBrightness s) (directionalBrightness s)
    (ambientLight_intensity s) (directionalLight_intensity s) v
    (controls_autoRotate s)
    (camera_position s) (controls_target s) (heap s) (uploadHistory s)
    (currentUploadEntry s) (db s) (loadingVisible s) (inflight s) (effects s).
Definition set_controls_autoRotate v (s : State) :=
  mkState (textures s) (disposed s) (material_map s) (currentTexture s)
    (lightRotation s) (ambientBrightness s) (directionalBrightness s)
    (ambientLight_intensity s) (directionalLight_intensity s) (autoRotate s) v
    (camera_position s) (controls_target s) (heap s) (uploadHistory s)
    (currentUploadEntry s) (db s) (loadingVisible s) (inflight s) (effects s).
Definition set_camera_position v (s : State) :=
  mkState (textures s) (disposed s) (material_map s) (currentTexture s)
    (lightRotation s) (ambientBrightness s) (directionalBrightness s)
    (ambientLight_intensity s) (directionalLight_intensity s) (autoRotate s)
    (controls_autoRotate s) v (controls_target s) (heap s) (uploadHistory s)
    (currentUploadEntry s) (db s) (loadingVisible s) (inflight s) (effects s).
Definition set_controls_target v (s : State) :=
  mkState (textures s) (disposed s) (material_map s) (currentTexture s)
    (lightRotation s) (ambientBrightness s) (directionalBrightness s)
    (ambientLight_intensity s) (directionalLight_intensity s) (autoRotate s)
    (controls_autoRotate s) (camera_position s) v (heap s) (uploadHistory s)
    (currentUploadEntry s) (db s) (loadingVisible s) (inflight s) (effects s).
Definition set_heap v (s : State) :=
  mkState (textures s) (disposed s) (material_map s) (currentTexture s)
    (lightRotation s) (ambientBrightness s) (directionalBrightness s)
    (ambientLight_intensity s) (directionalLight_intensity s) (autoRotate s)
    (controls_autoRotate s) (camera_position s) (controls_target s) v
    (uploadHistory s)
    (currentUploadEntry s) (db s) (loadingVisible s) (inflight s) (effects s).
Definition set_uploadHistory v (s : State) :=
  mkState (textures s) (disposed s) (material_map s) (currentTexture s)
    (lightRotation s) (ambientBrightness s) (directionalBrightness s)
    (ambientLight_intensity s) (directionalLight_intensity s) (autoRotate s)
    (controls_autoRotate s) (camera_position s) (controls_target s) (heap s) v
    (currentUploadEntry s) (db s) (loadingVisible s) (inflight s) (effects s).
Definition set_currentUploadEntry v (s : State) :=
  mkState (textures s) (disposed s) (material_map s) (currentTexture s)
    (lightRotation s) (ambientBrightness s) (directionalBrightness s)
    (ambientLight_intensity s) (directionalLight_intensity s) (autoRotate s)
    (controls_autoRotate s) (camera_position s) (controls_target s) (heap s)
    (uploadHistory s) v (db s) (loadingVisible s) (inflight s) (effects s).
Definition set_db v (s : State) :=
  mkState (textures s) (disposed s) (material_map s) (currentTexture s)
    (lightRotation s) (ambientBrightness s) (directionalBrightness s)
    (ambientLight_intensity s) (directionalLight_intensity s) (autoRotate s)
    (controls_autoRotate s) (camera_position s) (controls_target s) (heap s)
    (uploadHistory s) (currentUploadEntry s) v (loadingVisible s) (inflight s)
    (effects s).
Definition set_loadingVisible v (s : State) :=
  mkState (textures s) (disposed s) (material_map s) (currentTexture s)
    (lightRotation s) (ambientBrightness s) (directionalBrightness s)
    (ambientLight_intensity s) (directionalLight_intensity s) (autoRotate s)
    (controls_autoRotate s) (camera_position s) (controls_target s) (heap s)
    (uploadHistory s) (currentUploadEntry s) (db s) v (inflight s) (effects s).
Definition set_inflight v (s : State) :=
  mkState (textures s) (disposed s) (material_map s) (currentTexture s)
    (lightRotation s) (ambientBrightness s) (directionalBrightness s)
    (ambientLight_intensity s) (directionalLight_intensity s) (autoRotate s)
    (controls_autoRotate s) (camera_position s) (controls_target s) (heap s)
    (uploadHistory s) (currentUploadEntry s) (db s) (loadingVisible s) v
    (effects s).
Definition set_effects v (s : State) :=
  mkState (textures s) (disposed s) (material_map s) (currentTexture s)
    (lightRotation s) (ambientBrightness s) (directionalBrightness s)
    (ambientLight_intensity s) (directionalLight_intensity s) (autoRotate s)
    (controls_autoRotate s) (camera_position s) (controls_target s) (heap s)
    (uploadHistory s) (currentUploadEntry s) (db s) (loadingVisible s)
    (inflight s) v.

(** Log one call to a collaborator. *)
Definition emit (e : Effect) (s : State) : State :=
  set_effects (effects s ++ [e]) s.

(** Register asynchronous work. *)
Definition spawn (t : Task) (s : State) : State :=
  set_inflight (inflight s ++ [t]) s.

(** Sequencing of statements: [s |> f |> g] runs [f], then [g]. *)
Notation "s |> f" := (f s) (at level 45, left associativity, only parsing).

(** ** UI helpers *)

(** [showError(message)]: the message is shown; a timer hides it again
    five seconds later (the timer is not part of the model). *)
Definition showError (message : string) (s : State) : State :=
  s |> emit (ShowError message).

Definition showLoading (text : string) (s : State) : State :=
  s |> set_loadingVisible true |> emit (ShowLoading text).

Definition hideLoading (s : State) : State :=
  s |> set_loadingVisible false |> emit HideLoading.

Definition updateUploadHistoryUI (s : State) : State :=
  s |> emit (UpdateUploadHistoryUI (uploadHistory s)).

(** ** Lighting and rotation *)

(** [updateLighting()]: the light intensities follow the two brightness
    fields; the position of the directional light (trigonometry on
    [lightRotation]) is left to the renderer. *)
Definition updateLighting (s : State) : State :=
  s |> set_light_intensities (ambientBrightness s) (directionalBrightness s)
    |> emit UpdateLighting.

Definition toggleAutoRotate (s : State) : State :=
  let a := negb (autoRotate s) in
  s |> set_autoRotate a |> set_controls_autoRotate a.

(** The [start] listener of the orbit controls. *)
Definition controls_start (s : State) : State :=
  if autoRotate s then toggleAutoRotate s else s.

(** ** Texture binding *)

(** [if (this.currentTexture) this.currentTexture.dispose()]. *)
Definition dispose_current (s : State) : State :=
  match currentTexture s with
  | Some t => s |> set_disposed (disposed s ++ [t]) |> emit (Dispose t)
  | None => s
  end.

(** [new THREE.Texture(img)]: the handle of the texture created next. *)
Definition fresh_texture (s : State) : tex := length (textures s).

Definition new_texture (src : string) (s : State) : State :=
  set_textures (textures s ++ [src]) s.

(** [this.globe.material.map = texture; this.currentTexture = texture]. *)
Definition bind_texture (t : tex) (s : State) : State :=
  s |> set_material_map (Some t) |> emit (Bind t) |> set_currentTexture (Some t).

(** What the [img.onload] handlers of [loadTexture] and
    [loadTextureFromDataUrl] start with: release the bound texture, create
    the new one from the decoded image, bind it. *)
Definition swap_texture (src : string) (s : State) : State :=
  let s1 := dispose_current s in
  let t := fresh_texture s1 in
  s1 |> new_texture src |> bind_texture t.

(** ** The orbit controls

    [OrbitControls] is a library.  Its [update()] recomputes the camera
    around the orbit target: one step of auto-rotation when
    [controls.autoRotate] is set, what is left of a damped gesture
    ([enableDamping] is on), the distance kept within [minDistance] and
    [maxDistance].  The pose it leaves (camera position and orbit target)
    is supplied by the environment, as a function of the auto-rotation
    flag and of the pose it finds. *)
Definition ControlsBehaviour : Type := bool → CameraSettings → CameraSettings.

(** Controls at rest: [update()] leaves the camera where it is. *)
Definition at_rest : ControlsBehaviour := λ _ pose, pose.

(** [this.controls.update()]. *)
Definition controls_update (update : ControlsBehaviour) (s : State) : State :=
  let pose := update (controls_autoRotate s)
                     (mkCamera (camera_position s) (controls_target s)) in
  s |> set_camera_position (s_position pose)
    |> set_controls_target (s_target pose)
    |> emit ControlsUpdate.

(** ** Saved settings *)

Definition restoreSavedSettings (update : ControlsBehaviour)
    (savedSettings : option SavedSettings) (s : State) : State :=
  match savedSettings with
  | None => s
  | Some ss =>
      let s1 :=
        match lighting ss with
        | Some l =>
            s |> set_ambientBrightness (s_ambientBrightness l)
              |> set_directionalBrightness (s_directionalBrightness l)
              |> set_lightRotation (s_lightRotation l)
              |> updateLighting
        | None => s
        end in
      match camera ss with
      | Some c =>
          s1 |> set_camera_position (s_position c)
             |> emit (SetCameraPosition (s_position c))
             |> set_controls_target (s_target c)
             |> emit (SetControlsTarget (s_target c))
             |> controls_update update
      | None => s1
      end
  end.

(** The settings object literal built by [saveCurrentSettings]. *)
Definition capture_settings (s : State) : SavedSettings :=
  mkSaved
    (Some (mkLighting (ambientBrightness s) (directionalBrightness s)
                      (lightRotation s)))
    (Some (mkCamera (camera_position s) (controls_target s))).

(** ** The IndexedDB store and its [timestamp] index *)

(** Order in which a cursor opened with direction ['prev'] on the index
    ['timestamp'] visits the records: index key descending, records with
    the same index key by primary key descending. *)
Definition index_prev (a b : Z * UploadEntry.t) : Prop :=
  UploadEntry.timestamp b.2 < UploadEntry.timestamp a.2
  ∨ (UploadEntry.timestamp a.2 = UploadEntry.timestamp b.2 ∧ b.1 ≤ a.1).

#[global] Instance index_prev_dec a b : Decision (index_prev a b).
Proof. unfold index_prev. apply _. Defined.

(** The values the cursor of [loadUploadHistory] pushes onto [textures]. *)
Definition cursor_prev (m : Store) : list UploadEntry.t :=
  (merge_sort index_prev (map_to_list m)).*2.

(** [store.put(uploadEntry)]: the record is keyed by its [id]. *)
Definition store_put (e : UploadEntry.t) (m : Store) : Store :=
  <[UploadEntry.id e := e]> m.

(** The content of a store: what a sequence of [put]s has left, the
    oldest [put] last in the list. *)
Definition store_of (records : list UploadEntry.t) : Store :=
  foldr store_put ∅ records.

(** ** Upload history *)

(** [loadUploadHistory()], taken at the completion of its cursor: every
    record read is a fresh object; the ten first are kept.  The conversion
    of textual timestamps does not apply to records written by the viewer,
    whose [timestamp] is stored as a [Date]. *)
Definition loadUploadHistory (s : State) : State :=
  match db s with
  | None => s
  | Some m =>
      let records := cursor_prev m in
      let base := length (heap s) in
      s |> set_heap (heap s ++ records)
        |> set_uploadHistory (take 10 (seq base (length records)))
        |> updateUploadHistoryUI
  end.

(** [saveTextureToIndexedDB(uploadEntry)], taken at the completion of the
    write and of the reload it triggers (a write that fails only logs a
    warning and changes nothing).  The argument is the entry object. *)
Definition saveTextureToIndexedDB (uploadEntry : loc) (s : State) : State :=
  match db s with
  | None =>
      let h := uploadEntry :: uploadHistory s in
      s |> set_uploadHistory (if (10 <? length h)%nat then take 10 h else h)
        |> updateUploadHistoryUI
  | Some m =>
      match heap s !! uploadEntry with
      | Some e => s |> set_db (Some (store_put e m)) |> loadUploadHistory
      | None => s
      end
  end.

Definition clearUploadHistory (s : State) : State :=
  let s1 := s |> set_uploadHistory [] |> updateUploadHistoryUI in
  match db s1 with
  | None => s1
  | Some _ => set_db (Some ∅) s1
  end.

(** [request.onsuccess] of [initIndexedDB]: the database opens with the
    records of earlier sessions. *)
Definition initIndexedDB_onsuccess (m : Store) (s : State) : State :=
  s |> set_db (Some m) |> loadUploadHistory.

(** What the environment supplies to an [img.onload] handler: the values
    [addToUploadHistory] reads, and the behaviour of the orbit controls at
    that moment. *)
Record Env := {
  env_id : Z;             (* Date.now() + Math.random() *)
  env_thumbnail : string; (* canvas.toDataURL('image/jpeg', 0.8) *)
  env_date : Z;           (* new Date() *)
  env_controls : ControlsBehaviour (* this.controls.update() *)
}.

(** An environment in which the controls are at rest. *)
Definition mkEnv (id : Z) (thumbnail : string) (date : Z) : Env :=
  Build_Env id thumbnail date at_rest.

Definition addToUploadHistory (file : File.t) (src : string) (env : Env)
    (s : State) : State :=
  let uploadEntry :=
    UploadEntry.mk (env_id env)
                   (first_piece (split "." (File.name file)))
                   (env_thumbnail env) src (env_date env) None in
  let l := length (heap s) in
  s |> set_heap (heap s ++ [uploadEntry])
    |> set_currentUploadEntry (Some l)
    |> saveTextureToIndexedDB l.

Definition saveCurrentSettings (s : State) : State :=
  match currentUploadEntry s with
  | None =>
      s |> emit (Alert
        "No uploaded texture to save settings for. Please upload an image first.")
  | Some l =>
      let savedSettings := capture_settings s in
      s |> set_heap
             (alter (UploadEntry.set_savedSettings (Some savedSettings)) l (heap s))
        |> saveTextureToIndexedDB l
  end.

(** The entries the history shows, in order. *)
Definition history_view (s : State) : list UploadEntry.t :=
  omap (λ l, heap s !! l) (uploadHistory s).

(** [getAll()]: the ordered view after a read of the store (the list kept
    in memory when there is no store). *)
Definition getAll (s : State) : list UploadEntry.t :=
  history_view (loadUploadHistory s).

(** ** Loading a dropped file: [loadTexture] *)

Definition validTypes : list string :=
  ["image/jpeg"; "image/jpg"; "image/png"; "image/webp"].

(** [validTypes.includes(t)]. *)
Definition includes (l : list string) (t : string) : bool :=
  existsb (String.eqb t) l.

Definition maxSize : Z := 50 * 1024 * 1024.

Definition loadTexture (file : File.t) (s : State) : State :=
  if negb (includes validTypes (File.type file)) then
    s |> showError "Please drop a valid image file (JPG, PNG, or WebP)"
  else
    let s1 :=
      if maxSize <? File.size file then
        s |> showError
               "Image file is quite large and may cause performance issues"
      else s in
    s1 |> showLoading ("Loading " +:+ File.name file +:+ "...")
       |> emit (ReadAsDataURL file)
       |> spawn (ReadingFile file).

(** [reader.onload]: the image decode starts on the data URL read. *)
Definition loadTexture_reader_onload (file : File.t) (result : string)
    (s : State) : State :=
  s |> emit (SetImgSrc result) |> spawn (DecodingFile file result).

Definition loadTexture_reader_onerror (s : State) : State :=
  s |> showError "Failed to read file" |> hideLoading.

(** [img.onload] of [loadTexture].  No statement of the [try] block throws
    in the model, so the [catch] branch is not represented. *)
Definition loadTexture_img_onload (file : File.t) (src : string) (env : Env)
    (s : State) : State :=
  let s1 :=
    s |> swap_texture src
      |> updateLighting
      |> addToUploadHistory file src env in
  let s2 := if negb (autoRotate s1) then toggleAutoRotate s1 else s1 in
  hideLoading s2.

Definition loadTexture_img_onerror (s : State) : State :=
  s |> showError "Failed to load image - file may be corrupted" |> hideLoading.

(** ** Loading a preset: [loadTextureFromUrl] *)

Definition loadTextureFromUrl (url : string) (s : State) : State :=
  let fileName := or_default (pop (split "/" url)) "texture" in
  s |> showLoading ("Loading " +:+ fileName +:+ "...")
    |> emit (SetImgSrc url)
    |> spawn (DecodingUrl url).

(** [img.onload] of [loadTextureFromUrl]: the texture comes with a new
    material, which replaces the old one. *)
Definition loadTextureFromUrl_onload (url : string) (s : State) : State :=
  let s1 := dispose_current s in
  let t := fresh_texture s1 in
  let s2 :=
    s1 |> new_texture url
       |> emit DisposeMaterial
       |> bind_texture t in
  let s3 := if negb (autoRotate s2) then toggleAutoRotate s2 else s2 in
  hideLoading s3.

Definition loadTextureFromUrl_onerror (s : State) : State :=
  s |> showError "Failed to load example texture" |> hideLoading.

(** ** Loading a cached entry: [loadTextureFromDataUrl] *)

Definition loadTextureFromDataUrl (dataUrl : string)
    (savedSettings : option SavedSettings) (fileName : option string)
    (uploadEntry : option loc) (s : State) : State :=
  let loadingText :=
    match fileName with
    | Some (String c n) => "Loading " +:+ String c n +:+ "..."
    | _ => "Loading cached texture..."
    end in
  s |> showLoading loadingText
    |> emit (SetImgSrc dataUrl)
    |> spawn (DecodingDataUrl dataUrl savedSettings uploadEntry).

(** [img.onload] of [loadTextureFromDataUrl].  No statement of the [try]
    block throws on the settings of the model, so the [catch] branch is
    not taken. *)
Definition loadTextureFromDataUrl_onload (update : ControlsBehaviour)
    (dataUrl : string) (savedSettings : option SavedSettings)
    (uploadEntry : option loc) (s : State) : State :=
  let s1 :=
    s |> swap_texture dataUrl
      |> set_currentUploadEntry uploadEntry
      |> restoreSavedSettings update savedSettings in
  let s2 := if autoRotate s1 then toggleAutoRotate s1 else s1 in
  hideLoading s2.

Definition loadTextureFromDataUrl_onerror (s : State) : State :=
  s |> showError "Failed to load cached texture" |> hideLoading.

(** The click listener [updateUploadHistoryUI] attaches to the item of the
    entry object [upload]. *)
Definition history_item_click (upload : loc) (s : State) : State :=
  match heap s !! upload with
  | Some e =>
      loadTextureFromDataUrl (UploadEntry.originalDataUrl e)
        (UploadEntry.savedSettings e) (Some (UploadEntry.name e))
        (Some upload) s
  | None => s
  end.

(** ** The event loop *)

(** What the browser delivers to the viewer.  [Orbit] is the controls
    moving the camera between two handlers: a gesture of the user, or a
    frame of [animate] with auto-rotation or damping at work. *)
Inductive Event :=
  | Drop (file : File.t)
  | ClickPreset (url : string)
  | ClickHistory (upload : loc)
  | ClickSave
  | ClickClear
  | ClickAutoRotate
  | ControlsStart
  | AmbientInput (value : Q)
  | DirectionalInput (value : Q)
  | LightRotationInput (value : Z)
  | Orbit (position target : Vec3)
  | DbOpened (records : list UploadEntry.t)
  | ReaderLoaded (i : nat) (result : string)
  | ReaderFailed (i : nat)
  | ImgLoaded (i : nat) (env : Env)
  | ImgFailed (i : nat).

(** The task a completion event refers to leaves the in-flight list. *)
Definition finish (i : nat) (s : State) : State :=
  set_inflight (delete i (inflight s)) s.

Definition step (ev : Event) (s : State) : State :=
  match ev with
  | Drop file => loadTexture file s
  | ClickPreset url => loadTextureFromUrl url s
  | ClickHistory upload =>
      if bool_decide (upload ∈ uploadHistory s) then history_item_click upload s
      else s
  | ClickSave => saveCurrentSettings s
  | ClickClear => clearUploadHistory s
  | ClickAutoRotate => toggleAutoRotate s
  | ControlsStart => controls_start s
  | AmbientInput value => s |> set_ambientBrightness value |> updateLighting
  | DirectionalInput value =>
      s |> set_directionalBrightness value |> updateLighting
  | LightRotationInput value => set_lightRotation value s
  | Orbit position target =>
      s |> set_camera_position position |> set_controls_target target
  | DbOpened records => initIndexedDB_onsuccess (store_of records) s
  | ReaderLoaded i result =>
      match inflight s !! i with
      | Some (ReadingFile file) =>
          s |> finish i |> loadTexture_reader_onload file result
      | _ => s
      end
  | ReaderFailed i =>
      match inflight s !! i with
      | Some (ReadingFile _) => s |> finish i |> loadTexture_reader_onerror
      | _ => s
      end
  | ImgLoaded i env =>
      match inflight s !! i with
      | Some (DecodingFile file src) =>
          s |> finish i |> loadTexture_img_onload file src env
      | Some (DecodingUrl url) =>
          s |> finish i |> loadTextureFromUrl_onload url
      | Some (DecodingDataUrl dataUrl savedSettings uploadEntry) =>
          s |> finish i
            |> loadTextureFromDataUrl_onload (env_controls env) dataUrl
                 savedSettings uploadEntry
      | _ => s
      end
  | ImgFailed i =>
      match inflight s !! i with
      | Some (DecodingFile _ _) => s |> finish i |> loadTexture_img_onerror
      | Some (DecodingUrl _) => s |> finish i |> loadTextureFromUrl_onerror
      | Some (DecodingDataUrl _ _ _) =>
          s |> finish i |> loadTextureFromDataUrl_onerror
      | _ => s
      end
  end.

(** Running a sequence of events, first event first. *)
Definition run (evs : list Event) (s : State) : State :=
  fold_left (λ s ev, step ev s) evs s.

(** The viewer once its constructor has run and the default texture has
    been bound (texture [0], the default image). *)
Definition ready : State :=
  mkState ["assets/earth.png"] [] (Some 0%nat) (Some 0%nat)
    45 (9 # 10) (12 # 10) (9 # 10) (12 # 10)
    true true (mkVec3 0 0 3) (mkVec3 0 0 0)
    [] [] None None
    false [] [].

(** ** Notions used in the statements *)

(** Everything the viewer keeps besides the transient UI (loading
    overlay, in-flight work, log of collaborator calls). *)
Definition persistent_state (s : State) :=
  (textures s, disposed s, material_map s, currentTexture s,
   (lightRotation s, ambientBrightness s, directionalBrightness s,
    ambientLight_intensity s, directionalLight_intensity s),
   (autoRotate s, controls_autoRotate s, camera_position s, controls_target s),
   (heap s, uploadHistory s, currentUploadEntry s, db s)).

(** The image shown on the globe. *)
Definition bound_image (s : State) : option string :=
  currentTexture s ≫= λ t, textures s !! t.

Definition lighting_of (s : State) : LightingSettings :=
  mkLighting (ambientBrightness s) (directionalBrightness s) (lightRotation s).

Definition camera_of (s : State) : CameraSettings :=
  mkCamera (camera_position s) (controls_target s).

(** Textures created and not released. *)
Definition live_textures (s : State) : list tex :=
  filter (λ t, t ∉ disposed s) (seq 0 (length (textures s))).

(** The filename with its extension removed, as the data model words it:
    what precedes the last dot (the whole name when it has no dot). *)
Definition stem (fileName : string) : string :=
  match split "." fileName with
  | [] => EmptyString
  | [p] => p
  | p :: ps => fold_left (λ acc q, acc +:+ "." +:+ q) (removelast ps) p
  end.

(** The failure event of a task: a failed file read for a read in flight,
    a failed image decode otherwise. *)
Definition failure_of (t : Task) (i : nat) : Event :=
  match t with
  | ReadingFile _ => ReaderFailed i
  | _ => ImgFailed i
  end.

Definition failure_message (t : Task) : string :=
  match t with
  | ReadingFile _ => "Failed to read file"
  | DecodingFile _ _ => "Failed to load image - file may be corrupted"
  | DecodingUrl _ => "Failed to load example texture"
  | DecodingDataUrl _ _ _ => "Failed to load cached texture"
  end.

(** What [restoreSavedSettings] asks of the collaborators. *)
Definition restore_effects (savedSettings : option SavedSettings) : list Effect :=
  match savedSettings ≫= lighting with
  | Some _ => [UpdateLighting]
  | None => []
  end ++
  match savedSettings ≫= camera with
  | Some c => [SetCameraPosition (s_position c); SetControlsTarget (s_target c);
               ControlsUpdate]
  | None => []
  end.

Definition release_effects (s : State) : list Effect :=
  match currentTexture s with
  | Some t => [Dispose t]
  | None => []
  end.

(** The renderer side of the state. *)
Definition gfx (s : State) :=
  (textures s, disposed s, material_map s, currentTexture s).

(** The upload-history side of the state. *)
Definition hist (s : State) :=
  (heap s, uploadHistory s, currentUploadEntry s, db s).

(** The renderer side once the texture made from [src] has replaced the
    bound one. *)
Definition gfx_swapped (src : string) (s : State) :=
  (textures s ++ [src],
   disposed s ++ option_list (currentTexture s),
   Some (length (textures s)), Some (length (textures s))).

(** The source of the image a decoding task has in flight. *)
Definition task_src (t : Task) : option string :=
  match t with
  | ReadingFile _ => None
  | DecodingFile _ src => Some src
  | DecodingUrl url => Some url
  | DecodingDataUrl dataUrl _ _ => Some dataUrl
  end.

(** The released textures are textures that exist, the bound texture
    exists and is not released, and every texture that exists is released
    or bound. *)
Definition texture_inv (s : State) : Prop :=
  (∀ t, t ∈ disposed s → (t < length (textures s))%nat)
  ∧ (∀ t, currentTexture s = Some t →
          (t < length (textures s))%nat ∧ t ∉ disposed s)
  ∧ (∀ t, (t < length (textures s))%nat →
          t ∈ disposed s ∨ currentTexture s = Some t).

(** ** The history as a cache: [put] and [getAll] *)

(** A call [put(entry)] is a call of [saveTextureToIndexedDB], either on an
    entry object just created, as [addToUploadHistory] does, or on an
    object that exists already, as [saveCurrentSettings] does. *)
Inductive Put :=
  | PutNew (e : UploadEntry.t)
  | PutAgain (l : loc).

Definition put (p : Put) (s : State) : State :=
  match p with
  | PutNew e =>
      s |> set_heap (heap s ++ [e]) |> saveTextureToIndexedDB (length (heap s))
  | PutAgain l =>
      if bool_decide (l < length (heap s))%nat then saveTextureToIndexedDB l s
      else s
  end.

Definition puts (ps : list Put) (s : State) : State :=
  fold_left (λ s p, put p s) ps s.

(** The viewer at the beginning of a session: without a store (in-memory
    fallback), or with the store opened on the records of earlier
    sessions. *)
Definition start (records : option (list UploadEntry.t)) : State :=
  match records with
  | None => ready
  | Some rs => initIndexedDB_onsuccess (store_of rs) ready
  end.

(** Most recent [createdAt] first; entries of equal [createdAt] may follow
    one another. *)
Definition newest_first (l : list UploadEntry.t) : Prop :=
  StronglySorted (λ x y, UploadEntry.timestamp y ≤ UploadEntry.timestamp x) l.

(** Oldest [createdAt] first: the order in which uploads are made. *)
Definition oldest_first (l : list UploadEntry.t) : Prop :=
  StronglySorted (λ x y, UploadEntry.timestamp x ≤ UploadEntry.timestamp y) l.

(** Most recent [createdAt] first, no two entries of equal [createdAt]. *)
Definition strictly_newest_first (l : list UploadEntry.t) : Prop :=
  StronglySorted (λ x y, UploadEntry.timestamp y < UploadEntry.timestamp x) l.

(** Every record of the store sits under its own [id] (keyPath ['id']). *)
Definition store_keyed (m : Store) : Prop :=
  ∀ k e, m !! k = Some e → UploadEntry.id e = k.

(** The entry locations of the history point into the heap. *)
Definition hist_wf (s : State) : Prop :=
  Forall (λ l, (l < length (heap s))%nat) (uploadHistory s).

(** The three events of one complete upload, when nothing else is in
    flight. *)
Definition upload (file : File.t) (data : string) (env : Env) : list Event :=
  [Drop file; ReaderLoaded 0 data; ImgLoaded 0 env].

(** Sample data: the [n]-th photo is uploaded at time [n]; the entry its
    upload creates, and the events of the upload. *)
Definition sample_entry (n : Z) : UploadEntry.t :=
  UploadEntry.mk (1000 + n) "photo" "data:thumb" "data:photo" n None.

Definition sample_upload (n : Z) : list Event :=
  upload (File.mk "photo.png" "image/png" 1000) "data:photo"
         (mkEnv (1000 + n) "data:thumb" n).

(** ** Start-up: the default texture and its fallback

    [loadDefaultTexture] is called once, by [createGlobe], with
    [skipLoading = true]; its two callbacks are functions of their own,
    dispatched by [happen], below (the event loop [step] does not
    dispatch them). *)

(** The canvas [createFallbackTexture] draws (a blue 512x256 grid). *)
Definition fallback_image : string := "canvas:fallback-grid".

Definition default_image : string := "assets/earth.png".

(** [createFallbackTexture()]: a new canvas texture is bound; nothing is
    released. *)
Definition createFallbackTexture (s : State) : State :=
  let t := fresh_texture s in
  s |> new_texture fallback_image |> bind_texture t.

Definition loadDefaultTexture (skipLoading : bool) (s : State) : State :=
  let s1 := if negb skipLoading then showLoading "Loading default texture..." s
            else s in
  s1 |> emit (SetImgSrc default_image).

(** [img.onload] of [loadDefaultTexture]. *)
Definition loadDefaultTexture_onload (skipLoading : bool) (s : State) : State :=
  let s1 := s |> swap_texture default_image |> updateLighting in
  if negb skipLoading then hideLoading s1 else s1.

(** [img.onerror] of [loadDefaultTexture]. *)
Definition loadDefaultTexture_onerror (skipLoading : bool) (s : State) : State :=
  let s1 := createFallbackTexture s in
  if negb skipLoading then hideLoading s1 else s1.

(** The viewer when its constructor returns: no texture yet, the default
    image requested, the start-up message on the loading overlay. *)
Definition constructed : State :=
  mkState [] [] None None
    45 (9 # 10) (12 # 10) (9 # 10) (12 # 10)
    true true (mkVec3 0 0 3) (mkVec3 0 0 0)
    [] [] None None
    true []
    [SetImgSrc default_image; UpdateLighting;
     ShowLoading "Initializing Globe Viewer..."].

(** ** Drag and drop: [setupDragAndDrop]

    The listeners share the local counter [dragCounter]; next to it the
    model keeps the two things they toggle: the class ['drag-over'] of the
    container and the visibility of the drag modal. *)
Record DragUI := mkDragUI {
  dragCounter : Z;
  drag_over : bool;
  dragModalVisible : bool
}.

Inductive DragEvent :=
  | DragEnter
  | DragOver
  | DragLeave
  | DropFiles (files : list File.t).

Definition drag_idle : DragUI := mkDragUI 0 false false.

Definition drag_step (ev : DragEvent) (u : DragUI * State) : DragUI * State :=
  let (d, s) := u in
  match ev with
  | DragEnter =>
      let c := dragCounter d + 1 in
      if c =? 1 then (mkDragUI c true true, s)
      else (mkDragUI c (drag_over d) (dragModalVisible d), s)
  | DragOver => (d, s)
  | DragLeave =>
      let c := dragCounter d - 1 in
      if c =? 0 then (mkDragUI c false false, s)
      else (mkDragUI c (drag_over d) (dragModalVisible d), s)
  | DropFiles files =>
      (mkDragUI 0 false false,
       match files with
       | file :: _ => loadTexture file s
       | [] => s
       end)
  end.

Definition drag_run (evs : list DragEvent) (u : DragUI * State) : DragUI * State :=
  fold_left (λ u ev, drag_step ev u) evs u.

(** A sequence of drag events in which no [dragleave] comes without a
    [dragenter] still open, starting with [c] of them open. *)
Fixpoint well_nested (c : Z) (evs : list DragEvent) : bool :=
  match evs with
  | [] => true
  | DragEnter :: evs => well_nested (c + 1) evs
  | DragOver :: evs => well_nested c evs
  | DragLeave :: evs => (0 <? c) && well_nested (c - 1) evs
  | DropFiles _ :: evs => well_nested 0 evs
  end.

(** ** More notions used in the statements *)

(** The controls rotate exactly when the viewer says so, and the lights
    shine as the brightness fields say. *)
Definition view_in_sync (s : State) : Prop :=
  controls_autoRotate s = autoRotate s
  ∧ ambientLight_intensity s = ambientBrightness s
  ∧ directionalLight_intensity s = directionalBrightness s.

(** The part of the state [view_in_sync] reads. *)
Definition view (s : State) :=
  (autoRotate s, controls_autoRotate s,
   (ambientBrightness s, directionalBrightness s,
    ambientLight_intensity s, directionalLight_intensity s)).

(** A cached load in flight refers to an entry object that exists. *)
Definition task_wf (n : nat) (t : Task) : Prop :=
  match t with
  | DecodingDataUrl _ _ (Some l) => (l < n)%nat
  | _ => True
  end.

(** The history holds at most ten entries; its entries, the current entry
    and the entries of the cached loads in flight are objects that exist. *)
Definition history_inv (s : State) : Prop :=
  (length (uploadHistory s) ≤ 10)%nat
  ∧ hist_wf s
  ∧ (∀ l, currentUploadEntry s = Some l → (l < length (heap s))%nat)
  ∧ Forall (task_wf (length (heap s))) (inflight s).

(** [pieces.join(sep)]. *)
Fixpoint join (sep : ascii) (pieces : list string) : string :=
  match pieces with
  | [] => EmptyString
  | [p] => p
  | p :: ps => p +:+ String sep (join sep ps)
  end.

(** The entry object [addToUploadHistory] builds. *)
Definition new_entry (file : File.t) (src : string) (env : Env) : UploadEntry.t :=
  UploadEntry.mk (env_id env) (first_piece (split "." (File.name file)))
                 (env_thumbnail env) src (env_date env) None.

(** Events that only change the view: sliders, orbiting, the rotation
    button. *)
Definition view_event (ev : Event) : bool :=
  match ev with
  | ClickAutoRotate | ControlsStart | AmbientInput _ | DirectionalInput _
  | LightRotationInput _ | Orbit _ _ => true
  | _ => false
  end.

(** The loads whose [onload] handler restarts the rotation: uploads and
    presets. *)
Definition restarts_rotation (t : Task) : bool :=
  match t with
  | DecodingFile _ _ | DecodingUrl _ => true
  | _ => false
  end.

(** The list [l] with the entries of the same [id] as [e'] replaced by
    [e']. *)
Definition replace_by_id (e' : UploadEntry.t) (l : list UploadEntry.t)
    : list UploadEntry.t :=
  (λ x, if bool_decide (UploadEntry.id x = UploadEntry.id e') then e' else x)
    <$> l.

(** The loads a sequence of drag events starts: one per drop that carries
    files, of the first file of the drop. *)
Definition dropped (evs : list DragEvent) : list Event :=
  omap (λ ev, match ev with
              | DropFiles (file :: _) => Some (Drop file)
              | _ => None
              end) evs.

(** The drag modal is shown exactly while drags are open. *)
Definition drag_inv (d : DragUI) : Prop :=
  0 ≤ dragCounter d
  ∧ dragModalVisible d = (0 <? dragCounter d)
  ∧ drag_over d = dragModalVisible d.

(** The events that can lead to a current entry: a dropped file and a
    click on a history entry. *)
Definition starts_entry_load (ev : Event) : bool :=
  match ev with
  | Drop _ | ClickHistory _ => true
  | _ => false
  end.

(** A task that does not set the current entry when it completes. *)
Definition keeps_current_entry (t : Task) : bool :=
  match t with
  | DecodingUrl _ => true
  | _ => false
  end.

(** ** A whole session

    From the constructor on, the things that happen are the events of
    [step] and the outcome of the start-up load of the default image
    ([loadDefaultTexture(true)], called once, by [createGlobe]): its
    [img.onload] or its [img.onerror], at any moment between the other
    events. *)
Inductive Happening :=
  | Ev (ev : Event)
  | DefaultImage (loaded : bool).

Definition happen (h : Happening) (s : State) : State :=
  match h with
  | Ev ev => step ev s
  | DefaultImage true => loadDefaultTexture_onload true s
  | DefaultImage false => loadDefaultTexture_onerror true s
  end.

Definition session_from (hs : list Happening) (s : State) : State :=
  fold_left (λ s h, happen h s) hs s.

Definition session (hs : list Happening) : State :=
  session_from hs constructed.

Definition is_outcome (h : Happening) : bool :=
  match h with
  | DefaultImage _ => true
  | Ev _ => false
  end.

(** The image element of the default load fires one of its two callbacks,
    once. *)
Definition settles_once (hs : list Happening) : bool :=
  (length (List.filter is_outcome hs) <=? 1)%nat.

(** The texture the fallback leaves behind: the one bound at the moment
    the default image fails, which [createFallbackTexture] replaces on the
    material without releasing it. *)
Fixpoint leaked_from (hs : list Happening) (s : State) : option tex :=
  match hs with
  | [] => None
  | DefaultImage false :: _ => currentTexture s
  | h :: hs' => leaked_from hs' (happen h s)
  end.

Definition leaked (hs : list Happening) : option tex :=
  leaked_from hs constructed.

(** The textures are accounted for: every texture is released at most
    once, the material shows the current one, and every texture created
    is released, current, or the one left behind ([leak]), which is older
    than the current one. *)
Definition texture_inv_with (leak : option tex) (s : State) : Prop :=
  NoDup (disposed s)
  ∧ material_map s = currentTexture s
  ∧ (∀ t, t ∈ disposed s → (t < length (textures s))%nat)
  ∧ (∀ t, currentTexture s = Some t →
          (t < length (textures s))%nat ∧ t ∉ disposed s)
  ∧ (∀ t0, leak = Some t0 →
           (t0 ∉ disposed s)
           ∧ ∃ t, currentTexture s = Some t ∧ (t0 < t)%nat)
  ∧ (∀ t, (t < length (textures s))%nat →
          t ∈ disposed s ∨ currentTexture s = Some t ∨ leak = Some t).

(** ** Settings the viewer wrote

    The viewer gives an entry [savedSettings: null] when it creates it and
    the object literal of [saveCurrentSettings], with both groups, when it
    saves the view. *)
Definition written_by_viewer (savedSettings : option SavedSettings) : bool :=
  match savedSettings with
  | None => true
  | Some ss =>
      match lighting ss, camera ss with
      | Some _, Some _ => true
      | _, _ => false
      end
  end.

Definition entry_written_by_viewer (e : UploadEntry.t) : bool :=
  written_by_viewer (UploadEntry.savedSettings e).

(** The records the store delivers when it opens were written by the
    viewer, in earlier sessions. *)
Definition stored_by_viewer (hs : list Happening) : bool :=
  forallb (λ h, match h with
                | Ev (DbOpened records) => forallb entry_written_by_viewer records
                | _ => true
                end) hs.

Definition task_written_by_viewer (t : Task) : bool :=
  match t with
  | DecodingDataUrl _ savedSettings _ => written_by_viewer savedSettings
  | _ => true
  end.

(** Every settings object in the viewer's hands was written by the
    viewer: in the entry objects, in the store, in the cached loads in
    flight. *)
Definition settings_inv (s : State) : Prop :=
  Forall (λ e, entry_written_by_viewer e = true) (heap s)
  ∧ (∀ m k e, db s = Some m → m !! k = Some e → entry_written_by_viewer e = true)
  ∧ Forall (λ t, task_written_by_viewer t = true) (inflight s).

(** * Properties *)

(** ** File names *)

Lemma includes_spec (l : list string) (t : string) :
  includes l t = true ↔ t ∈ l.
Proof.
  unfold includes. rewrite existsb_exists. split.
  - intros (x & Hin & Heq). apply String.eqb_eq in Heq. subst.
    by apply list_elem_of_In.
  - intros Hin. exists t. split; [by apply list_elem_of_In|apply String.eqb_refl].
Qed.

Lemma includes_false (l : list string) (t : string) :
  t ∉ l → includes l t = false.
Proof.
  intros Hn. destruct (includes l t) eqn:E; [|done].
  apply includes_spec in E. contradiction.
Qed.

Lemma split_nonempty sep s : split sep s ≠ [].
Proof.
  destruct s as [|c s]; cbn; [done|].
  destruct (Ascii.eqb c sep); [done|]. by destruct (split sep s).
Qed.

(** [s.split(sep)[0]] is what precedes the first [sep] of [s]: it has no
    [sep] in it, and the rest of [s] is empty or starts with [sep]. *)
Lemma first_piece_split sep s :
  ∃ rest, s = first_piece (split sep s) +:+ rest
          ∧ (rest = EmptyString ∨ ∃ r, rest = String sep r)
          ∧ sep ∉ list_ascii_of_string (first_piece (split sep s)).
Proof.
  induction s as [|c s (rest & Hs & Hrest & Hno)]; cbn.
  - exists EmptyString. split; [done|]. split; [by left|]. apply not_elem_of_nil.
  - destruct (Ascii.eqb_spec c sep) as [->|Hne].
    + exists (String sep s). split; [done|]. split; [right; by eexists|].
      apply not_elem_of_nil.
    + pose proof (split_nonempty sep s) as Hnil.
      destruct (split sep s) as [|p ps]; [done|]. cbn in *.
      exists rest. split; [by rewrite Hs at 1|]. split; [done|].
      intros [?|?]%elem_of_cons; done.
Qed.

(** C9. The name of the history entry created for an upload is the piece of
    the filename before its FIRST dot: for "a.b.png" the entry is named "a",
    while the filename without its extension is "a.b". *)
Theorem addToUploadHistory_name_cuts_at_first_dot :
  let file := File.mk "a.b.png" "image/png" 2048 in
  let s := addToUploadHistory file "data:image/png;base64,AAAA"
             (mkEnv 1001 "data:image/jpeg;base64,BBBB" 1000) ready in
  UploadEntry.name <$> history_view s = ["a"]
  ∧ stem (File.name file) = "a.b".
Proof. by vm_compute. Qed.

(** With a single dot in the filename the two agree. *)
Example addToUploadHistory_name_single_dot :
  first_piece (split "." "earth.jpg") = stem "earth.jpg".
Proof. reflexivity. Qed.

(** ** Validation *)

(** C7. A file whose MIME type is none of the accepted ones is turned down
    with an error message before anything is read or decoded: nothing but
    the message changes.  An accepted file above 50MB gets a warning and
    the load goes on: loading indicator, then the file read. *)
Theorem loadTexture_validation (file : File.t) (s : State) :
  (File.type file ∉ validTypes →
     loadTexture file s
       = emit (ShowError "Please drop a valid image file (JPG, PNG, or WebP)") s
     ∧ persistent_state (loadTexture file s) = persistent_state s
     ∧ inflight (loadTexture file s) = inflight s
     ∧ loadingVisible (loadTexture file s) = loadingVisible s)
  ∧ (File.type file ∈ validTypes → maxSize < File.size file →
     effects (loadTexture file s)
       = effects s ++
         [ShowError "Image file is quite large and may cause performance issues";
          ShowLoading ("Loading " +:+ File.name file +:+ "...");
          ReadAsDataURL file]
     ∧ inflight (loadTexture file s) = inflight s ++ [ReadingFile file]
     ∧ persistent_state (loadTexture file s) = persistent_state s).
Proof.
  split.
  - intros Hbad. unfold loadTexture.
    rewrite (includes_false _ _ Hbad). simpl. by destruct s.
  - intros Hok Hbig. unfold loadTexture.
    apply includes_spec in Hok. rewrite Hok. simpl.
    apply Z.ltb_lt in Hbig. rewrite Hbig.
    destruct s; simpl. by rewrite <- !app_assoc.
Qed.

Lemma loadTexture_validation_witness :
  (let file := File.mk "doc.pdf" "application/pdf" 1000 in
   loadTexture file ready
     = emit (ShowError "Please drop a valid image file (JPG, PNG, or WebP)") ready
   ∧ persistent_state (loadTexture file ready) = persistent_state ready
   ∧ inflight (loadTexture file ready) = inflight ready
   ∧ loadingVisible (loadTexture file ready) = loadingVisible ready)
  ∧ (let file := File.mk "huge.png" "image/png" 60000000 in
     effects (loadTexture file ready)
       = effects ready ++
         [ShowError "Image file is quite large and may cause performance issues";
          ShowLoading ("Loading " +:+ File.name file +:+ "...");
          ReadAsDataURL file]
     ∧ inflight (loadTexture file ready) = inflight ready ++ [ReadingFile file]
     ∧ persistent_state (loadTexture file ready) = persistent_state ready).
Proof.
  split.
  - apply (proj1 (loadTexture_validation (File.mk "doc.pdf" "application/pdf" 1000) ready)).
    unfold validTypes. intros H. apply list_elem_of_In in H. simpl in H.
    intuition discriminate.
  - apply (proj2 (loadTexture_validation (File.mk "huge.png" "image/png" 60000000) ready)).
    + unfold validTypes. apply list_elem_of_In. simpl. tauto.
    + reflexivity.
Defined.

(** ** Failed decodes *)

(** C8. When the read or the decode of a load in flight fails, the viewer
    shows an error message and hides the loading indicator, the load is
    over, and the bound texture, the history, the store, the lighting, the
    camera and the rotation are what they were. *)
Theorem failed_decode_keeps_state (s : State) (i : nat) (t : Task) :
  inflight s !! i = Some t →
  let s' := step (failure_of t i) s in
  persistent_state s' = persistent_state s
  ∧ bound_image s' = bound_image s
  ∧ effects s' = effects s ++ [ShowError (failure_message t); HideLoading]
  ∧ loadingVisible s' = false
  ∧ inflight s' = delete i (inflight s).
Proof.
  intros Hi. destruct t; cbn [failure_of step]; rewrite Hi; destruct s; cbn.
  all: by rewrite <- ?app_assoc.
Qed.

Lemma failed_decode_keeps_state_witness :
  let s := run [Drop (File.mk "broken.png" "image/png" 10);
                ReaderLoaded 0 "data:image/png;base64,????"] ready in
  let s' := step (ImgFailed 0) s in
  persistent_state s' = persistent_state s
  ∧ bound_image s' = bound_image s
  ∧ effects s' = effects s ++
      [ShowError "Failed to load image - file may be corrupted"; HideLoading]
  ∧ loadingVisible s' = false
  ∧ inflight s' = [].
Proof.
  apply (failed_decode_keeps_state
           (run [Drop (File.mk "broken.png" "image/png" 10);
                 ReaderLoaded 0 "data:image/png;base64,????"] ready)
           0 (DecodingFile (File.mk "broken.png" "image/png" 10)
                           "data:image/png;base64,????")).
  reflexivity.
Defined.
(** ** Auto-rotation after a load *)

Lemma autoRotate_hideLoading s : autoRotate (hideLoading s) = autoRotate s.
Proof. reflexivity. Qed.

Lemma autoRotate_toggleAutoRotate s :
  autoRotate (toggleAutoRotate s) = negb (autoRotate s).
Proof. reflexivity. Qed.

Lemma loadTexture_img_onload_autoRotate file src env s :
  autoRotate (loadTexture_img_onload file src env s) = true.
Proof.
  unfold loadTexture_img_onload. rewrite autoRotate_hideLoading.
  destruct (autoRotate (addToUploadHistory _ _ _ _)) eqn:E; cbn [negb];
    rewrite ?autoRotate_toggleAutoRotate, E; reflexivity.
Qed.

Lemma loadTextureFromUrl_onload_autoRotate url s :
  autoRotate (loadTextureFromUrl_onload url s) = true.
Proof.
  unfold loadTextureFromUrl_onload. rewrite autoRotate_hideLoading.
  match goal with |- context [negb (autoRotate ?x)] =>
    destruct (autoRotate x) eqn:E end; cbn [negb];
    rewrite ?autoRotate_toggleAutoRotate, E; reflexivity.
Qed.

(** The cached path tests [this.autoRotate] where the two other paths test
    [!this.autoRotate]: it leaves rotation off whatever it was. *)
Lemma loadTextureFromDataUrl_onload_autoRotate update dataUrl ss ue s :
  autoRotate (loadTextureFromDataUrl_onload update dataUrl ss ue s) = false.
Proof.
  unfold loadTextureFromDataUrl_onload. rewrite autoRotate_hideLoading.
  match goal with |- context [if autoRotate ?x then _ else _] =>
    destruct (autoRotate x) eqn:E end;
    rewrite ?autoRotate_toggleAutoRotate, E; reflexivity.
Qed.

(** C2. A successful load of a cached history entry ends with
    auto-rotation off, whatever it was before.  In particular, an upload
    ends with rotation on, and selecting the entry in the history
    afterwards switches rotation off. *)
Theorem cached_load_turns_autoRotate_off :
  (∀ update dataUrl savedSettings uploadEntry s,
     autoRotate (loadTextureFromDataUrl_onload update dataUrl savedSettings
                   uploadEntry s) = false)
  ∧ let uploaded :=
      run (upload (File.mk "earth.jpg" "image/jpeg" 2000000)
                  "data:image/jpeg;base64,EARTH"
                  (mkEnv 1001 "data:image/jpeg;base64,thumb" 1000)) ready in
    let reloaded := run [ClickHistory 0; ImgLoaded 0 (mkEnv 0 "" 0)] uploaded in
    autoRotate uploaded = true
    ∧ bound_image reloaded = Some "data:image/jpeg;base64,EARTH"
    ∧ autoRotate reloaded = false
    ∧ controls_autoRotate reloaded = false.
Proof.
  split; [apply loadTextureFromDataUrl_onload_autoRotate|].
  by vm_compute.
Qed.


(** ** Restoring saved settings *)

Lemma camera_eta (c : CameraSettings) : mkCamera (s_position c) (s_target c) = c.
Proof. by destruct c. Qed.

(** What [restoreSavedSettings] does, group by group: the lighting group
    is copied; the camera group is written and handed to
    [controls.update()], which has the last word on the pose. *)
Lemma restoreSavedSettings_groups update savedSettings s :
  let s' := restoreSavedSettings update savedSettings s in
  lighting_of s' = default (lighting_of s) (savedSettings ≫= lighting)
  ∧ camera_of s'
    = from_option (update (controls_autoRotate s)) (camera_of s)
        (savedSettings ≫= camera)
  ∧ effects s' = effects s ++ restore_effects savedSettings
  ∧ (textures s', disposed s', material_map s', currentTexture s')
    = (textures s, disposed s, material_map s, currentTexture s).
Proof.
  destruct savedSettings as [[[[]|] [[p q]|]]|]; destruct s.
  all: repeat split; try reflexivity.
  all: try (unfold camera_of; lazy -[app s_position s_target];
            apply camera_eta).
  all: lazy -[app]; rewrite <- ?app_assoc, ?app_nil_r; reflexivity.
Qed.

(** A cached load, group by group.  Every call to a collaborator made for
    the settings comes after the bind of the new texture. *)
Lemma loadTextureFromDataUrl_onload_groups
    (update : ControlsBehaviour) (dataUrl : string)
    (savedSettings : option SavedSettings) (uploadEntry : option loc)
    (s : State) :
  let s' := loadTextureFromDataUrl_onload update dataUrl savedSettings
              uploadEntry s in
  lighting_of s' = default (lighting_of s) (savedSettings ≫= lighting)
  ∧ (ambientLight_intensity s', directionalLight_intensity s')
    = from_option (λ l, (s_ambientBrightness l, s_directionalBrightness l))
        (ambientLight_intensity s, directionalLight_intensity s)
        (savedSettings ≫= lighting)
  ∧ camera_of s'
    = from_option (update (controls_autoRotate s)) (camera_of s)
        (savedSettings ≫= camera)
  ∧ effects s' = effects s ++ release_effects s
                   ++ [Bind (length (textures s))]
                   ++ restore_effects savedSettings ++ [HideLoading]
  ∧ currentTexture s' = Some (length (textures s))
  ∧ bound_image s' = Some dataUrl.
Proof.
  destruct savedSettings as [[[[]|] [[p q]|]]|];
    destruct s as [txs ? ? [t0|] ? ? ? ? ? []].
  all: repeat split; try reflexivity.
  all: try (unfold camera_of; lazy -[app lookup length s_position s_target];
            apply camera_eta).
  all: lazy -[app lookup length];
    first [ by apply list_lookup_middle
          | rewrite <- ?app_assoc, ?app_nil_r; reflexivity ].
Qed.

(** The settings object [saveCurrentSettings] builds has both parts: a
    cached load that carries it copies the lighting and hands the saved
    pose to [controls.update()]. *)
Lemma captured_settings_applied_whole update dataUrl uploadEntry s0 s :
  let s' := loadTextureFromDataUrl_onload update dataUrl
              (Some (capture_settings s0)) uploadEntry s in
  lighting_of s' = lighting_of s0
  ∧ ambientLight_intensity s' = ambientBrightness s0
  ∧ directionalLight_intensity s' = directionalBrightness s0
  ∧ camera_of s' = update (controls_autoRotate s) (camera_of s0).
Proof.
  destruct s as [txs ? ? [t0|] ? ? ? ? ? []]; repeat split; try reflexivity.
  all: unfold camera_of; lazy -[app lookup length s_position s_target];
    apply camera_eta.
Qed.


(** ** Frame lemmas

    Which parts of the state a method leaves alone: the renderer side
    ([gfx]), the upload history ([hist]) and the in-flight list. *)

Lemma gfx_emit e s : gfx (emit e s) = gfx s.
Proof. reflexivity. Qed.

Lemma hist_emit e s : hist (emit e s) = hist s.
Proof. reflexivity. Qed.

Lemma inflight_emit e s : inflight (emit e s) = inflight s.
Proof. reflexivity. Qed.

Lemma gfx_showError m s : gfx (showError m s) = gfx s.
Proof. reflexivity. Qed.

Lemma hist_showError m s : hist (showError m s) = hist s.
Proof. reflexivity. Qed.

Lemma inflight_showError m s : inflight (showError m s) = inflight s.
Proof. reflexivity. Qed.

Lemma gfx_showLoading text s : gfx (showLoading text s) = gfx s.
Proof. reflexivity. Qed.

Lemma hist_showLoading text s : hist (showLoading text s) = hist s.
Proof. reflexivity. Qed.

Lemma inflight_showLoading text s : inflight (showLoading text s) = inflight s.
Proof. reflexivity. Qed.

Lemma gfx_hideLoading s : gfx (hideLoading s) = gfx s.
Proof. reflexivity. Qed.

Lemma hist_hideLoading s : hist (hideLoading s) = hist s.
Proof. reflexivity. Qed.

Lemma inflight_hideLoading s : inflight (hideLoading s) = inflight s.
Proof. reflexivity. Qed.

Lemma gfx_updateUploadHistoryUI s : gfx (updateUploadHistoryUI s) = gfx s.
Proof. reflexivity. Qed.

Lemma hist_updateUploadHistoryUI s : hist (updateUploadHistoryUI s) = hist s.
Proof. reflexivity. Qed.

Lemma inflight_updateUploadHistoryUI s : inflight (updateUploadHistoryUI s) = inflight s.
Proof. reflexivity. Qed.

Lemma gfx_updateLighting s : gfx (updateLighting s) = gfx s.
Proof. reflexivity. Qed.

Lemma hist_updateLighting s : hist (updateLighting s) = hist s.
Proof. reflexivity. Qed.

Lemma inflight_updateLighting s : inflight (updateLighting s) = inflight s.
Proof. reflexivity. Qed.

Lemma gfx_toggleAutoRotate s : gfx (toggleAutoRotate s) = gfx s.
Proof. reflexivity. Qed.

Lemma hist_toggleAutoRotate s : hist (toggleAutoRotate s) = hist s.
Proof. reflexivity. Qed.

Lemma inflight_toggleAutoRotate s : inflight (toggleAutoRotate s) = inflight s.
Proof. reflexivity. Qed.

Lemma gfx_spawn t s : gfx (spawn t s) = gfx s.
Proof. reflexivity. Qed.

Lemma hist_spawn t s : hist (spawn t s) = hist s.
Proof. reflexivity. Qed.

Lemma gfx_finish i s : gfx (finish i s) = gfx s.
Proof. reflexivity. Qed.

Lemma hist_finish i s : hist (finish i s) = hist s.
Proof. reflexivity. Qed.

Lemma gfx_set_currentUploadEntry v s : gfx (set_currentUploadEntry v s) = gfx s.
Proof. reflexivity. Qed.

Lemma gfx_set_heap v s : gfx (set_heap v s) = gfx s.
Proof. reflexivity. Qed.

Lemma inflight_set_currentUploadEntry v s : inflight (set_currentUploadEntry v s) = inflight s.
Proof. reflexivity. Qed.

Lemma inflight_set_heap v s : inflight (set_heap v s) = inflight s.
Proof. reflexivity. Qed.

Lemma gfx_controls_start s : gfx (controls_start s) = gfx s.
Proof. unfold controls_start; by destruct (autoRotate s). Qed.

Lemma hist_controls_start s : hist (controls_start s) = hist s.
Proof. unfold controls_start; by destruct (autoRotate s). Qed.

Lemma inflight_controls_start s : inflight (controls_start s) = inflight s.
Proof. unfold controls_start; by destruct (autoRotate s). Qed.

Lemma gfx_restoreSavedSettings update ss s :
  gfx (restoreSavedSettings update ss s) = gfx s.
Proof. apply (restoreSavedSettings_groups update ss s). Qed.

Lemma hist_restoreSavedSettings update ss s :
  hist (restoreSavedSettings update ss s) = hist s.
Proof. by destruct ss as [[[] []]|]. Qed.

Lemma inflight_restoreSavedSettings update ss s :
  inflight (restoreSavedSettings update ss s) = inflight s.
Proof. by destruct ss as [[[] []]|]. Qed.

Lemma hist_swap_texture src s : hist (swap_texture src s) = hist s.
Proof. unfold swap_texture, dispose_current. by destruct (currentTexture s). Qed.

Lemma inflight_swap_texture src s : inflight (swap_texture src s) = inflight s.
Proof. unfold swap_texture, dispose_current. by destruct (currentTexture s). Qed.

Lemma gfx_swap_texture src s : gfx (swap_texture src s) = gfx_swapped src s.
Proof.
  unfold swap_texture, dispose_current, gfx_swapped.
  destruct (currentTexture s) eqn:E; lazy -[app length]; rewrite ?E, ?app_nil_r;
    reflexivity.
Qed.

Lemma gfx_loadUploadHistory s : gfx (loadUploadHistory s) = gfx s.
Proof. unfold loadUploadHistory. by destruct (db s). Qed.

Lemma inflight_loadUploadHistory s : inflight (loadUploadHistory s) = inflight s.
Proof. unfold loadUploadHistory. by destruct (db s). Qed.

Lemma gfx_saveTextureToIndexedDB l s : gfx (saveTextureToIndexedDB l s) = gfx s.
Proof.
  unfold saveTextureToIndexedDB.
  destruct (db s); [destruct (heap s !! l)|]; reflexivity.
Qed.

Lemma inflight_saveTextureToIndexedDB l s :
  inflight (saveTextureToIndexedDB l s) = inflight s.
Proof.
  unfold saveTextureToIndexedDB.
  destruct (db s); [destruct (heap s !! l)|]; reflexivity.
Qed.

Lemma gfx_addToUploadHistory file src env s :
  gfx (addToUploadHistory file src env s) = gfx s.
Proof. unfold addToUploadHistory. by rewrite gfx_saveTextureToIndexedDB. Qed.

Lemma inflight_addToUploadHistory file src env s :
  inflight (addToUploadHistory file src env s) = inflight s.
Proof. unfold addToUploadHistory. by rewrite inflight_saveTextureToIndexedDB. Qed.

Lemma gfx_saveCurrentSettings s : gfx (saveCurrentSettings s) = gfx s.
Proof.
  unfold saveCurrentSettings. destruct (currentUploadEntry s); [|reflexivity].
  by rewrite gfx_saveTextureToIndexedDB.
Qed.

Lemma gfx_clearUploadHistory s : gfx (clearUploadHistory s) = gfx s.
Proof. unfold clearUploadHistory. cbv zeta. by destruct (db _). Qed.

Lemma gfx_loadTexture file s : gfx (loadTexture file s) = gfx s.
Proof.
  unfold loadTexture.
  destruct (negb _); [reflexivity|]. by destruct (maxSize <? _).
Qed.

Lemma gfx_history_item_click l s : gfx (history_item_click l s) = gfx s.
Proof. unfold history_item_click. by destruct (heap s !! l). Qed.

Create Rewrite HintDb frame.

#[local] Hint Rewrite
  gfx_emit gfx_showError gfx_showLoading gfx_hideLoading
  gfx_updateUploadHistoryUI gfx_updateLighting gfx_toggleAutoRotate gfx_spawn
  gfx_finish gfx_set_currentUploadEntry gfx_set_heap gfx_controls_start
  gfx_restoreSavedSettings gfx_swap_texture gfx_loadUploadHistory
  gfx_saveTextureToIndexedDB gfx_addToUploadHistory gfx_saveCurrentSettings
  gfx_clearUploadHistory gfx_loadTexture gfx_history_item_click
  hist_emit hist_showError hist_showLoading hist_hideLoading
  hist_updateUploadHistoryUI hist_updateLighting hist_toggleAutoRotate
  hist_spawn hist_finish hist_controls_start hist_restoreSavedSettings
  hist_swap_texture
  inflight_emit inflight_showError inflight_showLoading inflight_hideLoading
  inflight_updateUploadHistoryUI inflight_updateLighting
  inflight_toggleAutoRotate inflight_set_currentUploadEntry inflight_set_heap
  inflight_controls_start inflight_restoreSavedSettings inflight_swap_texture
  inflight_loadUploadHistory inflight_saveTextureToIndexedDB
  inflight_addToUploadHistory : frame.

(** Case split on the rotation test of an [onload] handler. *)
Ltac rotation_cases :=
  match goal with
  | |- context [if negb (autoRotate ?x) then _ else _] => destruct (negb (autoRotate x))
  | |- context [if autoRotate ?x then _ else _] => destruct (autoRotate x)
  end.

(** ** Completion of a decode *)

Lemma gfx_loadTexture_img_onload file src env s :
  gfx (loadTexture_img_onload file src env s) = gfx_swapped src s.
Proof.
  unfold loadTexture_img_onload. cbv zeta.
  rotation_cases; by autorewrite with frame.
Qed.

Lemma gfx_loadTextureFromUrl_onload url s :
  gfx (loadTextureFromUrl_onload url s) = gfx_swapped url s.
Proof.
  unfold loadTextureFromUrl_onload. cbv zeta.
  rotation_cases; autorewrite with frame;
    unfold dispose_current, gfx_swapped;
    destruct (currentTexture s) eqn:E; lazy -[app length];
    rewrite ?E, ?app_nil_r; reflexivity.
Qed.

Lemma gfx_loadTextureFromDataUrl_onload update dataUrl ss ue s :
  gfx (loadTextureFromDataUrl_onload update dataUrl ss ue s)
  = gfx_swapped dataUrl s.
Proof.
  unfold loadTextureFromDataUrl_onload. cbv zeta.
  rotation_cases; by autorewrite with frame.
Qed.

Lemma inflight_loadTexture_img_onload file src env s :
  inflight (loadTexture_img_onload file src env s) = inflight s.
Proof.
  unfold loadTexture_img_onload. cbv zeta.
  rotation_cases; by autorewrite with frame.
Qed.

Lemma inflight_loadTextureFromUrl_onload url s :
  inflight (loadTextureFromUrl_onload url s) = inflight s.
Proof.
  unfold loadTextureFromUrl_onload, dispose_current. cbv zeta.
  destruct (currentTexture s); rotation_cases; reflexivity.
Qed.

Lemma inflight_loadTextureFromDataUrl_onload update dataUrl ss ue s :
  inflight (loadTextureFromDataUrl_onload update dataUrl ss ue s) = inflight s.
Proof.
  unfold loadTextureFromDataUrl_onload. cbv zeta.
  rotation_cases; by autorewrite with frame.
Qed.

(** A completed decode binds the texture of its own image, whatever was
    bound. *)
Lemma step_ImgLoaded_gfx s i env t src :
  inflight s !! i = Some t → task_src t = Some src →
  gfx (step (ImgLoaded i env) s) = gfx_swapped src s.
Proof.
  intros Hi Hsrc. unfold step. rewrite Hi.
  destruct t; simplify_eq/=.
  - by rewrite gfx_loadTexture_img_onload.
  - by rewrite gfx_loadTextureFromUrl_onload.
  - by rewrite gfx_loadTextureFromDataUrl_onload.
Qed.

(** Every step either leaves the renderer side alone or is a completed
    decode. *)
Lemma step_gfx ev s :
  gfx (step ev s) = gfx s ∨ ∃ src, gfx (step ev s) = gfx_swapped src s.
Proof.
  destruct ev as [file|url|l| | | | |v|v|v|p q|records|i r|i|i env|i];
    unfold step.
  - left. apply gfx_loadTexture.
  - by left.
  - left. case_bool_decide; [apply gfx_history_item_click|done].
  - left. apply gfx_saveCurrentSettings.
  - left. apply gfx_clearUploadHistory.
  - by left.
  - left. unfold controls_start. by destruct (autoRotate s).
  - by left.
  - by left.
  - by left.
  - by left.
  - left. unfold initIndexedDB_onsuccess. by rewrite gfx_loadUploadHistory.
  - left. by destruct (inflight s !! i) as [[]|].
  - left. by destruct (inflight s !! i) as [[]|].
  - destruct (inflight s !! i) as [[]|]; [by left|right..|by left].
    + eexists. by rewrite gfx_loadTexture_img_onload.
    + eexists. by rewrite gfx_loadTextureFromUrl_onload.
    + eexists. by rewrite gfx_loadTextureFromDataUrl_onload.
  - left. by destruct (inflight s !! i) as [[]|].
Qed.

Lemma step_ImgLoaded_inflight s i env t src :
  inflight s !! i = Some t → task_src t = Some src →
  inflight (step (ImgLoaded i env) s) = delete i (inflight s).
Proof.
  intros Hi Hsrc. unfold step. rewrite Hi. destruct t; cbn in Hsrc; simplify_eq.
  - by rewrite inflight_loadTexture_img_onload.
  - by rewrite inflight_loadTextureFromUrl_onload.
  - by rewrite inflight_loadTextureFromDataUrl_onload.
Qed.

(** ** One texture at a time *)

Lemma texture_inv_ready : texture_inv ready.
Proof.
  split; [|split].
  - intros t Hin. inversion Hin.
  - intros t [= <-]. split; [cbn; lia|]. intros Hin. inversion Hin.
  - intros t Hlt. right. cbn in Hlt. cbn. f_equal. lia.
Qed.

Lemma texture_inv_frame s s' : gfx s' = gfx s → texture_inv s → texture_inv s'.
Proof.
  unfold gfx, texture_inv. intros [= Ht Hd _ Hc]. by rewrite Ht, Hd, Hc.
Qed.

Lemma texture_inv_swapped src s s' :
  gfx s' = gfx_swapped src s → texture_inv s → texture_inv s'.
Proof.
  unfold gfx, gfx_swapped, texture_inv.
  intros [= Ht Hd _ Hc] (Hdis & Hcur & Hall). rewrite Ht, Hd, Hc, length_app.
  cbn [length].
  assert (∀ t, t ∈ disposed s ++ option_list (currentTexture s) →
               (t < length (textures s))%nat) as Hold.
  { intros t [Hin|Hin]%elem_of_app; [by apply Hdis|].
    destruct (currentTexture s) as [t0|]; [|inversion Hin].
    apply list_elem_of_singleton in Hin as ->. by destruct (Hcur t0 eq_refl). }
  split; [|split].
  - intros t Hin. apply Hold in Hin. lia.
  - intros t [= <-]. split; [lia|]. intros Hin. apply Hold in Hin. lia.
  - intros t Hlt. destruct (decide (t = length (textures s))) as [->|Hne];
      [by right|left].
    apply elem_of_app. destruct (Hall t) as [?|Hc']; [lia|by left|right].
    rewrite Hc'. by apply list_elem_of_singleton.
Qed.

Lemma step_texture_inv ev s : texture_inv s → texture_inv (step ev s).
Proof.
  intros Hinv. destruct (step_gfx ev s) as [Hg|[src Hg]].
  - by apply (texture_inv_frame s).
  - by apply (texture_inv_swapped src s).
Qed.

Lemma run_texture_inv evs s : texture_inv s → texture_inv (run evs s).
Proof.
  revert s. induction evs as [|ev evs IH]; intros s Hinv; [done|].
  apply IH. by apply step_texture_inv.
Qed.

Lemma elem_of_live_textures t s :
  t ∈ live_textures s ↔ (t ∉ disposed s) ∧ (t < length (textures s))%nat.
Proof.
  unfold live_textures. rewrite list_elem_of_filter, elem_of_seq. intuition lia.
Qed.

(** Under the invariant the only texture not released is the bound one. *)
Lemma live_texture_is_bound s t :
  texture_inv s → t ∈ live_textures s → currentTexture s = Some t.
Proof.
  intros (_ & _ & Hall) [Hnd Hlt]%elem_of_live_textures.
  by destruct (Hall t Hlt).
Qed.

(** A completed decode: its image is the one bound, and the texture bound
    before it is released. *)
Lemma decode_completion_binds s i env t src :
  inflight s !! i = Some t → task_src t = Some src →
  let s' := step (ImgLoaded i env) s in
  bound_image s' = Some src
  ∧ currentTexture s' = Some (length (textures s))
  ∧ textures s' = textures s ++ [src]
  ∧ (∀ t0, currentTexture s = Some t0 → t0 ∈ disposed s').
Proof.
  intros Hi Hsrc s'.
  assert (gfx s' = gfx_swapped src s) as Hg
    by (by apply (step_ImgLoaded_gfx s i env t)).
  clearbody s'. unfold gfx, gfx_swapped in Hg. injection Hg as Ht Hd _ Hc.
  unfold bound_image. rewrite Hc, Ht, Hd. cbn.
  split; [by apply list_lookup_middle|]. split; [done|]. split; [done|].
  intros t0 ->. apply elem_of_app. right. by apply list_elem_of_singleton.
Qed.

(** ** Overlapping loads *)


(** ** The store and its cursor *)

#[local] Instance index_prev_total : Total index_prev.
Proof. intros [k1 e1] [k2 e2]. unfold index_prev. cbn. lia. Qed.

#[local] Instance index_prev_trans : Transitive index_prev.
Proof. intros [k1 e1] [k2 e2] [k3 e3]. unfold index_prev. cbn. lia. Qed.

Lemma cursor_entries_sorted (m : Store) :
  StronglySorted index_prev (merge_sort index_prev (map_to_list m)).
Proof. apply StronglySorted_merge_sort; apply _. Qed.

Lemma StronglySorted_fmap_impl {A B} (R : relation A) (Q : relation B)
    (f : A → B) (l : list A) :
  (∀ x y, R x y → Q (f x) (f y)) →
  StronglySorted R l → StronglySorted Q (f <$> l).
Proof.
  intros HRQ. induction 1 as [|x l Hl IH Hx]; [constructor|].
  cbn. constructor; [done|].
  apply Forall_fmap. eapply Forall_impl; [exact Hx|]. intros y. apply HRQ.
Qed.

Lemma StronglySorted_take {A} (R : relation A) (l : list A) n :
  StronglySorted R l → StronglySorted R (take n l).
Proof.
  intros Hl. revert n. induction Hl as [|x l Hl IH Hx]; intros [|n]; cbn;
    try constructor; [apply IH|].
  by apply Forall_take.
Qed.

(** The cursor visits the records most recent first. *)
Lemma cursor_prev_newest_first (m : Store) : newest_first (cursor_prev m).
Proof.
  unfold cursor_prev, newest_first.
  apply (StronglySorted_fmap_impl index_prev); [|apply cursor_entries_sorted].
  intros [k1 e1] [k2 e2]. unfold index_prev. cbn. lia.
Qed.

Lemma elem_of_cursor_prev (m : Store) e :
  e ∈ cursor_prev m ↔ ∃ k, m !! k = Some e.
Proof.
  unfold cursor_prev. rewrite list_elem_of_fmap. split.
  - intros ([k e'] & -> & Hin). exists k.
    rewrite merge_sort_Permutation in Hin. by apply elem_of_map_to_list in Hin.
  - intros [k Hk]. exists (k, e). split; [done|].
    rewrite merge_sort_Permutation. by apply elem_of_map_to_list.
Qed.

(** Writing a record under a key not in use, newer than every record of
    the store, puts it first in cursor order and moves nothing else. *)
Lemma cursor_prev_insert_newest (m : Store) k e :
  m !! k = None →
  (∀ k' r, m !! k' = Some r → UploadEntry.timestamp r < UploadEntry.timestamp e) →
  cursor_prev (<[k:=e]> m) = e :: cursor_prev m.
Proof.
  intros Hfresh Hnew. unfold cursor_prev.
  change (e :: (merge_sort index_prev (map_to_list m)).*2)
    with (((k, e) :: merge_sort index_prev (map_to_list m)).*2).
  f_equal. apply (StronglySorted_unique_strong index_prev).
  - intros [k1 e1] [k2 e2] H1 H2 HR1 HR2.
    rewrite merge_sort_Permutation in H1. apply elem_of_map_to_list in H1.
    assert (<[k:=e]> m !! k2 = Some e2) as H2'.
    { apply elem_of_cons in H2 as [[= -> ->]|H2].
      - apply lookup_insert_eq.
      - rewrite merge_sort_Permutation in H2. apply elem_of_map_to_list in H2.
        rewrite lookup_insert_ne; [done|]. intros <-. congruence. }
    unfold index_prev in HR1, HR2. cbn in HR1, HR2.
    assert (k1 = k2) as -> by lia. congruence.
  - apply cursor_entries_sorted.
  - constructor; [apply cursor_entries_sorted|].
    apply Forall_forall. intros [k' r] Hin.
    rewrite merge_sort_Permutation in Hin. apply elem_of_map_to_list in Hin.
    left. cbn. eauto.
  - rewrite !merge_sort_Permutation. by apply map_to_list_insert.
Qed.

Lemma store_keyed_put e (m : Store) : store_keyed m → store_keyed (store_put e m).
Proof.
  intros Hm k e'. unfold store_put.
  destruct (decide (UploadEntry.id e = k)) as [<-|Hne].
  - rewrite lookup_insert_eq. congruence.
  - rewrite lookup_insert_ne by done. apply Hm.
Qed.

Lemma store_keyed_store_of records : store_keyed (store_of records).
Proof.
  induction records as [|e rs IH]; [by intros k e|].
  by apply store_keyed_put.
Qed.

(** In a store keyed by [id], no two records the cursor visits share an
    [id]. *)
Lemma cursor_prev_NoDup_id (m : Store) :
  store_keyed m → NoDup (UploadEntry.id <$> cursor_prev m).
Proof.
  intros Hm. unfold cursor_prev.
  assert (UploadEntry.id <$> (merge_sort index_prev (map_to_list m)).*2
          = (merge_sort index_prev (map_to_list m)).*1) as ->.
  { rewrite <- list_fmap_compose. apply list_fmap_ext.
    intros i [k e] Hin. apply list_elem_of_lookup_2 in Hin.
    rewrite merge_sort_Permutation in Hin. apply elem_of_map_to_list in Hin.
    cbn. by apply Hm. }
  rewrite merge_sort_Permutation. apply NoDup_fst_map_to_list.
Qed.

(** ** Reading the history *)

Lemma take_if_overflow {A} n (h : list A) :
  (if (n <? length h)%nat then take n h else h) = take n h.
Proof.
  destruct (Nat.ltb_spec n (length h)); [done|]. by rewrite take_ge.
Qed.

Lemma take_app_take {A} n (a b : list A) :
  take n (a ++ take n b) = take n (a ++ b).
Proof. rewrite !take_app, take_take. do 2 f_equal. lia. Qed.

Lemma length_omap_le {A B} (f : A → option B) (l : list A) :
  (length (omap f l) ≤ length l)%nat.
Proof. induction l as [|x l IH]; cbn; [done|]. destruct (f x); cbn; lia. Qed.

Lemma omap_take_total {A B} (f : A → option B) (l : list A) n :
  Forall (λ x, is_Some (f x)) l → omap f (take n l) = take n (omap f l).
Proof.
  intros Hl. revert n. induction Hl as [|x l [y Hy] _ IH]; intros [|n]; cbn;
    rewrite ?Hy; cbn; [done..|]. by rewrite IH.
Qed.

Lemma omap_lookup_seq {A} (h r : list A) k :
  (k ≤ length r)%nat →
  omap (λ l, (h ++ r) !! l) (seq (length h) k) = take k r.
Proof.
  induction k as [|k IH]; intros Hk; [done|].
  rewrite seq_S, omap_app, IH by lia. cbn.
  destruct (lookup_lt_is_Some_2 r k) as [x Hx]; [lia|].
  rewrite lookup_app_r, Nat.add_comm, Nat.add_sub, Hx by lia. cbn.
  by rewrite (take_S_r r k x).
Qed.

Lemma omap_lookup_app_wf {A} (h r : list A) (u : list nat) :
  Forall (λ l, (l < length h)%nat) u →
  omap (λ l, (h ++ r) !! l) u = omap (λ l, h !! l) u.
Proof.
  induction 1 as [|l u Hl _ IH]; [done|]. cbn.
  by rewrite lookup_app_l, IH.
Qed.

Lemma history_view_hist s h u c d :
  hist s = (h, u, c, d) → history_view s = omap (λ l, h !! l) u.
Proof. unfold hist. by intros [= <- <- _ _]. Qed.

Lemma hist_set_heap v s :
  hist (set_heap v s) = (v, uploadHistory s, currentUploadEntry s, db s).
Proof. reflexivity. Qed.

Lemma hist_set_db v s :
  hist (set_db v s) = (heap s, uploadHistory s, currentUploadEntry s, v).
Proof. reflexivity. Qed.

Lemma hist_set_uploadHistory v s :
  hist (set_uploadHistory v s) = (heap s, v, currentUploadEntry s, db s).
Proof. reflexivity. Qed.

Lemma hist_set_currentUploadEntry v s :
  hist (set_currentUploadEntry v s) = (heap s, uploadHistory s, v, db s).
Proof. reflexivity. Qed.

Lemma loadUploadHistory_memory s : db s = None → loadUploadHistory s = s.
Proof. unfold loadUploadHistory. by intros ->. Qed.

Lemma hist_loadUploadHistory_store s m :
  db s = Some m →
  hist (loadUploadHistory s)
  = (heap s ++ cursor_prev m,
     take 10 (seq (length (heap s)) (length (cursor_prev m))),
     currentUploadEntry s, Some m).
Proof.
  intros Hdb. unfold loadUploadHistory. rewrite Hdb. cbv zeta.
  rewrite hist_updateUploadHistoryUI, hist_set_uploadHistory. cbn [heap db set_heap
    currentUploadEntry]. by rewrite Hdb.
Qed.

Lemma getAll_memory s : db s = None → getAll s = history_view s.
Proof. intros Hdb. unfold getAll. by rewrite loadUploadHistory_memory. Qed.

(** With a store, [getAll] is the ten first records in cursor order. *)
Lemma getAll_store s m : db s = Some m → getAll s = take 10 (cursor_prev m).
Proof.
  intros Hdb. unfold getAll.
  rewrite (history_view_hist _ _ _ _ _ (hist_loadUploadHistory_store s m Hdb)).
  rewrite take_seq, omap_lookup_seq by lia.
  destruct (Nat.min_spec 10 (length (cursor_prev m))) as [[? ->]|[? ->]];
    [done|]. by rewrite !take_ge by lia.
Qed.

Lemma hist_saveTextureToIndexedDB_memory l s :
  db s = None →
  hist (saveTextureToIndexedDB l s)
  = (heap s, take 10 (l :: uploadHistory s), currentUploadEntry s, None).
Proof.
  intros Hdb. unfold saveTextureToIndexedDB. rewrite Hdb. cbv zeta.
  rewrite hist_updateUploadHistoryUI, hist_set_uploadHistory, take_if_overflow.
  by rewrite Hdb.
Qed.

Lemma hist_saveTextureToIndexedDB_store l s m e :
  db s = Some m → heap s !! l = Some e →
  hist (saveTextureToIndexedDB l s)
  = (heap s ++ cursor_prev (store_put e m),
     take 10 (seq (length (heap s)) (length (cursor_prev (store_put e m)))),
     currentUploadEntry s, Some (store_put e m)).
Proof.
  intros Hdb He. unfold saveTextureToIndexedDB. rewrite Hdb, He.
  by rewrite (hist_loadUploadHistory_store _ (store_put e m)).
Qed.

(** ** Writing to the history *)

Lemma hist_put_new_memory e s :
  db s = None →
  hist (put (PutNew e) s)
  = (heap s ++ [e], take 10 (length (heap s) :: uploadHistory s),
     currentUploadEntry s, None).
Proof.
  intros Hdb. unfold put. by rewrite hist_saveTextureToIndexedDB_memory.
Qed.

Lemma hist_put_new_store e s m :
  db s = Some m →
  hist (put (PutNew e) s)
  = ((heap s ++ [e]) ++ cursor_prev (store_put e m),
     take 10 (seq (length (heap s ++ [e])) (length (cursor_prev (store_put e m)))),
     currentUploadEntry s, Some (store_put e m)).
Proof.
  intros Hdb. unfold put.
  rewrite (hist_saveTextureToIndexedDB_store _ _ m e); [done..|].
  apply list_lookup_middle. done.
Qed.

Lemma db_of_hist s h u c d : hist s = (h, u, c, d) → db s = d.
Proof. unfold hist. by intros [= _ _ _ <-]. Qed.

Lemma put_store p s m :
  db s = Some m →
  ∃ m', db (put p s) = Some m' ∧ (store_keyed m → store_keyed m').
Proof.
  intros Hdb. destruct p as [e|l].
  - exists (store_put e m). split; [|apply store_keyed_put].
    by eapply db_of_hist, hist_put_new_store.
  - unfold put. case_bool_decide as Hl; [|by exists m].
    destruct (lookup_lt_is_Some_2 (heap s) l Hl) as [e He].
    exists (store_put e m). split; [|apply store_keyed_put].
    by eapply db_of_hist, hist_saveTextureToIndexedDB_store.
Qed.

Lemma puts_store ps s m :
  db s = Some m →
  ∃ m', db (puts ps s) = Some m' ∧ (store_keyed m → store_keyed m').
Proof.
  revert s m. induction ps as [|p ps IH]; intros s m Hdb; [by exists m|].
  destruct (put_store p s m Hdb) as (m1 & Hdb1 & Hk1).
  destruct (IH (put p s) m1 Hdb1) as (m2 & Hdb2 & Hk2).
  exists m2. split; [done|]. auto.
Qed.

(** The in-memory list: what a [put] does to it. *)
Lemma put_memory p s :
  db s = None → hist_wf s → (length (uploadHistory s) ≤ 10)%nat →
  db (put p s) = None ∧ hist_wf (put p s)
  ∧ (length (uploadHistory (put p s)) ≤ 10)%nat.
Proof.
  intros Hdb Hwf Hlen. unfold hist_wf in *. destruct p as [e|l].
  - pose proof (hist_put_new_memory e s Hdb) as H.
    set (s' := put (PutNew e) s) in *. clearbody s'. unfold hist in H.
    injection H as Hh Hu _ Hd. rewrite Hh, Hu, Hd, length_app. cbn [length].
    split; [done|]. split; [|cbn; rewrite length_take; lia].
    constructor; [lia|]. apply Forall_take.
    eapply Forall_impl; [exact Hwf|]. cbn. lia.
  - unfold put. case_bool_decide as Hl; [|done].
    pose proof (hist_saveTextureToIndexedDB_memory l s Hdb) as H.
    set (s' := saveTextureToIndexedDB l s) in *. clearbody s'. unfold hist in H.
    injection H as Hh Hu _ Hd. rewrite Hh, Hu, Hd.
    split; [done|]. split; [|cbn; rewrite length_take; lia].
    constructor; [done|]. by apply Forall_take.
Qed.

Lemma puts_memory ps s :
  db s = None → hist_wf s → (length (uploadHistory s) ≤ 10)%nat →
  db (puts ps s) = None ∧ hist_wf (puts ps s)
  ∧ (length (uploadHistory (puts ps s)) ≤ 10)%nat.
Proof.
  revert s. induction ps as [|p ps IH]; intros s Hdb Hwf Hlen; [done|].
  destruct (put_memory p s Hdb Hwf Hlen) as (? & ? & ?). by apply IH.
Qed.

Lemma omap_cons_Some {A B} (f : A → option B) x y (l : list A) :
  f x = Some y → omap f (x :: l) = y :: omap f l.
Proof. intros H. cbn. by rewrite H. Qed.

(** Without a store a new entry goes to the front of what is shown, and
    the list is cut to ten. *)
Lemma getAll_put_new_memory e s :
  db s = None → hist_wf s →
  getAll (put (PutNew e) s) = take 10 (e :: getAll s).
Proof.
  intros Hdb Hwf.
  pose proof (hist_put_new_memory e s Hdb) as H.
  rewrite (getAll_memory s Hdb), getAll_memory by by eapply db_of_hist.
  rewrite (history_view_hist _ _ _ _ _ H).
  rewrite omap_take_total.
  - rewrite (omap_cons_Some _ _ e) by by apply list_lookup_middle.
    by rewrite omap_lookup_app_wf.
  - constructor; [by rewrite list_lookup_middle|].
    eapply Forall_impl; [exact Hwf|]. cbn. intros l Hl.
    apply lookup_lt_is_Some_2. rewrite length_app. lia.
Qed.

Lemma getAll_puts_new_memory es s :
  db s = None → hist_wf s → (length (uploadHistory s) ≤ 10)%nat →
  getAll (puts (PutNew <$> es) s) = take 10 (reverse es ++ getAll s).
Proof.
  revert s. induction es as [|e es IH]; intros s Hdb Hwf Hlen.
  - cbn. rewrite take_ge; [done|].
    rewrite getAll_memory by done. etrans; [apply length_omap_le|done].
  - cbn [fmap list_fmap puts fold_left].
    destruct (put_memory (PutNew e) s Hdb Hwf Hlen) as (Hdb1 & Hwf1 & Hlen1).
    fold (puts (PutNew <$> es) (put (PutNew e) s)).
    rewrite IH, getAll_put_new_memory by done.
    by rewrite take_app_take, reverse_cons, <- app_assoc.
Qed.

Lemma start_store rs : db (start (Some rs)) = Some (store_of rs).
Proof.
  unfold start, initIndexedDB_onsuccess.
  by eapply db_of_hist, (hist_loadUploadHistory_store _ (store_of rs)).
Qed.

Lemma StronglySorted_reverse {A} (R : relation A) (l : list A) :
  StronglySorted R l → StronglySorted (flip R) (reverse l).
Proof.
  induction 1 as [|x l Hl IH Hx]; [rewrite reverse_nil; constructor|].
  rewrite reverse_cons. apply StronglySorted_app_2; [|done|repeat constructor].
  intros y z Hy Hz%list_elem_of_singleton. subst z.
  rewrite elem_of_reverse in Hy.
  rewrite Forall_forall in Hx. unfold flip. by apply Hx.
Qed.

Lemma getAll_length s :
  (length (uploadHistory s) ≤ 10)%nat → (length (getAll s) ≤ 10)%nat.
Proof.
  intros Hlen. destruct (db s) as [m|] eqn:Hdb.
  - rewrite (getAll_store s m Hdb), length_take. lia.
  - rewrite getAll_memory by done. etrans; [apply length_omap_le|done].
Qed.

Lemma getAll_store_newest_first s m : db s = Some m → newest_first (getAll s).
Proof.
  intros Hdb. rewrite (getAll_store s m Hdb).
  apply StronglySorted_take, cursor_prev_newest_first.
Qed.

(** ** Capacity and order of the history *)

Lemma start_memory_hist :
  db (start None) = None ∧ hist_wf (start None)
  ∧ (length (uploadHistory (start None)) ≤ 10)%nat.
Proof. split; [done|]. split; [constructor|cbn; lia]. Qed.

Lemma getAll_puts_length records ps :
  (length (getAll (puts ps (start records))) ≤ 10)%nat.
Proof.
  destruct records as [rs|].
  - destruct (puts_store ps _ _ (start_store rs)) as (m & Hdb & _).
    rewrite (getAll_store _ m Hdb), length_take. lia.
  - destruct start_memory_hist as (Hdb & Hwf & Hlen).
    destruct (puts_memory ps _ Hdb Hwf Hlen) as (_ & _ & Hlen').
    by apply getAll_length.
Qed.

Lemma not_newest_first_cons_cons (x y : UploadEntry.t) l :
  UploadEntry.timestamp x < UploadEntry.timestamp y →
  ¬ newest_first (x :: y :: l).
Proof.
  intros Hlt Hs. apply StronglySorted_inv in Hs as [_ Hx].
  apply Forall_cons in Hx as [Hxy _]. lia.
Qed.

Lemma not_strictly_newest_first_tie (x y : UploadEntry.t) l :
  UploadEntry.timestamp x = UploadEntry.timestamp y →
  ¬ strictly_newest_first (x :: y :: l).
Proof.
  intros Heq Hs. apply StronglySorted_inv in Hs as [_ Hx].
  apply Forall_cons in Hx as [Hxy _]. lia.
Qed.

(** Without a store: upload A at time 1000 and B at time 2000, select A in
    the history and save the view.  The list then reads A, B, A: it is not
    in [createdAt] order.  With a store: two uploads stamped with the same
    millisecond come out one after the other, so the order is not strict. *)
Lemma getAll_order_counterexample :
  (let fileA := File.mk "a.png" "image/png" 1000 in
   let fileB := File.mk "b.png" "image/png" 1000 in
   let s := run (upload fileA "data:A" (mkEnv 1001 "thumb:A" 1000)
                 ++ upload fileB "data:B" (mkEnv 2001 "thumb:B" 2000)
                 ++ [ClickHistory 0; ImgLoaded 0 (mkEnv 0 "" 0); ClickSave])
                ready in
   UploadEntry.timestamp <$> getAll s = [1000; 2000; 1000]
   ∧ ¬ newest_first (getAll s))
  ∧ (let file := File.mk "a.png" "image/png" 1000 in
     let s := run (DbOpened []
                   :: upload file "data:A" (mkEnv 1001 "thumb:A" 1000)
                   ++ upload file "data:B" (mkEnv 1002 "thumb:B" 1000))
                  ready in
     UploadEntry.timestamp <$> getAll s = [1000; 1000]
     ∧ ¬ strictly_newest_first (getAll s)).
Proof.
  split; cbv zeta.
  - match goal with |- context [getAll ?s] =>
      let v := eval vm_compute in (getAll s) in
      assert (getAll s = v) as -> by (vm_compute; reflexivity) end.
    split; [reflexivity|]. apply not_newest_first_cons_cons. cbn. lia.
  - match goal with |- context [getAll ?s] =>
      let v := eval vm_compute in (getAll s) in
      assert (getAll s = v) as -> by (vm_compute; reflexivity) end.
    split; [reflexivity|]. by apply not_strictly_newest_first_tie.
Qed.

(** C3. After any sequence of puts, with or without a store, [getAll]
    returns at most ten entries.  With a store they come most recent
    [createdAt] first, entries of equal [createdAt] next to one another.
    Without a store, puts of new entries leave the ten latest puts, latest
    first, which is [createdAt] order when the entries are put oldest first,
    as uploads are. *)
Theorem getAll_bounded_and_ordered
    (records : list UploadEntry.t) (ps : list Put) (es : list UploadEntry.t) :
  (length (getAll (puts ps (start None))) ≤ 10)%nat
  ∧ (length (getAll (puts ps (start (Some records)))) ≤ 10)%nat
  ∧ newest_first (getAll (puts ps (start (Some records))))
  ∧ getAll (puts (PutNew <$> es) (start None)) = take 10 (reverse es)
  ∧ (oldest_first es → newest_first (getAll (puts (PutNew <$> es) (start None)))).
Proof.
  split; [apply getAll_puts_length|]. split; [apply getAll_puts_length|].
  split.
  { destruct (puts_store ps _ _ (start_store records)) as (m & Hdb & _).
    by apply (getAll_store_newest_first _ m). }
  destruct start_memory_hist as (Hdb & Hwf & Hlen).
  assert (getAll (puts (PutNew <$> es) (start None)) = take 10 (reverse es))
    as Hview.
  { rewrite getAll_puts_new_memory by done.
    rewrite (getAll_memory (start None)) by done. cbn [start].
    change (history_view ready) with (@nil UploadEntry.t).
    by rewrite app_nil_r. }
  split; [done|]. intros Hes. rewrite Hview.
  apply StronglySorted_take. by apply StronglySorted_reverse in Hes.
Qed.

Lemma getAll_bounded_and_ordered_witness :
  let es := [sample_entry 1; sample_entry 2; sample_entry 2; sample_entry 5] in
  getAll (puts (PutNew <$> es) (start None))
    = [sample_entry 5; sample_entry 2; sample_entry 2; sample_entry 1]
  ∧ newest_first (getAll (puts (PutNew <$> es) (start None))).
Proof.
  intros es.
  destruct (getAll_bounded_and_ordered [] [] es) as (_ & _ & _ & Hview & Hord).
  split; [exact Hview|]. apply Hord.
  unfold oldest_first, es. repeat constructor; cbn; lia.
Defined.

(** ** Eviction *)

Lemma last_is_oldest (l : list UploadEntry.t) d x :
  newest_first l → last l = Some d → x ∈ l →
  UploadEntry.timestamp d ≤ UploadEntry.timestamp x.
Proof.
  intros Hs [l' ->]%last_Some [Hx|Hx]%elem_of_app.
  - by apply (StronglySorted_app_1_elem_of _ _ _ _ _ Hs);
      [|apply list_elem_of_singleton].
  - apply list_elem_of_singleton in Hx as ->. lia.
Qed.

(** With a store, eleven uploads at times 1 to 11: the view holds the ten
    latest, and the record of the first upload, gone from the view, is
    still in the store, which holds eleven records. *)
Lemma eviction_keeps_record_in_store :
  let s := run (DbOpened [] :: concat (sample_upload <$> seqZ 1 11)) ready in
  UploadEntry.timestamp <$> getAll s = [11; 10; 9; 8; 7; 6; 5; 4; 3; 2]
  ∧ (sample_entry 1 ∉ getAll s)
  ∧ (db s ≫= λ m, m !! 1001) = Some (sample_entry 1)
  ∧ size <$> db s = Some 11%nat.
Proof.
  cbv zeta.
  match goal with |- context [getAll ?s] =>
    let v := eval vm_compute in (getAll s) in
    assert (getAll s = v) as -> by (vm_compute; reflexivity) end.
  split; [reflexivity|]. split; [|split; vm_compute; reflexivity].
  intros Hin. apply list_elem_of_In in Hin. cbn in Hin.
  unfold sample_entry in Hin. intuition discriminate.
Qed.

(** C4. A history showing ten entries receives a new entry, whose [id] is
    not in the store and which is more recent than every stored record.
    The new entry comes first and the last entry shown leaves the view; the
    entry that leaves has the oldest [createdAt] of the view whenever the
    view is in [createdAt] order, which it always is with a store.  With a
    store, the write adds the record and removes none: every entry shown
    before, the one that left the view included, is still stored. *)
Theorem eleventh_entry_leaves_view_only
    (records : option (list UploadEntry.t)) (ps : list Put)
    (e : UploadEntry.t) :
  let s := puts ps (start records) in
  let s' := put (PutNew e) s in
  let m := default ∅ (db s) in
  length (getAll s) = 10%nat →
  m !! UploadEntry.id e = None →
  map_Forall (λ _ r, UploadEntry.timestamp r < UploadEntry.timestamp e) m →
  getAll s' = e :: take 9 (getAll s)
  ∧ (is_Some (db s) ∨ newest_first (getAll s) →
     ∀ d x, last (getAll s) = Some d → x ∈ getAll s →
            UploadEntry.timestamp d ≤ UploadEntry.timestamp x)
  ∧ (is_Some (db s) →
     db s' = Some (<[UploadEntry.id e := e]> m)
     ∧ ∀ d, d ∈ getAll s → ∃ k, <[UploadEntry.id e := e]> m !! k = Some d).
Proof.
  intros s s' m Hlen Hfresh Hnew.
  destruct records as [rs|].
  - destruct (puts_store ps _ _ (start_store rs)) as (m0 & Hdb & _).
    fold s in Hdb. unfold m in *. rewrite Hdb in *.
    change (default ∅ (Some m0)) with m0 in *.
    pose proof (hist_put_new_store e s m0 Hdb) as Hh. fold s' in Hh.
    apply db_of_hist in Hh.
    split; [|split].
    + rewrite (getAll_store s' _ Hh), (getAll_store s m0 Hdb).
      unfold store_put. rewrite cursor_prev_insert_newest by done.
      cbn [take]. by rewrite take_take.
    + intros _ d x. apply last_is_oldest.
      by apply (getAll_store_newest_first s m0).
    + intros _. split; [done|]. intros d Hd.
      rewrite (getAll_store s m0 Hdb) in Hd.
      apply subseteq_take, elem_of_cursor_prev in Hd as [k Hk].
      exists k. rewrite lookup_insert_ne; [done|]. intros <-. congruence.
  - destruct start_memory_hist as (Hdb0 & Hwf0 & Hlen0).
    destruct (puts_memory ps _ Hdb0 Hwf0 Hlen0) as (Hdb & Hwf & _).
    fold s in Hdb, Hwf. split; [|split].
    + unfold s'. rewrite getAll_put_new_memory by done.
      cbn [take]. done.
    + intros [[m' Hm']|Hs]; [congruence|].
      intros d x. by apply last_is_oldest.
    + intros [m' Hm']. congruence.
Qed.

Lemma eleventh_entry_leaves_view_only_witness :
  let s := puts (PutNew <$> (sample_entry <$> seqZ 1 10)) (start (Some [])) in
  let s' := put (PutNew (sample_entry 11)) s in
  getAll s' = sample_entry 11 :: take 9 (getAll s)
  ∧ last (getAll s) = Some (sample_entry 1)
  ∧ (∀ x, x ∈ getAll s → 1 ≤ UploadEntry.timestamp x)
  ∧ ∃ k, <[1011 := sample_entry 11]> (default ∅ (db s)) !! k
         = Some (sample_entry 1).
Proof.
  cbv zeta.
  destruct (eleventh_entry_leaves_view_only (Some [])
              (PutNew <$> (sample_entry <$> seqZ 1 10)) (sample_entry 11))
    as (Hnew & Hold & Hstore).
  - vm_compute. reflexivity.
  - vm_compute. reflexivity.
  - apply map_Forall_to_list. vm_compute. repeat constructor.
  - set (s := puts (PutNew <$> (sample_entry <$> seqZ 1 10)) (start (Some [])))
      in *.
    assert (getAll s = sample_entry <$> [10; 9; 8; 7; 6; 5; 4; 3; 2; 1])
      as Hview by (vm_compute; reflexivity).
    assert (is_Some (db s)) as Hsome.
    { let v := eval vm_compute in (db s) in
      assert (db s = v) as -> by (vm_compute; reflexivity).
      by eexists. }
    split; [exact Hnew|]. split; [by rewrite Hview|]. split.
    + intros x Hx.
      apply (Hold (or_introl Hsome) (sample_entry 1) x);
        [by rewrite Hview|exact Hx].
    + apply (proj2 (Hstore Hsome)).
      rewrite Hview. apply list_elem_of_In. cbn. tauto.
Defined.

(** ** Putting an entry again *)

(** With a store, whatever was put, no two entries of [getAll] share an
    [id]: [store.put] replaces the record of the same key. *)
Lemma getAll_store_NoDup_id (records : list UploadEntry.t) (ps : list Put) :
  NoDup (UploadEntry.id <$> getAll (puts ps (start (Some records)))).
Proof.
  destruct (puts_store ps _ _ (start_store records)) as (m & Hdb & Hk).
  rewrite (getAll_store _ m Hdb), fmap_take.
  eapply sublist_NoDup; [|apply sublist_take].
  apply cursor_prev_NoDup_id, Hk, store_keyed_store_of.
Qed.

(** C5. Without a store, an upload followed by "save current view" puts
    the entry of the upload a second time: the history then lists the same
    entry object twice, so the same [id] occurs twice.  With a store the
    same events leave one entry, carrying the saved settings. *)
Theorem put_again_duplicates_in_memory_mode :
  let file := File.mk "earth.jpg" "image/jpeg" 2000000 in
  let evs := upload file "data:earth" (mkEnv 1001 "data:thumb" 1000)
             ++ [ClickSave] in
  let s := run evs ready in
  let s_db := run (DbOpened [] :: evs) ready in
  uploadHistory s = [0; 0]%nat
  ∧ UploadEntry.id <$> getAll s = [1001; 1001]
  ∧ ¬ NoDup (UploadEntry.id <$> getAll s)
  ∧ UploadEntry.id <$> getAll s_db = [1001]
  ∧ UploadEntry.savedSettings <$> getAll s_db = [Some (capture_settings ready)].
Proof.
  cbv zeta.
  match goal with |- context [NoDup (UploadEntry.id <$> getAll ?s)] =>
    assert (UploadEntry.id <$> getAll s = [1001; 1001]) as ->
      by (vm_compute; reflexivity) end.
  split; [vm_compute; reflexivity|]. split; [reflexivity|].
  split; [|split; vm_compute; reflexivity].
  intros Hnd. apply NoDup_cons in Hnd as [Hnotin _].
  apply Hnotin. by apply list_elem_of_singleton.
Qed.

(** ** Saving the view while a preset is displayed *)

Lemma hist_loadTextureFromUrl url s : hist (loadTextureFromUrl url s) = hist s.
Proof. reflexivity. Qed.

Lemma inflight_loadTextureFromUrl url s :
  inflight (loadTextureFromUrl url s) = inflight s ++ [DecodingUrl url].
Proof. reflexivity. Qed.

Lemma hist_loadTextureFromUrl_onload url s :
  hist (loadTextureFromUrl_onload url s) = hist s.
Proof.
  unfold loadTextureFromUrl_onload, dispose_current. cbv zeta.
  destruct (currentTexture s); rotation_cases; reflexivity.
Qed.

(** C10. A preset is loaded from its URL while an uploaded entry is the
    current one.  The preset becomes the image shown, the current entry
    stays the same, and a "save current view" made then writes the
    captured settings into that entry, which it puts again: without a store
    at the front of the list, with a store under the entry's [id]. *)
Theorem preset_load_keeps_current_upload_entry
    (s : State) (url : string) (env : Env) (l : loc) (e : UploadEntry.t) :
  currentUploadEntry s = Some l → heap s !! l = Some e →
  let s1 := run [ClickPreset url; ImgLoaded (length (inflight s)) env] s in
  let s2 := step ClickSave s1 in
  let e' := UploadEntry.set_savedSettings (Some (capture_settings s1)) e in
  bound_image s1 = Some url
  ∧ hist s1 = hist s
  ∧ currentUploadEntry s2 = Some l
  ∧ heap s2 !! l = Some e'
  ∧ UploadEntry.originalDataUrl e' = UploadEntry.originalDataUrl e
  ∧ match db s with
    | None => uploadHistory s2 = take 10 (l :: uploadHistory s)
    | Some m => db s2 = Some (<[UploadEntry.id e := e']> m)
    end.
Proof.
  intros Hcur He s1 s2 e'.
  assert (inflight (loadTextureFromUrl url s) !! length (inflight s)
          = Some (DecodingUrl url)) as Hi.
  { rewrite inflight_loadTextureFromUrl. by apply list_lookup_middle. }
  assert (s1 = loadTextureFromUrl_onload url
                 (finish (length (inflight s)) (loadTextureFromUrl url s)))
    as Hs1.
  { unfold s1, run. cbn [fold_left].
    change (step (ClickPreset url) s) with (loadTextureFromUrl url s).
    unfold step. by rewrite Hi. }
  assert (hist s1 = hist s) as Hh1.
  { by rewrite Hs1, hist_loadTextureFromUrl_onload, hist_finish,
      hist_loadTextureFromUrl. }
  assert (bound_image s1 = Some url) as Hb1.
  { apply (decode_completion_binds (loadTextureFromUrl url s)
             (length (inflight s)) env (DecodingUrl url) url Hi eq_refl). }
  pose proof Hh1 as Hh1'. unfold hist in Hh1'.
  injection Hh1' as Hheap Hup Hcur1 Hdb1.
  split; [done|]. split; [done|].
  clearbody s1. clear Hs1 Hi.
  assert (s2 = saveTextureToIndexedDB l
                 (set_heap (alter (UploadEntry.set_savedSettings
                                     (Some (capture_settings s1))) l (heap s1)) s1))
    as Hs2.
  { unfold s2, step, saveCurrentSettings. by rewrite Hcur1, Hcur. }
  set (s1' := set_heap _ s1) in Hs2.
  assert (heap s1' !! l = Some e') as He'.
  { unfold s1'. cbn [heap set_heap]. by rewrite list_lookup_alter_eq, Hheap, He. }
  clearbody s2. subst s2.
  destruct (db s) as [m|] eqn:Hdb.
  - assert (db s1' = Some m) as Hdb1' by (by rewrite <- Hdb1).
    pose proof (hist_saveTextureToIndexedDB_store l s1' m e' Hdb1' He') as H.
    set (s2 := saveTextureToIndexedDB l s1') in *. clearbody s2.
    unfold hist in H. injection H as Hh2 Hu2 Hc2 Hd2.
    rewrite Hh2, Hc2, Hd2.
    split; [by rewrite <- Hcur|]. split; [|done].
    rewrite lookup_app_l; [done|]. by apply lookup_lt_is_Some_1.
  - assert (db s1' = None) as Hdb1' by (by rewrite <- Hdb1).
    pose proof (hist_saveTextureToIndexedDB_memory l s1' Hdb1') as H.
    set (s2 := saveTextureToIndexedDB l s1') in *. clearbody s2.
    unfold hist in H. injection H as Hh2 Hu2 Hc2 Hd2.
    rewrite Hh2, Hc2.
    split; [by rewrite <- Hcur|]. split; [done|]. split; [done|].
    rewrite Hu2. cbn [take]. f_equal. by rewrite <- Hup.
Qed.

Lemma preset_load_keeps_current_upload_entry_witness :
  let s := run (upload (File.mk "earth.jpg" "image/jpeg" 2000000) "data:earth"
                       (mkEnv 1001 "data:thumb" 1000)) ready in
  let s1 := run [ClickPreset "assets/moon.jpg"; ImgLoaded 0 (mkEnv 0 "" 0)] s in
  let s2 := step ClickSave s1 in
  bound_image s1 = Some "assets/moon.jpg"
  ∧ currentUploadEntry s2 = Some 0%nat
  ∧ (UploadEntry.originalDataUrl <$> heap s2 !! 0%nat) = Some "data:earth"
  ∧ (heap s2 !! 0%nat ≫= UploadEntry.savedSettings) = Some (capture_settings s1).
Proof.
  cbv zeta.
  destruct (preset_load_keeps_current_upload_entry
              (run (upload (File.mk "earth.jpg" "image/jpeg" 2000000)
                           "data:earth" (mkEnv 1001 "data:thumb" 1000)) ready)
              "assets/moon.jpg" (mkEnv 0 "" 0) 0
              (UploadEntry.mk 1001 "earth" "data:thumb" "data:earth" 1000 None))
    as (Hb & _ & Hc & Hh & _).
  - vm_compute. reflexivity.
  - vm_compute. reflexivity.
  - split; [exact Hb|]. split; [exact Hc|].
    split; [exact (f_equal (fmap UploadEntry.originalDataUrl) Hh)|].
    exact (f_equal (λ o, o ≫= UploadEntry.savedSettings) Hh).
Defined.

(** ** Clearing the history *)

Lemma cursor_prev_empty : cursor_prev ∅ = [].
Proof. unfold cursor_prev. by rewrite map_to_list_empty. Qed.

Lemma cursor_prev_singleton k e : cursor_prev (<[k:=e]> ∅) = [e].
Proof.
  rewrite cursor_prev_insert_newest, cursor_prev_empty; [done|done|].
  intros k' r Hr. by rewrite lookup_empty in Hr.
Qed.

Lemma hist_clearUploadHistory s :
  hist (clearUploadHistory s)
  = (heap s, [], currentUploadEntry s, (λ _, ∅) <$> db s).
Proof.
  unfold clearUploadHistory. cbv zeta.
  change (db (updateUploadHistoryUI (set_uploadHistory [] s))) with (db s).
  destruct (db s) eqn:E.
  - by rewrite hist_set_db.
  - by rewrite hist_updateUploadHistoryUI, hist_set_uploadHistory, E.
Qed.

Lemma lighting_camera_clearUploadHistory s :
  capture_settings (clearUploadHistory s) = capture_settings s.
Proof.
  unfold clearUploadHistory. cbv zeta.
  change (db (updateUploadHistoryUI (set_uploadHistory [] s))) with (db s).
  destruct (db s); reflexivity.
Qed.

(** X1. Clearing the history empties what [getAll] returns, with or
    without a store, and empties the store; the texture on the globe and
    the reference to the current entry are left as they are. *)
Theorem clearUploadHistory_empties_history (s : State) :
  let s' := clearUploadHistory s in
  getAll s' = []
  ∧ db s' = (λ _, ∅) <$> db s
  ∧ currentUploadEntry s' = currentUploadEntry s
  ∧ gfx s' = gfx s.
Proof.
  intros s'. pose proof (hist_clearUploadHistory s) as Hh. fold s' in Hh.
  assert (gfx s' = gfx s) as Hg by apply gfx_clearUploadHistory.
  clearbody s'. pose proof Hh as Hh'. unfold hist in Hh'.
  injection Hh' as Hheap Hup Hcur Hdb.
  split; [|done].
  destruct (db s) as [m|] eqn:E; cbn in Hdb.
  - rewrite (getAll_store s' ∅ Hdb), cursor_prev_empty. done.
  - rewrite (getAll_memory s' Hdb), (history_view_hist _ _ _ _ _ Hh). done.
Qed.

(** X2. The current entry survives a clear: "save current view" made after
    the history was cleared puts that entry back, with the captured
    settings, as the only entry of the history. *)
Theorem save_after_clear_puts_entry_back
    (s : State) (l : loc) (e : UploadEntry.t) :
  currentUploadEntry s = Some l → heap s !! l = Some e →
  getAll (saveCurrentSettings (clearUploadHistory s))
  = [UploadEntry.set_savedSettings (Some (capture_settings s)) e].
Proof.
  intros Hcur He.
  pose proof (hist_clearUploadHistory s) as Hh.
  pose proof (lighting_camera_clearUploadHistory s) as Hcap.
  set (s0 := clearUploadHistory s) in *. clearbody s0.
  pose proof Hh as Hh'. unfold hist in Hh'.
  injection Hh' as Hheap Hup Hcur0 Hdb.
  unfold saveCurrentSettings. rewrite Hcur0, Hcur, Hcap, Hheap.
  set (e' := UploadEntry.set_savedSettings (Some (capture_settings s)) e).
  set (s1 := set_heap _ s0).
  assert (heap s1 !! l = Some e') as He'.
  { unfold s1. cbn [heap set_heap]. by rewrite list_lookup_alter_eq, He. }
  assert (uploadHistory s1 = []) as Hup1 by exact Hup.
  assert (db s1 = (λ _, ∅) <$> db s) as Hdb1 by exact Hdb.
  clearbody s1.
  destruct (db s) as [m|]; cbn in Hdb1.
  - pose proof (hist_saveTextureToIndexedDB_store l s1 ∅ e' Hdb1 He') as H.
    rewrite (getAll_store _ _ (db_of_hist _ _ _ _ _ H)).
    unfold store_put. by rewrite cursor_prev_singleton.
  - pose proof (hist_saveTextureToIndexedDB_memory l s1 Hdb1) as H.
    rewrite (getAll_memory _ (db_of_hist _ _ _ _ _ H)).
    rewrite (history_view_hist _ _ _ _ _ H), Hup1. cbn. by rewrite He'.
Qed.

Lemma save_after_clear_puts_entry_back_witness :
  let s := run (upload (File.mk "earth.jpg" "image/jpeg" 2000000) "data:earth"
                       (mkEnv 1001 "data:thumb" 1000)) ready in
  getAll (saveCurrentSettings (clearUploadHistory s))
  = [UploadEntry.mk 1001 "earth" "data:thumb" "data:earth" 1000
       (Some (capture_settings s))].
Proof.
  apply (save_after_clear_puts_entry_back
           (run (upload (File.mk "earth.jpg" "image/jpeg" 2000000) "data:earth"
                        (mkEnv 1001 "data:thumb" 1000)) ready)
           0 (UploadEntry.mk 1001 "earth" "data:thumb" "data:earth" 1000 None));
    vm_compute; reflexivity.
Defined.

(** ** Controls and lights follow the viewer's fields *)

Lemma view_emit e s : view (emit e s) = view s.
Proof. reflexivity. Qed.

Lemma view_spawn t s : view (spawn t s) = view s.
Proof. reflexivity. Qed.

Lemma view_finish i s : view (finish i s) = view s.
Proof. reflexivity. Qed.

Lemma view_showError m s : view (showError m s) = view s.
Proof. reflexivity. Qed.

Lemma view_showLoading text s : view (showLoading text s) = view s.
Proof. reflexivity. Qed.

Lemma view_hideLoading s : view (hideLoading s) = view s.
Proof. reflexivity. Qed.

Lemma view_updateUploadHistoryUI s : view (updateUploadHistoryUI s) = view s.
Proof. reflexivity. Qed.

Lemma view_set_heap v s : view (set_heap v s) = view s.
Proof. reflexivity. Qed.

Lemma view_set_currentUploadEntry v s : view (set_currentUploadEntry v s) = view s.
Proof. reflexivity. Qed.

Lemma view_set_uploadHistory v s : view (set_uploadHistory v s) = view s.
Proof. reflexivity. Qed.

Lemma view_set_db v s : view (set_db v s) = view s.
Proof. reflexivity. Qed.

Lemma view_set_lightRotation v s : view (set_lightRotation v s) = view s.
Proof. reflexivity. Qed.

Lemma view_set_camera_position v s : view (set_camera_position v s) = view s.
Proof. reflexivity. Qed.

Lemma view_set_controls_target v s : view (set_controls_target v s) = view s.
Proof. reflexivity. Qed.

Lemma view_swap_texture src s : view (swap_texture src s) = view s.
Proof. unfold swap_texture, dispose_current; by destruct (currentTexture s). Qed.

Lemma view_loadUploadHistory s : view (loadUploadHistory s) = view s.
Proof. unfold loadUploadHistory; by destruct (db s). Qed.

Lemma view_saveTextureToIndexedDB l s : view (saveTextureToIndexedDB l s) = view s.
Proof. unfold saveTextureToIndexedDB;
  destruct (db s); [destruct (heap s !! l)|]; reflexivity. Qed.

Lemma view_addToUploadHistory file src env s : view (addToUploadHistory file src env s) = view s.
Proof. unfold addToUploadHistory; by rewrite view_saveTextureToIndexedDB. Qed.

Lemma view_saveCurrentSettings s : view (saveCurrentSettings s) = view s.
Proof. unfold saveCurrentSettings; destruct (currentUploadEntry s); [|reflexivity];
  by rewrite view_saveTextureToIndexedDB. Qed.

Lemma view_clearUploadHistory s : view (clearUploadHistory s) = view s.
Proof. unfold clearUploadHistory; cbv zeta;
  change (db (updateUploadHistoryUI (set_uploadHistory [] s))) with (db s);
  by destruct (db s). Qed.

Lemma view_loadTexture file s : view (loadTexture file s) = view s.
Proof. unfold loadTexture; destruct (negb _); [reflexivity|];
  by destruct (maxSize <? _). Qed.

Lemma view_loadTextureFromUrl url s : view (loadTextureFromUrl url s) = view s.
Proof. reflexivity. Qed.

Lemma view_history_item_click l s : view (history_item_click l s) = view s.
Proof. unfold history_item_click; by destruct (heap s !! l). Qed.

Lemma view_createFallbackTexture s : view (createFallbackTexture s) = view s.
Proof. reflexivity. Qed.

Lemma view_in_sync_frame s s' : view s' = view s → view_in_sync s → view_in_sync s'.
Proof.
  unfold view, view_in_sync. intros [= Ha Hc Hab Hdb Hai Hdi].
  by rewrite Ha, Hc, Hab, Hdb, Hai, Hdi.
Qed.

Lemma view_in_sync_toggleAutoRotate s :
  view_in_sync s → view_in_sync (toggleAutoRotate s).
Proof. intros (_ & Ha & Hd). by split. Qed.

(** [updateLighting] brings the lights in line whatever they were. *)
Lemma view_in_sync_updateLighting s :
  controls_autoRotate s = autoRotate s → view_in_sync (updateLighting s).
Proof. intros Hr. by split. Qed.

Lemma view_in_sync_restoreSavedSettings update ss s :
  view_in_sync s → view_in_sync (restoreSavedSettings update ss s).
Proof. intros (Hr & Ha & Hd). by destruct ss as [[[[]|] [[]|]]|]. Qed.

Lemma view_in_sync_rotation_test (b : bool) s :
  view_in_sync s → view_in_sync (if b then toggleAutoRotate s else s).
Proof. destruct b; [apply view_in_sync_toggleAutoRotate|done]. Qed.

Lemma view_in_sync_loadTexture_img_onload file src env s :
  view_in_sync s → view_in_sync (loadTexture_img_onload file src env s).
Proof.
  intros Hs. unfold loadTexture_img_onload. cbv zeta.
  apply (view_in_sync_frame _ _ (view_hideLoading _)).
  apply view_in_sync_rotation_test.
  apply (view_in_sync_frame _ _ (view_addToUploadHistory _ _ _ _)).
  apply view_in_sync_updateLighting.
  by apply (view_in_sync_frame _ _ (view_swap_texture src s)).
Qed.

Lemma view_loadTextureFromUrl_bound url s :
  view (bind_texture (fresh_texture (dispose_current s))
          (emit DisposeMaterial (new_texture url (dispose_current s))))
  = view s.
Proof. unfold dispose_current. by destruct (currentTexture s). Qed.

Lemma view_in_sync_loadTextureFromUrl_onload url s :
  view_in_sync s → view_in_sync (loadTextureFromUrl_onload url s).
Proof.
  intros Hs. unfold loadTextureFromUrl_onload. cbv zeta.
  apply (view_in_sync_frame _ _ (view_hideLoading _)).
  apply view_in_sync_rotation_test.
  by apply (view_in_sync_frame _ _ (view_loadTextureFromUrl_bound url s)).
Qed.

Lemma view_in_sync_loadTextureFromDataUrl_onload update dataUrl ss ue s :
  view_in_sync s →
  view_in_sync (loadTextureFromDataUrl_onload update dataUrl ss ue s).
Proof.
  intros Hs. unfold loadTextureFromDataUrl_onload. cbv zeta.
  apply (view_in_sync_frame _ _ (view_hideLoading _)).
  apply view_in_sync_rotation_test.
  apply view_in_sync_restoreSavedSettings.
  apply (view_in_sync_frame _ _ (view_set_currentUploadEntry _ _)).
  by apply (view_in_sync_frame _ _ (view_swap_texture _ _)).
Qed.

Lemma step_view_in_sync ev s : view_in_sync s → view_in_sync (step ev s).
Proof.
  intros Hs.
  destruct ev as [file|url|l| | | | |v|v|v|p q|records|i r|i|i env|i];
    unfold step.
  - by apply (view_in_sync_frame _ _ (view_loadTexture _ _)).
  - by apply (view_in_sync_frame _ _ (view_loadTextureFromUrl _ _)).
  - case_bool_decide; [|done].
    by apply (view_in_sync_frame _ _ (view_history_item_click _ _)).
  - by apply (view_in_sync_frame _ _ (view_saveCurrentSettings _)).
  - by apply (view_in_sync_frame _ _ (view_clearUploadHistory _)).
  - by apply view_in_sync_toggleAutoRotate.
  - unfold controls_start. by apply (view_in_sync_rotation_test (autoRotate s)).
  - apply view_in_sync_updateLighting. apply Hs.
  - apply view_in_sync_updateLighting. apply Hs.
  - by apply (view_in_sync_frame _ _ (view_set_lightRotation _ _)).
  - done.
  - unfold initIndexedDB_onsuccess.
    apply (view_in_sync_frame _ _ (view_loadUploadHistory _)).
    by apply (view_in_sync_frame _ _ (view_set_db _ _)).
  - by destruct (inflight s !! i) as [[]|].
  - by destruct (inflight s !! i) as [[]|].
  - destruct (inflight s !! i) as [[]|]; [done| | | |done].
    + by apply view_in_sync_loadTexture_img_onload.
    + by apply view_in_sync_loadTextureFromUrl_onload.
    + by apply view_in_sync_loadTextureFromDataUrl_onload.
  - by destruct (inflight s !! i) as [[]|].
Qed.

Lemma run_view_in_sync evs s : view_in_sync s → view_in_sync (run evs s).
Proof.
  revert s. induction evs as [|ev evs IH]; intros s Hs; [done|].
  apply IH. by apply step_view_in_sync.
Qed.

(** X3. Whatever the user does, the orbit controls rotate exactly when the
    viewer's [autoRotate] flag is set, and the two lights shine with the
    intensities of the two brightness fields: no load, save, restore or
    slider leaves them behind.  This holds from the constructor on, whether
    the default texture loads or falls back. *)
Theorem controls_and_lights_stay_in_sync (evs : list Event) (skipLoading : bool) :
  view_in_sync (run evs ready)
  ∧ view_in_sync (run evs (loadDefaultTexture_onload skipLoading constructed))
  ∧ view_in_sync (run evs (loadDefaultTexture_onerror skipLoading constructed)).
Proof.
  split; [|split]; apply run_view_in_sync; [done| |];
    destruct skipLoading; done.
Qed.

(** ** The end of a successful load *)

Lemma loadingVisible_rotation_test (b : bool) s :
  loadingVisible (hideLoading (if b then toggleAutoRotate s else s)) = false.
Proof. by destruct b. Qed.

Lemma step_ImgLoaded_loadingVisible s i env t src :
  inflight s !! i = Some t → task_src t = Some src →
  loadingVisible (step (ImgLoaded i env) s) = false.
Proof.
  intros Hi Hsrc. unfold step. rewrite Hi. destruct t; cbn in Hsrc; [done|..];
    apply loadingVisible_rotation_test.
Qed.

(** X4. The loading overlay is hidden by the first load that completes,
    also while other loads are still in flight: after a successful decode
    the overlay is hidden and the other loads are still pending. *)
Theorem first_completion_hides_loading
    (s : State) (i : nat) (t : Task) (src : string) (env : Env) :
  inflight s !! i = Some t → task_src t = Some src →
  let s' := step (ImgLoaded i env) s in
  loadingVisible s' = false
  ∧ inflight s' = delete i (inflight s)
  ∧ (2 ≤ length (inflight s) → inflight s' ≠ [])%nat.
Proof.
  intros Hi Hsrc s'.
  split; [by apply (step_ImgLoaded_loadingVisible s i env t src)|].
  assert (inflight s' = delete i (inflight s)) as Hd
    by by apply (step_ImgLoaded_inflight s i env t src).
  split; [done|]. intros Hlen Hnil.
  apply (f_equal length) in Hnil. rewrite Hd, length_delete in Hnil by eauto.
  cbn in Hnil. lia.
Qed.

Lemma first_completion_hides_loading_witness :
  let fileA := File.mk "a.png" "image/png" 4000000 in
  let fileB := File.mk "b.png" "image/png" 1000 in
  let s := run [Drop fileA; Drop fileB;
                ReaderLoaded 0 "data:A"; ReaderLoaded 0 "data:B"] ready in
  let s' := step (ImgLoaded 1 (mkEnv 2001 "thumb:B" 2000)) s in
  loadingVisible s = true
  ∧ loadingVisible s' = false
  ∧ inflight s' = [DecodingFile fileA "data:A"].
Proof.
  intros fileA fileB. cbv zeta.
  destruct (first_completion_hides_loading
              (run [Drop fileA; Drop fileB;
                    ReaderLoaded 0 "data:A"; ReaderLoaded 0 "data:B"] ready)
              1 (DecodingFile fileB "data:B") "data:B"
              (mkEnv 2001 "thumb:B" 2000)) as (Hv & Hi & _);
    [reflexivity|reflexivity|].
  split; [reflexivity|]. split; [exact Hv|exact Hi].
Defined.

(** ** Rotation: stopped by the user, restarted by a load *)

Lemma step_ImgLoaded_autoRotate s i env t :
  inflight s !! i = Some t → restarts_rotation t = true →
  autoRotate (step (ImgLoaded i env) s) = true.
Proof.
  intros Hi Hk. unfold step. rewrite Hi. destruct t; cbn in Hk; try done.
  - apply loadTexture_img_onload_autoRotate.
  - apply loadTextureFromUrl_onload_autoRotate.
Qed.

(** X5. Orbiting the globe stops the auto-rotation, and the next upload or
    preset load that completes starts it again, on the viewer and on the
    controls. *)
Theorem orbit_stops_rotation_load_restarts_it
    (evs : list Event) (i : nat) (t : Task) (env : Env) :
  let s := step ControlsStart (run evs ready) in
  autoRotate s = false
  ∧ controls_autoRotate s = false
  ∧ (inflight s !! i = Some t → restarts_rotation t = true →
     autoRotate (step (ImgLoaded i env) s) = true
     ∧ controls_autoRotate (step (ImgLoaded i env) s) = true).
Proof.
  intros s.
  assert (view_in_sync s) as Hs
    by (apply step_view_in_sync, run_view_in_sync; done).
  assert (autoRotate s = false) as Ha.
  { unfold s, step, controls_start.
    destruct (autoRotate (run evs ready)) eqn:E; [|exact E].
    by rewrite autoRotate_toggleAutoRotate, E. }
  split; [done|]. split; [by rewrite (proj1 Hs)|].
  intros Hi Hk.
  assert (autoRotate (step (ImgLoaded i env) s) = true) as Ha'
    by by apply (step_ImgLoaded_autoRotate s i env t).
  split; [done|].
  by rewrite (proj1 (step_view_in_sync (ImgLoaded i env) s Hs)).
Qed.

Lemma orbit_stops_rotation_load_restarts_it_witness :
  let s := step ControlsStart (run [ClickPreset "assets/moon.jpg"] ready) in
  autoRotate s = false
  ∧ autoRotate (step (ImgLoaded 0 (mkEnv 0 "" 0)) s) = true
  ∧ controls_autoRotate (step (ImgLoaded 0 (mkEnv 0 "" 0)) s) = true.
Proof.
  destruct (orbit_stops_rotation_load_restarts_it
              [ClickPreset "assets/moon.jpg"] 0 (DecodingUrl "assets/moon.jpg")
              (mkEnv 0 "" 0)) as (Ha & _ & Hr).
  split; [exact Ha|]. apply Hr; reflexivity.
Defined.

(** ** Lists with one element *)

Lemma NoDup_singleton_elems {A} (l : list A) (x : A) :
  NoDup l → (∀ y, y ∈ l ↔ y = x) → l = [x].
Proof.
  intros Hnd Hx. apply Permutation_singleton_r.
  apply NoDup_Permutation; [done|apply NoDup_singleton|].
  intros y. rewrite Hx. by rewrite list_elem_of_singleton.
Qed.

(** ** The default texture and its fallback *)

Lemma gfx_createFallbackTexture s :
  gfx (createFallbackTexture s)
  = (textures s ++ [fallback_image], disposed s,
     Some (length (textures s)), Some (length (textures s))).
Proof. reflexivity. Qed.

Lemma gfx_loadDefaultTexture_onerror skipLoading s :
  gfx (loadDefaultTexture_onerror skipLoading s)
  = (textures s ++ [fallback_image], disposed s,
     Some (length (textures s)), Some (length (textures s))).
Proof. by destruct skipLoading. Qed.

Lemma gfx_loadDefaultTexture_onload skipLoading s :
  gfx (loadDefaultTexture_onload skipLoading s) = gfx_swapped default_image s.
Proof.
  unfold loadDefaultTexture_onload. cbv zeta.
  destruct skipLoading; cbn [negb]; by autorewrite with frame.
Qed.

Lemma live_textures_bound s t :
  texture_inv s → currentTexture s = Some t → live_textures s = [t].
Proof.
  intros Hinv Ht. pose proof Hinv as (_ & Hcur & _).
  destruct (Hcur t Ht) as [Hlt Hnot].
  apply NoDup_singleton_elems.
  - unfold live_textures. apply NoDup_filter, NoDup_seq.
  - intros y. split.
    + intros Hy. apply (live_texture_is_bound s y Hinv) in Hy. congruence.
    + intros ->. by apply elem_of_live_textures.
Qed.

(** X7. When the default image fails to load, the fallback canvas is bound
    and nothing is released.  If a texture is bound at that moment, it stays
    alive next to the fallback: two textures are alive afterwards, one of
    them bound to nothing. *)
Theorem fallback_releases_nothing
    (s : State) (skipLoading : bool) (t0 : tex) :
  texture_inv s → currentTexture s = Some t0 →
  let s' := loadDefaultTexture_onerror skipLoading s in
  bound_image s' = Some fallback_image
  ∧ disposed s' = disposed s
  ∧ live_textures s' = [t0; length (textures s)]
  ∧ ¬ texture_inv s'.
Proof.
  intros Hinv Ht0 s'.
  pose proof (gfx_loadDefaultTexture_onerror skipLoading s) as Hg.
  fold s' in Hg. clearbody s'. unfold gfx in Hg. injection Hg as Ht Hd _ Hc.
  pose proof Hinv as (Hdis & Hcur & _). destruct (Hcur t0 Ht0) as [Hlt Hnot].
  assert (live_textures s' = [t0; length (textures s)]) as Hlive.
  { unfold live_textures. rewrite Ht, Hd, length_app. cbn [length].
    rewrite Nat.add_1_r, seq_S, filter_app.
    fold (live_textures s). rewrite (live_textures_bound s t0 Hinv Ht0).
    cbn. rewrite decide_True; [done|].
    intros Hin. apply Hdis in Hin. lia. }
  split.
  { unfold bound_image. rewrite Hc, Ht. cbn. by apply list_lookup_middle. }
  split; [done|]. split; [done|].
  intros Hinv'.
  assert (t0 ∈ live_textures s') as Hin by (rewrite Hlive; left).
  apply (live_texture_is_bound s' t0 Hinv') in Hin.
  rewrite Hc in Hin. injection Hin as Hin. lia.
Qed.

Lemma fallback_releases_nothing_witness :
  let s := run (upload (File.mk "earth.jpg" "image/jpeg" 2000000) "data:earth"
                       (mkEnv 1001 "data:thumb" 1000)) constructed in
  let s' := loadDefaultTexture_onerror true s in
  bound_image s = Some "data:earth"
  ∧ bound_image s' = Some fallback_image
  ∧ live_textures s' = [0; 1]%nat.
Proof.
  cbv zeta.
  destruct (fallback_releases_nothing
              (run (upload (File.mk "earth.jpg" "image/jpeg" 2000000)
                           "data:earth" (mkEnv 1001 "data:thumb" 1000))
                   constructed)
              true 0) as (Hb & _ & Hl & _).
  - apply run_texture_inv. split; [|split].
    + intros t Hin. inversion Hin.
    + intros t Ht. discriminate Ht.
    + intros t Hlt. cbn in Hlt. lia.
  - reflexivity.
  - split; [reflexivity|]. split; [exact Hb|exact Hl].
Defined.

(** X8. When the default image loads, the texture bound so far, if any, is
    released and the default image is bound; the one-texture invariant is
    kept.  The call made at start-up ([skipLoading] set) never touches the
    loading overlay, neither on success nor on failure, and on success it
    leaves the viewer with the default image as its only texture. *)
Theorem default_texture_load (s : State) (skipLoading : bool) :
  texture_inv s →
  let s' := loadDefaultTexture_onload skipLoading s in
  texture_inv s'
  ∧ bound_image s' = Some default_image
  ∧ (∀ t0, currentTexture s = Some t0 → t0 ∈ disposed s')
  ∧ loadingVisible s' = (if skipLoading then loadingVisible s else false)
  ∧ loadingVisible (loadDefaultTexture_onerror skipLoading s)
    = (if skipLoading then loadingVisible s else false)
  ∧ persistent_state (loadDefaultTexture_onload true constructed)
    = persistent_state ready.
Proof.
  intros Hinv s'.
  pose proof (gfx_loadDefaultTexture_onload skipLoading s) as Hg. fold s' in Hg.
  split; [by apply (texture_inv_swapped default_image s)|].
  assert (loadingVisible s' = if skipLoading then loadingVisible s else false)
    as Hv.
  { unfold s', loadDefaultTexture_onload, swap_texture, dispose_current.
    by destruct skipLoading, (currentTexture s). }
  clearbody s'. unfold gfx, gfx_swapped in Hg. injection Hg as Ht Hd _ Hc.
  split. { unfold bound_image. rewrite Hc, Ht. cbn. by apply list_lookup_middle. }
  split. { intros t0 Ht0. rewrite Hd, Ht0. apply elem_of_app. right. by left. }
  split; [done|]. split; [by destruct skipLoading|reflexivity].
Qed.

Lemma default_texture_load_witness :
  let s' := loadDefaultTexture_onload true constructed in
  texture_inv s' ∧ bound_image s' = Some default_image
  ∧ loadingVisible s' = true.
Proof.
  destruct (default_texture_load constructed true) as (Hi & Hb & _ & Hv & _).
  - split; [|split].
    + intros t Hin. inversion Hin.
    + intros t Ht. discriminate Ht.
    + intros t Hlt. cbn in Hlt. lia.
  - split; [exact Hi|]. split; [exact Hb|exact Hv].
Defined.

(** ** Drag and drop *)

Lemma drag_step_inv ev d s :
  drag_inv d → well_nested (dragCounter d) [ev] = true →
  drag_inv (drag_step ev (d, s)).1.
Proof.
  intros (Hc & Hv & Ho) Hn. destruct d as [c o v]. unfold drag_inv. cbn in *.
  destruct ev as [| | |files]; cbn.
  - destruct (Z.eqb_spec (c + 1) 1) as [E|E]; cbn.
    + split; [lia|]. split; [|done]. symmetry. apply Z.ltb_lt. lia.
    + split; [lia|]. split; [|done]. rewrite Hv.
      destruct (Z.ltb_spec 0 c), (Z.ltb_spec 0 (c + 1)); lia || done.
  - done.
  - apply andb_prop in Hn as [Hpos%Z.ltb_lt _].
    destruct (Z.eqb_spec (c - 1) 0) as [E|E]; cbn.
    + rewrite E. done.
    + split; [lia|]. split; [|done]. rewrite Hv.
      destruct (Z.ltb_spec 0 c), (Z.ltb_spec 0 (c - 1)); lia || done.
  - done.
Qed.

Lemma dragCounter_step ev d s :
  dragCounter (drag_step ev (d, s)).1
  = match ev with
    | DragEnter => dragCounter d + 1
    | DragOver => dragCounter d
    | DragLeave => dragCounter d - 1
    | DropFiles _ => 0
    end.
Proof.
  destruct ev; cbn; [|done| |done].
  - by destruct (dragCounter d + 1 =? 1).
  - by destruct (dragCounter d - 1 =? 0).
Qed.

Lemma drag_run_inv evs d s :
  drag_inv d → well_nested (dragCounter d) evs = true →
  drag_inv (drag_run evs (d, s)).1.
Proof.
  revert d s. induction evs as [|ev evs IH]; intros d s Hd Hn; [done|].
  cbn [drag_run fold_left]. fold (drag_run evs (drag_step ev (d, s))).
  destruct (drag_step ev (d, s)) as [d' s'] eqn:E.
  assert (d' = (drag_step ev (d, s)).1) as Hd' by by rewrite E.
  apply IH.
  - rewrite Hd'. apply drag_step_inv; [done|].
    destruct ev; cbn in *; try done.
    apply andb_prop in Hn as [-> _]. done.
  - rewrite Hd', dragCounter_step.
    destruct ev; cbn in Hn; try done.
    by apply andb_prop in Hn as [_ ?].
Qed.

(** X9. The drag counter keeps the modal from flickering: as long as no
    [dragleave] arrives without an open [dragenter], the modal and the
    ['drag-over'] class are on exactly while the counter is positive,
    however the enters and leaves of nested elements interleave.  A drop
    brings the counter back to zero and hides the modal from any state.
    After a stray [dragleave] the counter is negative, and the next
    [dragenter] does not show the modal. *)
Theorem drag_modal_follows_counter
    (evs : list DragEvent) (d : DragUI) (s : State) (files : list File.t) :
  (well_nested 0 evs = true → drag_inv (drag_run evs (drag_idle, s)).1)
  ∧ (drag_step (DropFiles files) (d, s)).1 = drag_idle
  ∧ (drag_run [DragLeave; DragEnter] (drag_idle, s)).1 = mkDragUI 0 false false.
Proof.
  split; [|split; reflexivity].
  intros Hn. apply drag_run_inv; [|done]. by split.
Qed.

Lemma drag_modal_follows_counter_witness :
  let d := (drag_run [DragEnter; DragEnter; DragOver; DragLeave; DragEnter;
                      DragLeave] (drag_idle, ready)).1 in
  dragCounter d = 1 ∧ dragModalVisible d = true ∧ drag_over d = true.
Proof.
  destruct (drag_modal_follows_counter
              [DragEnter; DragEnter; DragOver; DragLeave; DragEnter; DragLeave]
              drag_idle ready []) as [H _].
  destruct (H eq_refl) as (_ & Hv & Ho).
  split; [reflexivity|]. split; [exact Hv|]. by rewrite Ho, Hv.
Defined.

Lemma drag_step_viewer ev d s :
  (drag_step ev (d, s)).2 = run (dropped [ev]) s.
Proof.
  destruct ev as [| | |[|file files]]; cbn; try done.
  - by destruct (dragCounter d + 1 =? 1).
  - by destruct (dragCounter d - 1 =? 0).
Qed.

(** X10. Dragging never changes the viewer; a drop starts the load of the
    first file dropped and ignores the others, and a drop without files
    starts nothing: for the viewer, a sequence of drag events amounts to
    [loadTexture] on the first file of every drop that has one. *)
Theorem drag_events_load_first_file_only
    (evs : list DragEvent) (d : DragUI) (s : State) :
  (drag_run evs (d, s)).2 = run (dropped evs) s.
Proof.
  revert d s. induction evs as [|ev evs IH]; intros d s; [done|].
  cbn [drag_run fold_left]. fold (drag_run evs (drag_step ev (d, s))).
  destruct (drag_step ev (d, s)) as [d' s'] eqn:E.
  rewrite IH.
  assert (s' = run (dropped [ev]) s) as ->
    by (rewrite <- drag_step_viewer with (d := d); by rewrite E).
  change (ev :: evs) with ([ev] ++ evs).
  unfold dropped, run. by rewrite omap_app, fold_left_app.
Qed.

(** ** Pieces of a string *)

Lemma string_app_assoc (a b c : string) : (a +:+ b) +:+ c = a +:+ (b +:+ c).
Proof.
  induction a as [|x a IH]; [done|].
  change (String x ((a +:+ b) +:+ c) = String x (a +:+ (b +:+ c))).
  by rewrite IH.
Qed.

Lemma string_app_nil_r (a : string) : a +:+ EmptyString = a.
Proof.
  induction a as [|x a IH]; [done|].
  change (String x (a +:+ EmptyString) = String x a). by rewrite IH.
Qed.

Lemma string_length_app (a b : string) :
  String.length (a +:+ b) = (String.length a + String.length b)%nat.
Proof.
  induction a as [|x a IH]; [done|].
  change (S (String.length (a +:+ b))
          = S (String.length a + String.length b)). by rewrite IH.
Qed.

(** [s.split(sep).join(sep)] is [s]. *)
Lemma join_split sep s : join sep (split sep s) = s.
Proof.
  induction s as [|c s IH]; [done|]. cbn [split].
  pose proof (split_nonempty sep s) as Hne.
  destruct (Ascii.eqb_spec c sep) as [->|Hc].
  - destruct (split sep s) as [|p ps]; [done|].
    change (String sep (join sep (p :: ps)) = String sep s). by rewrite IH.
  - destruct (split sep s) as [|p ps]; [done|].
    destruct ps as [|q ps].
    + change (String c (join sep [p]) = String c s). by rewrite IH.
    + change (String c (join sep (p :: q :: ps)) = String c s). by rewrite IH.
Qed.

Lemma split_pieces_no_sep sep s :
  Forall (λ p, sep ∉ list_ascii_of_string p) (split sep s).
Proof.
  induction s as [|c s IH]; cbn [split].
  - constructor; [apply not_elem_of_nil|constructor].
  - destruct (Ascii.eqb_spec c sep) as [->|Hc].
    + constructor; [apply not_elem_of_nil|done].
    + destruct (split sep s) as [|p ps].
      * constructor; [|done]. cbn. intros [?|Hin]%elem_of_cons; [done|].
        by apply not_elem_of_nil in Hin.
      * apply Forall_cons in IH as [Hp Hps]. constructor; [|done].
        cbn. intros [?|?]%elem_of_cons; done.
Qed.

(** What precedes the last piece is empty or ends with the separator. *)
Lemma join_last sep (ps : list string) :
  ps ≠ [] →
  ∃ pre, join sep ps = pre +:+ pop ps
         ∧ (pre = EmptyString ∨ ∃ dir, pre = dir +:+ String sep EmptyString).
Proof.
  induction ps as [|p ps IH]; [done|]. intros _.
  destruct ps as [|q ps].
  - exists EmptyString. split; [done|by left].
  - destruct IH as (pre & Hj & Hpre); [done|].
    exists (p +:+ String sep pre). split.
    + change (join sep (p :: q :: ps)) with (p +:+ String sep (join sep (q :: ps))).
      rewrite Hj. unfold pop. cbn [List.last].
      by rewrite string_app_assoc.
    + right. destruct Hpre as [->|[dir ->]].
      * exists p. done.
      * exists (p +:+ String sep dir). by rewrite string_app_assoc.
Qed.

(** ** The loading text of a preset *)

(** X11. While a preset loads, the overlay names the last path segment of
    its URL, which holds no slash, or "texture" when the URL ends with a
    slash or is empty: the name shown is never empty.  Starting the load
    changes nothing else than the overlay and the list of loads in
    flight. *)
Theorem loadTextureFromUrl_loading_text (url : string) (s : State) :
  let s' := loadTextureFromUrl url s in
  ∃ fileName,
    effects s' = effects s ++ [ShowLoading ("Loading " +:+ fileName +:+ "...");
                               SetImgSrc url]
    ∧ fileName ≠ EmptyString
    ∧ ("/"%char ∉ list_ascii_of_string fileName)
    ∧ ((∃ pre, url = pre +:+ fileName
               ∧ (pre = EmptyString ∨ ∃ dir, pre = dir +:+ "/"))
       ∨ (fileName = "texture"
          ∧ (url = EmptyString ∨ ∃ dir, url = dir +:+ "/")))
    ∧ loadingVisible s' = true
    ∧ inflight s' = inflight s ++ [DecodingUrl url]
    ∧ persistent_state s' = persistent_state s.
Proof.
  intros s'.
  pose proof (split_nonempty "/" url) as Hne.
  destruct (join_last "/" (split "/" url) Hne) as (pre & Hj & Hpre).
  rewrite join_split in Hj.
  pose proof (split_pieces_no_sep "/" url) as Hno.
  assert ("/"%char ∉ list_ascii_of_string (pop (split "/" url))) as Hlast.
  { rewrite Forall_forall in Hno. apply Hno. unfold pop.
    destruct (split "/" url) as [|p ps] eqn:E; [done|].
    apply list_elem_of_In. apply (exists_last (l := p :: ps)) in Hne
      as (l' & a & ->). rewrite List.last_last. apply in_or_app. right. by left. }
  exists (or_default (pop (split "/" url)) "texture").
  split. { unfold s', loadTextureFromUrl. destruct s. cbn. by rewrite <- app_assoc. }
  destruct (pop (split "/" url)) as [|c rest] eqn:Hpop; cbn [or_default].
  - split; [done|]. split.
    { cbn. intros Hin. repeat (apply elem_of_cons in Hin as [Hin|Hin];
        [discriminate Hin|]). by apply not_elem_of_nil in Hin. }
    split; [|done]. right. split; [done|].
    rewrite Hj, string_app_nil_r. destruct Hpre as [->|[dir ->]]; [by left|right].
    by exists dir.
  - split; [done|]. split; [done|]. split; [|done]. left. by exists pre.
Qed.

(** ** Entry names and extensions *)

Lemma fold_left_dot_length (qs : list string) (acc : string) :
  (String.length acc
   ≤ String.length (fold_left (λ acc q, acc +:+ "." +:+ q) qs acc))%nat.
Proof.
  revert acc. induction qs as [|q qs IH]; intros acc; [done|]. cbn [fold_left].
  etrans; [|apply IH]. rewrite string_length_app. lia.
Qed.

(** X12. The name given to an uploaded entry is the filename without its
    extension exactly when the filename has at most one dot; without a dot
    it is the whole filename.  With two dots or more, the name stops at the
    first dot; it is never longer than the filename without its
    extension. *)
Theorem entry_name_is_stem_iff_one_dot (file : File.t) (src : string) (env : Env) :
  let name := UploadEntry.name (new_entry file src env) in
  (name = stem (File.name file) ↔ (length (split "." (File.name file)) ≤ 2)%nat)
  ∧ (length (split "." (File.name file)) = 1%nat → name = File.name file)
  ∧ (String.length name ≤ String.length (stem (File.name file)))%nat.
Proof.
  cbn [new_entry UploadEntry.name]. unfold stem, first_piece.
  pose proof (join_split "." (File.name file)) as Hj.
  destruct (split "." (File.name file)) as [|p [|q [|r rest]]]; cbn [hd length].
  - split; [split; [lia|done]|]. split; [lia|done].
  - split; [split; [lia|done]|]. split; [by intros _|done].
  - split; [split; [lia|done]|]. split; [lia|done].
  - assert (String.length p
            < String.length (fold_left (λ acc q0, acc +:+ "." +:+ q0)
                               (removelast (q :: r :: rest)) p))%nat as Hlt.
    { change (removelast (q :: r :: rest)) with (q :: removelast (r :: rest)).
      cbn [fold_left]. eapply Nat.lt_le_trans; [|apply fold_left_dot_length].
      rewrite !string_length_app. cbn. lia. }
    split; [split|split]; [|cbn; lia|cbn; lia|lia].
    intros Heq. rewrite <- Heq in Hlt. lia.
Qed.

Lemma entry_name_is_stem_iff_one_dot_witness :
  UploadEntry.name (new_entry (File.mk "earth.jpg" "image/jpeg" 1) "data:"
                              (mkEnv 1 "" 1))
  = stem "earth.jpg"
  ∧ UploadEntry.name (new_entry (File.mk "README" "image/png" 1) "data:"
                                (mkEnv 1 "" 1))
    = "README".
Proof.
  split.
  - apply (proj1 (entry_name_is_stem_iff_one_dot
                    (File.mk "earth.jpg" "image/jpeg" 1) "data:" (mkEnv 1 "" 1))).
    cbn. lia.
  - apply (proj1 (proj2 (entry_name_is_stem_iff_one_dot
                    (File.mk "README" "image/png" 1) "data:" (mkEnv 1 "" 1)))).
    reflexivity.
Defined.

(** ** A completed upload *)

Lemma getAll_hist_eq s1 s2 :
  heap s1 = heap s2 → uploadHistory s1 = uploadHistory s2 → db s1 = db s2 →
  getAll s1 = getAll s2.
Proof.
  intros Hh Hu Hd. destruct (db s2) as [m|] eqn:E.
  - by rewrite (getAll_store s1 m Hd), (getAll_store s2 m E).
  - rewrite (getAll_memory s1 Hd), (getAll_memory s2 E).
    unfold history_view. by rewrite Hh, Hu.
Qed.

Lemma heap_of_hist s h u c d : hist s = (h, u, c, d) → heap s = h.
Proof. unfold hist. by intros [= <- _ _ _]. Qed.

Lemma hist_addToUploadHistory file src env s :
  hist (addToUploadHistory file src env s)
  = let '(h, u, _, d) := hist (put (PutNew (new_entry file src env)) s) in
    (h, u, Some (length (heap s)), d).
Proof.
  unfold addToUploadHistory, put, new_entry. cbv zeta.
  set (e := UploadEntry.mk _ _ _ _ _ _).
  set (x := set_heap (heap s ++ [e]) s).
  assert (heap x !! length (heap s) = Some e) as He
    by (by apply list_lookup_middle).
  destruct (db s) as [m|] eqn:E.
  - assert (db x = Some m) as Hx by exact E.
    rewrite (hist_saveTextureToIndexedDB_store _ x m e Hx He).
    by rewrite (hist_saveTextureToIndexedDB_store _
                  (set_currentUploadEntry (Some (length (heap s))) x) m e Hx He).
  - assert (db x = None) as Hx by exact E.
    rewrite (hist_saveTextureToIndexedDB_memory _ x Hx).
    by rewrite (hist_saveTextureToIndexedDB_memory _
                  (set_currentUploadEntry (Some (length (heap s))) x) Hx).
Qed.

Lemma hist_put_new_congr e x s :
  hist x = hist s → hist (put (PutNew e) x) = hist (put (PutNew e) s).
Proof.
  intros Hx. unfold hist in Hx. injection Hx as Hh Hu Hc Hd.
  destruct (db s) as [m|] eqn:E.
  - rewrite (hist_put_new_store _ x m), (hist_put_new_store _ s m) by congruence.
    by rewrite Hh, Hc.
  - rewrite (hist_put_new_memory _ x), (hist_put_new_memory _ s) by congruence.
    by rewrite Hh, Hu, Hc.
Qed.

Lemma hist_loadTexture_img_onload file src env s :
  hist (loadTexture_img_onload file src env s)
  = let '(h, u, _, d) := hist (put (PutNew (new_entry file src env)) s) in
    (h, u, Some (length (heap s)), d).
Proof.
  unfold loadTexture_img_onload. cbv zeta.
  set (x := updateLighting (swap_texture src s)).
  assert (hist x = hist s) as Hx by (unfold x; by autorewrite with frame).
  assert (heap x = heap s) as Hh by exact (f_equal (λ p, p.1.1.1) Hx).
  clearbody x.
  rotation_cases; autorewrite with frame; rewrite hist_addToUploadHistory;
    rewrite (hist_put_new_congr _ x s Hx); by rewrite Hh.
Qed.

(** X13. A completed upload binds the uploaded image and makes a new entry
    the current one: the entry carries the image data, the name piece of
    the filename and no saved settings.  On the history it acts as a [put]
    of that new entry: what [getAll] returns afterwards, and the store, are
    those of the put. *)
Theorem upload_completion_puts_new_entry
    (s : State) (i : nat) (file : File.t) (src : string) (env : Env) :
  inflight s !! i = Some (DecodingFile file src) →
  let s' := step (ImgLoaded i env) s in
  let e := new_entry file src env in
  bound_image s' = Some src
  ∧ currentUploadEntry s' = Some (length (heap s))
  ∧ heap s' !! length (heap s) = Some e
  ∧ UploadEntry.savedSettings e = None
  ∧ UploadEntry.originalDataUrl e = src
  ∧ getAll s' = getAll (put (PutNew e) s)
  ∧ db s' = db (put (PutNew e) s).
Proof.
  intros Hi s' e.
  split. { by apply (decode_completion_binds s i env (DecodingFile file src) src). }
  assert (hist s' = let '(h, u, _, d) := hist (put (PutNew e) s) in
                    (h, u, Some (length (heap s)), d)) as Hh.
  { unfold s', step. rewrite Hi. rewrite hist_loadTexture_img_onload.
    by rewrite (hist_put_new_congr _ (finish i s) s (hist_finish i s)). }
  clearbody s'.
  assert (heap (put (PutNew e) s) !! length (heap s) = Some e) as He.
  { destruct (db s) as [m|] eqn:E.
    - rewrite (heap_of_hist _ _ _ _ _ (hist_put_new_store e s m E)).
      rewrite <- app_assoc. by apply list_lookup_middle.
    - rewrite (heap_of_hist _ _ _ _ _ (hist_put_new_memory e s E)).
      by apply list_lookup_middle. }
  set (s2 := put (PutNew e) s) in *.
  clearbody s2. unfold hist in Hh. injection Hh as Hh Hu Hc Hd.
  split; [done|]. split; [by rewrite Hh|]. split; [done|]. split; [done|].
  split; [by apply getAll_hist_eq|done].
Qed.

Lemma upload_completion_puts_new_entry_witness :
  let file := File.mk "earth.jpg" "image/jpeg" 2000000 in
  let env := mkEnv 1001 "data:thumb" 1000 in
  let s := run [Drop file; ReaderLoaded 0 "data:earth"] ready in
  let s' := step (ImgLoaded 0 env) s in
  bound_image s' = Some "data:earth"
  ∧ currentUploadEntry s' = Some 0%nat
  ∧ getAll s' = [UploadEntry.mk 1001 "earth" "data:thumb" "data:earth" 1000 None].
Proof.
  intros file env. cbv zeta.
  destruct (upload_completion_puts_new_entry
              (run [Drop file; ReaderLoaded 0 "data:earth"] ready)
              0 file "data:earth" env) as (Hb & Hc & _ & _ & _ & Hg & _);
    [reflexivity|].
  split; [exact Hb|]. split; [exact Hc|].
  rewrite Hg. vm_compute. reflexivity.
Defined.

(** ** Putting an entry again, with a store *)

Lemma StronglySorted_fmap_elem {A B} (R : relation A) (Q : relation B)
    (f : A → B) (l : list A) :
  (∀ x y, x ∈ l → y ∈ l → R x y → Q (f x) (f y)) →
  StronglySorted R l → StronglySorted Q (f <$> l).
Proof.
  intros HRQ Hl. induction Hl as [|x l Hl IH Hx]; [constructor|].
  cbn. constructor.
  - apply IH. intros y z Hy Hz. apply HRQ; by right.
  - apply Forall_fmap, Forall_forall. intros y Hy.
    rewrite Forall_forall in Hx. apply HRQ; [by left|by right|by apply Hx].
Qed.

(** Writing a record over the record of the same key and the same
    [timestamp] changes that record where it stands in cursor order. *)
Lemma cursor_prev_insert_same_key (m : Store) (e0 e' : UploadEntry.t) :
  store_keyed m →
  m !! UploadEntry.id e' = Some e0 →
  UploadEntry.timestamp e0 = UploadEntry.timestamp e' →
  cursor_prev (store_put e' m) = replace_by_id e' (cursor_prev m).
Proof.
  intros Hkeyed Hold Hts. unfold cursor_prev, replace_by_id, store_put.
  set (k := UploadEntry.id e').
  set (f := λ p : Z * UploadEntry.t, if bool_decide (p.1 = k) then (k, e') else p).
  set (L := merge_sort index_prev (map_to_list m)).
  assert (∀ p, p ∈ L → m !! p.1 = Some p.2) as HL.
  { intros [k0 x0] Hp. unfold L in Hp. rewrite merge_sort_Permutation in Hp.
    by apply elem_of_map_to_list in Hp. }
  assert (∀ p, p ∈ L → UploadEntry.timestamp (f p).2 = UploadEntry.timestamp p.2
                       ∧ (f p).1 = p.1) as Hf.
  { intros [k0 x0] Hp. apply HL in Hp. cbn in Hp. unfold f. cbn.
    case_bool_decide as Hk; cbn; [|done]. subst k0. split; [|done].
    unfold k in Hp. rewrite Hold in Hp. injection Hp as <-. done. }
  assert (merge_sort index_prev (map_to_list (<[k:=e']> m)) = f <$> L) as ->.
  { apply (StronglySorted_unique_strong index_prev).
    - intros [k1 e1] [k2 e2] H1 H2 HR1 HR2.
      rewrite merge_sort_Permutation in H1. apply elem_of_map_to_list in H1.
      assert (<[k:=e']> m !! k2 = Some e2) as H2'.
      { apply list_elem_of_fmap in H2 as ([k0 x0] & Heq & Hin).
        apply HL in Hin. cbn in Hin. unfold f in Heq. cbn in Heq.
        case_bool_decide as Hk; injection Heq as -> ->.
        - apply lookup_insert_eq.
        - by rewrite lookup_insert_ne. }
      unfold index_prev in HR1, HR2. cbn in HR1, HR2.
      assert (k1 = k2) as -> by lia. congruence.
    - apply cursor_entries_sorted.
    - apply (StronglySorted_fmap_elem index_prev); [|apply cursor_entries_sorted].
      intros p q Hp Hq HR. unfold index_prev in *.
      destruct (Hf p Hp) as [-> ->], (Hf q Hq) as [-> ->]. exact HR.
    - rewrite merge_sort_Permutation. unfold L.
      rewrite merge_sort_Permutation.
      rewrite <- (insert_delete_eq m), map_to_list_insert
        by apply lookup_delete_eq.
      rewrite <- (map_to_list_delete m k e0 Hold). cbn.
      unfold f at 1. cbn. rewrite bool_decide_eq_true_2 by done.
      assert (f <$> map_to_list (delete k m) = map_to_list (delete k m)) as ->;
        [|done].
      erewrite list_fmap_ext; [apply list_fmap_id|].
      intros i [k0 x0] Hin. apply list_elem_of_lookup_2, elem_of_map_to_list in Hin.
      unfold f. cbn. rewrite bool_decide_eq_false_2; [done|].
      intros ->. by rewrite lookup_delete_eq in Hin. }
  rewrite <- !list_fmap_compose. apply list_fmap_ext.
  intros i [k0 x0] Hin. apply list_elem_of_lookup_2 in Hin.
  apply HL in Hin. cbn in Hin. apply Hkeyed in Hin. cbn. unfold f. cbn.
  rewrite Hin. by case_bool_decide.
Qed.

Lemma replace_by_id_take e' l n :
  replace_by_id e' (take n l) = take n (replace_by_id e' l).
Proof. unfold replace_by_id. apply fmap_take. Qed.

(** X14. With a store, "save current view" on an entry that is stored
    replaces the record under the entry's [id]: [getAll] returns the same
    entries in the same order, the saved one now carrying the captured
    settings; no entry is added and none moves. *)
Theorem save_with_store_replaces_in_place
    (s : State) (m : Store) (l : loc) (e e0 : UploadEntry.t) :
  db s = Some m → store_keyed m →
  currentUploadEntry s = Some l → heap s !! l = Some e →
  m !! UploadEntry.id e = Some e0 →
  UploadEntry.timestamp e0 = UploadEntry.timestamp e →
  let e' := UploadEntry.set_savedSettings (Some (capture_settings s)) e in
  let s' := saveCurrentSettings s in
  getAll s' = replace_by_id e' (getAll s)
  ∧ db s' = Some (<[UploadEntry.id e := e']> m)
  ∧ UploadEntry.id <$> getAll s' = UploadEntry.id <$> getAll s
  ∧ UploadEntry.timestamp <$> getAll s' = UploadEntry.timestamp <$> getAll s.
Proof.
  intros Hdb Hkeyed Hcur He Hold Hts e' s'.
  assert (hist s' = (alter (UploadEntry.set_savedSettings
                              (Some (capture_settings s))) l (heap s)
                     ++ cursor_prev (store_put e' m),
                     take 10 (seq (length (alter (UploadEntry.set_savedSettings
                              (Some (capture_settings s))) l (heap s)))
                                  (length (cursor_prev (store_put e' m)))),
                     Some l, Some (store_put e' m))) as Hh.
  { unfold s', saveCurrentSettings. rewrite Hcur.
    rewrite (hist_saveTextureToIndexedDB_store l _ m e');
      [cbn [heap set_heap currentUploadEntry]; by rewrite Hcur|exact Hdb|].
    cbn [heap set_heap]. by rewrite list_lookup_alter_eq, He. }
  clearbody s'. apply db_of_hist in Hh.
  assert (getAll s' = replace_by_id e' (getAll s)) as Hg.
  { rewrite (getAll_store s' _ Hh), (getAll_store s m Hdb), replace_by_id_take.
    f_equal. by apply (cursor_prev_insert_same_key m e0 e'). }
  split; [done|]. split; [done|].
  rewrite Hg. unfold replace_by_id. rewrite <- !list_fmap_compose.
  split; apply list_fmap_ext; intros i x Hx; cbn; case_bool_decide; try done.
  assert (x ∈ getAll s) as Hin by by eapply list_elem_of_lookup_2.
  rewrite (getAll_store s m Hdb) in Hin.
  apply subseteq_take, elem_of_cursor_prev in Hin as [k Hk].
  pose proof (Hkeyed k x Hk) as Hkx.
  assert (x = e0) as -> by (cbn in *; congruence). by cbn.
Qed.

Lemma save_with_store_replaces_in_place_witness :
  let s := run (DbOpened [sample_entry 1]
                :: upload (File.mk "earth.jpg" "image/jpeg" 2000000) "data:earth"
                          (mkEnv 1005 "data:thumb" 5)) ready in
  let e := UploadEntry.mk 1005 "earth" "data:thumb" "data:earth" 5 None in
  getAll s = [e; sample_entry 1]
  ∧ getAll (saveCurrentSettings s)
    = [UploadEntry.set_savedSettings (Some (capture_settings s)) e;
       sample_entry 1].
Proof.
  cbv zeta.
  set (s := run _ ready).
  set (e := UploadEntry.mk 1005 "earth" "data:thumb" "data:earth" 5 None).
  assert (getAll s = [e; sample_entry 1]) as Hview by (vm_compute; reflexivity).
  destruct (save_with_store_replaces_in_place s
              (store_put e (store_put (sample_entry 1) ∅)) 1 e e)
    as (Hg & _).
  - vm_compute. reflexivity.
  - apply store_keyed_put, store_keyed_put. intros k x Hx.
    by rewrite lookup_empty in Hx.
  - vm_compute. reflexivity.
  - vm_compute. reflexivity.
  - vm_compute. reflexivity.
  - reflexivity.
  - split; [exact Hview|]. rewrite Hg, Hview. vm_compute. reflexivity.
Defined.

(** ** The history across all events *)

Lemma task_wf_mono n n' t : (n ≤ n')%nat → task_wf n t → task_wf n' t.
Proof. intros Hn. destruct t as [| | |? ? [l|]]; cbn; try done. lia. Qed.

Lemma history_inv_intro s h u c d :
  hist s = (h, u, c, d) →
  (length u ≤ 10)%nat → Forall (λ l, (l < length h)%nat) u →
  (∀ l, c = Some l → (l < length h)%nat) →
  Forall (task_wf (length h)) (inflight s) →
  history_inv s.
Proof.
  unfold hist, history_inv, hist_wf. intros [= -> -> -> _]. by repeat split.
Qed.

Lemma hist_eta s :
  hist s = (heap s, uploadHistory s, currentUploadEntry s, db s).
Proof. reflexivity. Qed.

(** A state whose history side is that of [s], with other loads in
    flight. *)
Lemma history_inv_frame s s' :
  hist s' = hist s →
  Forall (task_wf (length (heap s))) (inflight s') →
  history_inv s → history_inv s'.
Proof.
  intros Hh Hi (Hlen & Hwf & Hcur & _).
  by apply (history_inv_intro s' _ _ _ _ Hh).
Qed.

Lemma Forall_seq_lt base n :
  Forall (λ l, (l < base + n)%nat) (seq base n).
Proof. apply Forall_forall. intros l Hl%elem_of_seq. lia. Qed.

Lemma history_inv_loadUploadHistory s :
  history_inv s → history_inv (loadUploadHistory s).
Proof.
  intros Hs. destruct (db s) as [m|] eqn:E;
    [|by rewrite loadUploadHistory_memory].
  destruct Hs as (Hlen & Hwf & Hcur & Hin).
  apply (history_inv_intro _ _ _ _ _ (hist_loadUploadHistory_store s m E)).
  - rewrite length_take. lia.
  - rewrite length_app. apply Forall_take, Forall_seq_lt.
  - intros l Hl. rewrite length_app. apply Hcur in Hl. lia.
  - rewrite inflight_loadUploadHistory, length_app.
    eapply Forall_impl; [exact Hin|]. intros t. apply task_wf_mono. lia.
Qed.

Lemma history_inv_saveTextureToIndexedDB l s :
  (l < length (heap s))%nat →
  history_inv s → history_inv (saveTextureToIndexedDB l s).
Proof.
  intros Hl (Hlen & Hwf & Hcur & Hin).
  destruct (db s) as [m|] eqn:E.
  - destruct (lookup_lt_is_Some_2 (heap s) l Hl) as [e He].
    apply (history_inv_intro _ _ _ _ _
             (hist_saveTextureToIndexedDB_store l s m e E He)).
    + rewrite length_take. lia.
    + rewrite length_app. apply Forall_take, Forall_seq_lt.
    + intros l' Hl'. rewrite length_app. apply Hcur in Hl'. lia.
    + rewrite inflight_saveTextureToIndexedDB, length_app.
      eapply Forall_impl; [exact Hin|]. intros t. apply task_wf_mono. lia.
  - apply (history_inv_intro _ _ _ _ _
             (hist_saveTextureToIndexedDB_memory l s E)).
    + rewrite length_take. lia.
    + apply Forall_take. by constructor.
    + done.
    + by rewrite inflight_saveTextureToIndexedDB.
Qed.

Lemma history_inv_set_heap_alter f l s :
  history_inv s → history_inv (set_heap (alter f l (heap s)) s).
Proof.
  intros (Hlen & Hwf & Hcur & Hin).
  apply (history_inv_intro _ _ _ _ _ (hist_set_heap _ s));
    rewrite ?length_alter; done.
Qed.

Lemma history_inv_saveCurrentSettings s :
  history_inv s → history_inv (saveCurrentSettings s).
Proof.
  intros Hs. unfold saveCurrentSettings.
  destruct (currentUploadEntry s) as [l|] eqn:E.
  - apply history_inv_saveTextureToIndexedDB.
    + cbn [heap set_heap]. rewrite length_alter.
      destruct Hs as (_ & _ & Hcur & _). by apply Hcur.
    + by apply history_inv_set_heap_alter.
  - by apply (history_inv_frame s); [|destruct Hs as (_ & _ & _ & ?)|].
Qed.

Lemma history_inv_addToUploadHistory file src env s :
  history_inv s → history_inv (addToUploadHistory file src env s).
Proof.
  intros (Hlen & Hwf & Hcur & Hin). unfold addToUploadHistory. cbv zeta.
  apply history_inv_saveTextureToIndexedDB.
  - cbn [heap set_heap set_currentUploadEntry]. rewrite length_app. cbn. lia.
  - eapply history_inv_intro; [apply hist_eta|..];
      cbn [heap uploadHistory currentUploadEntry inflight set_heap
           set_currentUploadEntry]; rewrite ?length_app; cbn [length].
    + done.
    + eapply Forall_impl; [exact Hwf|]. cbn. lia.
    + intros l [= <-]. lia.
    + eapply Forall_impl; [exact Hin|]. intros t. apply task_wf_mono. lia.
Qed.

Lemma hist_loadTextureFromDataUrl_onload update dataUrl ss ue s :
  hist (loadTextureFromDataUrl_onload update dataUrl ss ue s)
  = (heap s, uploadHistory s, ue, db s).
Proof.
  unfold loadTextureFromDataUrl_onload. cbv zeta.
  pose proof (hist_swap_texture dataUrl s) as Hx.
  set (x := swap_texture dataUrl s) in *. clearbody x.
  unfold hist in Hx. injection Hx as Hh Hu Hc Hd.
  rotation_cases; autorewrite with frame; rewrite hist_set_currentUploadEntry;
    by rewrite Hh, Hu, Hd.
Qed.


Lemma history_inv_same s s' :
  hist s' = hist s → inflight s' = inflight s →
  history_inv s → history_inv s'.
Proof.
  intros Hh Hi Hs. apply (history_inv_frame s s' Hh); [|done].
  rewrite Hi. by destruct Hs as (_ & _ & _ & ?).
Qed.

Lemma history_inv_spawn t s :
  task_wf (length (heap s)) t → history_inv s → history_inv (spawn t s).
Proof.
  intros Ht Hs. apply (history_inv_frame s); [done| |done].
  destruct Hs as (_ & _ & _ & Hin).
  change (inflight (spawn t s)) with (inflight s ++ [t]).
  apply Forall_app. split; [done|]. by constructor.
Qed.

Lemma history_inv_finish i s : history_inv s → history_inv (finish i s).
Proof.
  intros Hs. apply (history_inv_frame s); [done| |done].
  destruct Hs as (_ & _ & _ & Hin). by apply Forall_delete.
Qed.

Lemma inflight_clearUploadHistory s :
  inflight (clearUploadHistory s) = inflight s.
Proof.
  unfold clearUploadHistory. cbv zeta.
  change (db (updateUploadHistoryUI (set_uploadHistory [] s))) with (db s).
  by destruct (db s).
Qed.

Lemma history_inv_loadTexture_img_onload file src env s :
  history_inv s → history_inv (loadTexture_img_onload file src env s).
Proof.
  intros Hs. unfold loadTexture_img_onload. cbv zeta.
  assert (history_inv (addToUploadHistory file src env
                         (updateLighting (swap_texture src s)))) as H.
  { apply history_inv_addToUploadHistory.
    apply (history_inv_same s); [by autorewrite with frame..|done]. }
  rotation_cases; (eapply history_inv_same; [| |exact H]);
    by autorewrite with frame.
Qed.

Lemma step_history_inv ev s : history_inv s → history_inv (step ev s).
Proof.
  intros Hs.
  destruct ev as [file|url|l| | | | |v|v|v|p q|records|i r|i|i env|i];
    unfold step.
  - unfold loadTexture. destruct (negb _).
    { by apply (history_inv_same s). }
    destruct (maxSize <? _); apply history_inv_spawn; try done;
      by apply (history_inv_same s).
  - unfold loadTextureFromUrl. apply history_inv_spawn; [done|].
    by apply (history_inv_same s).
  - case_bool_decide as Hl; [|done]. unfold history_item_click.
    destruct (heap s !! l) as [e|]; [|done].
    unfold loadTextureFromDataUrl. apply history_inv_spawn.
    + destruct Hs as (_ & Hwf & _). unfold hist_wf in Hwf.
      rewrite Forall_forall in Hwf. by apply Hwf.
    + by apply (history_inv_same s).
  - by apply history_inv_saveCurrentSettings.
  - destruct Hs as (_ & _ & Hcur & Hin).
    apply (history_inv_intro _ _ _ _ _ (hist_clearUploadHistory s));
      [cbn; lia|constructor|done|by rewrite inflight_clearUploadHistory].
  - by apply (history_inv_same s).
  - unfold controls_start. destruct (autoRotate s); [|done].
    by apply (history_inv_same s).
  - by apply (history_inv_same s).
  - by apply (history_inv_same s).
  - by apply (history_inv_same s).
  - by apply (history_inv_same s).
  - unfold initIndexedDB_onsuccess. apply history_inv_loadUploadHistory.
    destruct Hs as (? & ? & ? & ?).
    by apply (history_inv_intro _ _ _ _ _ (hist_set_db _ s)).
  - destruct (inflight s !! i) as [[file| | |]|]; try done.
    unfold loadTexture_reader_onload. apply history_inv_spawn; [done|].
    eapply history_inv_same; [| |by apply (history_inv_finish i)]; done.
  - destruct (inflight s !! i) as [[file| | |]|]; try done.
    eapply history_inv_same; [| |by apply (history_inv_finish i)]; done.
  - destruct (inflight s !! i) as [[file|file src|url|dataUrl ss ue]|] eqn:Hi;
      try done.
    + by apply history_inv_loadTexture_img_onload, history_inv_finish.
    + eapply history_inv_same; [| |by apply (history_inv_finish i)].
      * by rewrite hist_loadTextureFromUrl_onload.
      * by rewrite inflight_loadTextureFromUrl_onload.
    + pose proof Hs as (Hlen & Hwf & Hcur & Hin).
      apply (history_inv_intro _ _ _ _ _
               (hist_loadTextureFromDataUrl_onload _ dataUrl ss ue (finish i s)));
        try done.
      * intros l ->. rewrite Forall_forall in Hin.
        apply (Hin (DecodingDataUrl dataUrl ss (Some l))).
        by eapply list_elem_of_lookup_2.
      * rewrite inflight_loadTextureFromDataUrl_onload. by apply Forall_delete.
  - destruct (inflight s !! i) as [[file|file src|url|dataUrl ss ue]|];
      try done;
      (eapply history_inv_same; [| |by apply (history_inv_finish i)]); done.
Qed.

Lemma run_history_inv evs s : history_inv s → history_inv (run evs s).
Proof.
  revert s. induction evs as [|ev evs IH]; intros s Hs; [done|].
  apply IH. by apply step_history_inv.
Qed.

(** The store only changes by a write of one record, by a clear, or by
    being opened. *)
Lemma db_saveTextureToIndexedDB l s :
  db (saveTextureToIndexedDB l s) = db s
  ∨ ∃ m e, db s = Some m ∧ db (saveTextureToIndexedDB l s) = Some (store_put e m).
Proof.
  destruct (db s) as [m|] eqn:E.
  - destruct (heap s !! l) as [e|] eqn:He.
    + right. exists m, e. split; [done|].
      by eapply db_of_hist, hist_saveTextureToIndexedDB_store.
    + left. unfold saveTextureToIndexedDB. by rewrite E, He.
  - left. by eapply db_of_hist, hist_saveTextureToIndexedDB_memory.
Qed.

Lemma step_db ev s :
  db (step ev s) = db s
  ∨ db (step ev s) = Some ∅
  ∨ (∃ records, db (step ev s) = Some (store_of records))
  ∨ ∃ m e, db s = Some m ∧ db (step ev s) = Some (store_put e m).
Proof.
  destruct ev as [file|url|l| | | | |v|v|v|p q|records|i r|i|i env|i];
    unfold step.
  - left. unfold loadTexture. destruct (negb _); [done|].
    by destruct (maxSize <? _).
  - by left.
  - left. case_bool_decide; [|done]. unfold history_item_click.
    by destruct (heap s !! l).
  - unfold saveCurrentSettings.
    destruct (currentUploadEntry s) as [l|]; [|by left].
    destruct (db_saveTextureToIndexedDB l
                (set_heap (alter (UploadEntry.set_savedSettings
                   (Some (capture_settings s))) l (heap s)) s)) as [H|H];
      [by left|by do 3 right].
  - rewrite (db_of_hist _ _ _ _ _ (hist_clearUploadHistory s)).
    destruct (db s); [right; by left|by left].
  - by left.
  - left. unfold controls_start. by destruct (autoRotate s).
  - by left.
  - by left.
  - by left.
  - by left.
  - do 2 right. left. exists records. unfold initIndexedDB_onsuccess.
    by eapply db_of_hist, (hist_loadUploadHistory_store _ (store_of records)).
  - left. by destruct (inflight s !! i) as [[]|].
  - left. by destruct (inflight s !! i) as [[]|].
  - destruct (inflight s !! i) as [[file|file src|url|dataUrl ss ue]|];
      [by left| | | |by left].
    + pose proof (hist_loadTexture_img_onload file src env (finish i s)) as H.
      destruct (db s) as [m|] eqn:E.
      * do 3 right. exists m, (new_entry file src env). split; [done|].
        rewrite (hist_put_new_store _ (finish i s) m E) in H.
        by apply db_of_hist in H.
      * left. rewrite (hist_put_new_memory _ (finish i s) E) in H.
        by apply db_of_hist in H.
    + left. by rewrite (db_of_hist _ _ _ _ _
                 (eq_trans (hist_loadTextureFromUrl_onload url (finish i s))
                           (hist_eta _))).
    + left. by rewrite (db_of_hist _ _ _ _ _
                 (hist_loadTextureFromDataUrl_onload _ dataUrl ss ue (finish i s))).
  - left. by destruct (inflight s !! i) as [[]|].
Qed.

Lemma run_store_keyed evs s :
  (∀ m, db s = Some m → store_keyed m) →
  ∀ m, db (run evs s) = Some m → store_keyed m.
Proof.
  revert s. induction evs as [|ev evs IH]; intros s Hs; [done|].
  apply IH. intros m Hm.
  destruct (step_db ev s) as [H|[H|[[rs H]|(m0 & e & H0 & H)]]];
    rewrite H in Hm.
  - by apply Hs.
  - injection Hm as <-. intros k x Hx. by rewrite lookup_empty in Hx.
  - injection Hm as <-. apply store_keyed_store_of.
  - injection Hm as <-. by apply store_keyed_put, Hs.
Qed.

Lemma history_inv_ready : history_inv ready.
Proof. split; [cbn; lia|]. split; [constructor|]. split; [done|constructor]. Qed.

(** X15. Whatever the sequence of events, the history list holds at most
    ten entries, each of them an entry object that exists, and so are the
    current entry and the entries of the cached loads in flight; [getAll]
    returns at most ten entries, and with a store they come most recent
    first and no two of them share an [id]. *)
Theorem history_invariants (evs : list Event) :
  let s := run evs ready in
  history_inv s
  ∧ (length (getAll s) ≤ 10)%nat
  ∧ (∀ m, db s = Some m →
          store_keyed m ∧ newest_first (getAll s)
          ∧ NoDup (UploadEntry.id <$> getAll s)).
Proof.
  intros s.
  assert (history_inv s) as Hs by apply run_history_inv, history_inv_ready.
  split; [done|]. split; [apply getAll_length, Hs|].
  intros m Hm.
  assert (store_keyed m) as Hk by by apply (run_store_keyed evs ready).
  split; [done|]. split; [by apply (getAll_store_newest_first s m)|].
  rewrite (getAll_store s m Hm), fmap_take.
  eapply sublist_NoDup; [|apply sublist_take]. by apply cursor_prev_NoDup_id.
Qed.

(** ** Opening the store *)

Lemma store_of_lookup records k e :
  store_of records !! k = Some e → e ∈ records.
Proof.
  induction records as [|r rs IH]; cbn.
  - intros H. by rewrite lookup_empty in H.
  - unfold store_put. destruct (decide (UploadEntry.id r = k)) as [<-|Hne].
    + rewrite lookup_insert_eq. intros [= <-]. by left.
    + rewrite lookup_insert_ne by done. intros H. right. by apply IH.
Qed.

(** X16. When the IndexedDB connection opens, the history becomes the ten
    most recent stored records, whatever the in-memory list held: entries
    uploaded before the store was ready are no longer listed and are not in
    the store.  The current entry and the texture on the globe stay. *)
Theorem store_opening_replaces_session_history
    (s : State) (records : list UploadEntry.t) :
  let s' := step (DbOpened records) s in
  db s' = Some (store_of records)
  ∧ history_view s' = take 10 (cursor_prev (store_of records))
  ∧ getAll s' = history_view s'
  ∧ (∀ e, e ∈ history_view s' → e ∈ records)
  ∧ currentUploadEntry s' = currentUploadEntry s
  ∧ gfx s' = gfx s.
Proof.
  intros s'.
  assert (db (set_db (Some (store_of records)) s) = Some (store_of records))
    as Hdb0 by reflexivity.
  pose proof (hist_loadUploadHistory_store _ _ Hdb0) as Hh.
  assert (history_view s' = take 10 (cursor_prev (store_of records))) as Hv.
  { change (history_view s')
      with (getAll (set_db (Some (store_of records)) s)).
    by apply getAll_store. }
  assert (gfx s' = gfx s) as Hg.
  { unfold s', step, initIndexedDB_onsuccess. by rewrite gfx_loadUploadHistory. }
  change (loadUploadHistory (set_db (Some (store_of records)) s)) with s' in Hh.
  clearbody s'. pose proof (db_of_hist _ _ _ _ _ Hh) as Hdb.
  unfold hist in Hh. injection Hh as _ _ Hc _.
  split; [done|]. split; [done|].
  split; [by rewrite Hv, (getAll_store s' _ Hdb)|].
  split; [|done].
  intros e He. rewrite Hv in He.
  apply subseteq_take, elem_of_cursor_prev in He as [k Hk].
  by apply (store_of_lookup records k).
Qed.

(** ** Projections of the history side *)

Lemma current_of_hist s h u c d :
  hist s = (h, u, c, d) → currentUploadEntry s = c.
Proof. unfold hist. by intros [= _ _ <- _]. Qed.

(** ** What [loadTexture] accepts *)

Lemma app_singleton_neq {A} (l : list A) (x : A) : l ++ [x] ≠ l.
Proof.
  intros H. apply (f_equal length) in H. rewrite length_app in H. cbn in H. lia.
Qed.

(** X18. A dropped file is read exactly when its type is one of the four
    accepted ones; its size never prevents the read.  An accepted file is
    announced on the loading overlay, preceded by the size warning exactly
    when it has more than 52428800 bytes; a file of exactly that size gets
    no warning.  In no case does the call change the viewer itself. *)
Theorem loadTexture_reads_accepted_types (file : File.t) (s : State) :
  let s' := loadTexture file s in
  persistent_state s' = persistent_state s
  ∧ (File.type file ∈ validTypes ↔ inflight s' = inflight s ++ [ReadingFile file])
  ∧ (File.type file ∉ validTypes ↔ inflight s' = inflight s)
  ∧ (File.type file ∈ validTypes →
     loadingVisible s' = true
     ∧ effects s'
       = effects s
         ++ (if 52428800 <? File.size file
             then [ShowError
                     "Image file is quite large and may cause performance issues"]
             else [])
         ++ [ShowLoading ("Loading " +:+ File.name file +:+ "...");
             ReadAsDataURL file]).
Proof.
  intros s'. unfold s', loadTexture.
  destruct (includes validTypes (File.type file)) eqn:E; cbn [negb].
  - assert (File.type file ∈ validTypes) as Hin by by apply includes_spec.
    change maxSize with 52428800.
    destruct (52428800 <? File.size file); destruct s; cbn;
      rewrite <- ?app_assoc; (split; [done|]); (split; [done|]);
      (split; [|done]); (split; [done|]); intros H; by apply app_singleton_neq in H.
  - assert (File.type file ∉ validTypes) as Hnot.
    { intros Hin%includes_spec. congruence. }
    destruct s; cbn. split; [done|]. split; [|split; [done|done]].
    split; [done|]. intros H. symmetry in H. by apply app_singleton_neq in H.
Qed.

Lemma loadTexture_reads_accepted_types_witness :
  let file := File.mk "big.webp" "image/webp" 52428800 in
  loadingVisible (loadTexture file ready) = true
  ∧ effects (loadTexture file ready)
    = [ShowLoading "Loading big.webp..."; ReadAsDataURL file].
Proof.
  apply (proj2 (proj2 (proj2 (loadTexture_reads_accepted_types
                                (File.mk "big.webp" "image/webp" 52428800) ready)))).
  apply includes_spec. reflexivity.
Defined.

(** ** Saving without a current entry *)

Lemma step_keeps_no_entry ev s :
  starts_entry_load ev = false →
  currentUploadEntry s = None →
  Forall (λ t, keeps_current_entry t = true) (inflight s) →
  currentUploadEntry (step ev s) = None
  ∧ Forall (λ t, keeps_current_entry t = true) (inflight (step ev s)).
Proof.
  intros Hev Hcur Hin.
  destruct ev as [file|url|l| | | | |v|v|v|p q|records|i r|i|i env|i];
    try discriminate Hev; unfold step.
  - split; [done|]. change (inflight (loadTextureFromUrl url s))
      with (inflight s ++ [DecodingUrl url]).
    apply Forall_app. split; [done|]. by constructor.
  - unfold saveCurrentSettings. by rewrite Hcur.
  - rewrite (current_of_hist _ _ _ _ _ (hist_clearUploadHistory s)).
    by rewrite inflight_clearUploadHistory.
  - done.
  - unfold controls_start. by destruct (autoRotate s).
  - done.
  - done.
  - done.
  - done.
  - unfold initIndexedDB_onsuccess. rewrite inflight_loadUploadHistory.
    split; [|done].
    assert (db (set_db (Some (store_of records)) s) = Some (store_of records))
      as Hdb by reflexivity.
    by rewrite (current_of_hist _ _ _ _ _ (hist_loadUploadHistory_store _ _ Hdb)).
  - destruct (inflight s !! i) as [t|] eqn:Hi; [|done].
    pose proof Hin as Hin'. rewrite Forall_forall in Hin'.
    pose proof (Hin' t (list_elem_of_lookup_2 _ _ _ Hi)) as Ht.
    destruct t; try discriminate Ht. cbv beta iota. by split.
  - destruct (inflight s !! i) as [t|] eqn:Hi; [|done].
    pose proof Hin as Hin'. rewrite Forall_forall in Hin'.
    pose proof (Hin' t (list_elem_of_lookup_2 _ _ _ Hi)) as Ht.
    destruct t; try discriminate Ht. cbv beta iota. by split.
  - destruct (inflight s !! i) as [t|] eqn:Hi; [|done].
    pose proof Hin as Hin'. rewrite Forall_forall in Hin'.
    pose proof (Hin' t (list_elem_of_lookup_2 _ _ _ Hi)) as Ht.
    destruct t as [| |url|]; try discriminate Ht. cbv beta iota.
    rewrite inflight_loadTextureFromUrl_onload. split; [|by apply Forall_delete].
    by rewrite (current_of_hist _ _ _ _ _
                 (eq_trans (hist_loadTextureFromUrl_onload url (finish i s))
                           (hist_eta _))).
  - destruct (inflight s !! i) as [t|] eqn:Hi; [|done].
    pose proof Hin as Hin'. rewrite Forall_forall in Hin'.
    pose proof (Hin' t (list_elem_of_lookup_2 _ _ _ Hi)) as Ht.
    destruct t as [| |url|]; try discriminate Ht. cbv beta iota.
    split; [done|]. by apply Forall_delete.
Qed.

Lemma run_keeps_no_entry evs s :
  Forall (λ ev, starts_entry_load ev = false) evs →
  currentUploadEntry s = None →
  Forall (λ t, keeps_current_entry t = true) (inflight s) →
  currentUploadEntry (run evs s) = None.
Proof.
  revert s. induction evs as [|ev evs IH]; intros s Hevs Hcur Hin; [done|].
  apply Forall_cons in Hevs as [Hev Hevs].
  destruct (step_keeps_no_entry ev s Hev Hcur Hin) as [Hcur' Hin'].
  by apply IH.
Qed.

(** X19. As long as no file has been dropped and no history entry has been
    selected, whatever presets were loaded and whatever else was done,
    there is no current entry, and "save current view" only shows its
    alert: nothing is saved and nothing in the viewer changes. *)
Theorem save_without_entry_only_alerts (evs : list Event) :
  Forall (λ ev, starts_entry_load ev = false) evs →
  let s := run evs ready in
  currentUploadEntry s = None
  ∧ persistent_state (step ClickSave s) = persistent_state s
  ∧ inflight (step ClickSave s) = inflight s
  ∧ effects (step ClickSave s)
    = effects s ++
      [Alert "No uploaded texture to save settings for. Please upload an image first."].
Proof.
  intros Hevs s.
  assert (currentUploadEntry s = None) as Hcur
    by (apply run_keeps_no_entry; [done|done|constructor]).
  split; [done|]. unfold step, saveCurrentSettings. rewrite Hcur.
  by repeat split.
Qed.

Lemma save_without_entry_only_alerts_witness :
  let s := run [ClickPreset "assets/moon.jpg"; ImgLoaded 0 (mkEnv 0 "" 0);
                AmbientInput 2; ClickClear] ready in
  currentUploadEntry s = None
  ∧ persistent_state (step ClickSave s) = persistent_state s.
Proof.
  destruct (save_without_entry_only_alerts
              [ClickPreset "assets/moon.jpg"; ImgLoaded 0 (mkEnv 0 "" 0);
               AmbientInput 2; ClickClear]) as (Hc & Hp & _).
  - repeat constructor.
  - split; [exact Hc|exact Hp].
Defined.

(** ** Adjusting the view *)

Lemma step_view_event ev s :
  view_event ev = true →
  gfx (step ev s) = gfx s ∧ hist (step ev s) = hist s
  ∧ inflight (step ev s) = inflight s
  ∧ loadingVisible (step ev s) = loadingVisible s.
Proof.
  intros Hev.
  destruct ev as [file|url|l| | | | |v|v|v|p q|records|i r|i|i env|i];
    try discriminate Hev; unfold step; try by repeat split.
  unfold controls_start. by destruct (autoRotate s).
Qed.

(** X20. The sliders, orbiting and the rotation button, in any number and
    order, leave the texture on the globe, the upload history with its
    store and current entry, the pending loads and the loading overlay as
    they are. *)
Theorem view_events_keep_textures_and_history (evs : list Event) (s : State) :
  Forall (λ ev, view_event ev = true) evs →
  gfx (run evs s) = gfx s ∧ hist (run evs s) = hist s
  ∧ inflight (run evs s) = inflight s
  ∧ loadingVisible (run evs s) = loadingVisible s.
Proof.
  revert s. induction evs as [|ev evs IH]; intros s Hevs; [done|].
  apply Forall_cons in Hevs as [Hev Hevs].
  destruct (step_view_event ev s Hev) as (Hg & Hh & Hi & Hl).
  destruct (IH (step ev s) Hevs) as (Hg' & Hh' & Hi' & Hl').
  change (run (ev :: evs) s) with (run evs (step ev s)).
  rewrite Hg', Hh', Hi', Hl'. by repeat split.
Qed.

Lemma view_events_keep_textures_and_history_witness :
  let evs := [AmbientInput 3; Orbit (mkVec3 0 0 9) (mkVec3 0 0 0);
              ClickAutoRotate; ControlsStart] in
  gfx (run evs (run (sample_upload 1) ready)) = gfx (run (sample_upload 1) ready)
  ∧ hist (run evs (run (sample_upload 1) ready)) = hist (run (sample_upload 1) ready).
Proof.
  destruct (view_events_keep_textures_and_history
              [AmbientInput 3; Orbit (mkVec3 0 0 9) (mkVec3 0 0 0);
               ClickAutoRotate; ControlsStart] (run (sample_upload 1) ready)) as (Hg & Hh & _).
  - repeat constructor.
  - split; [exact Hg|exact Hh].
Defined.

(** ** Textures across a whole session *)

Lemma texture_inv_with_frame leak s s' :
  gfx s' = gfx s → texture_inv_with leak s → texture_inv_with leak s'.
Proof.
  unfold gfx, texture_inv_with. intros [= Ht Hd Hm Hc]. by rewrite Ht, Hd, Hm, Hc.
Qed.

Lemma texture_inv_with_swapped leak src s s' :
  gfx s' = gfx_swapped src s →
  texture_inv_with leak s → texture_inv_with leak s'.
Proof.
  unfold gfx, gfx_swapped, texture_inv_with.
  intros [= Ht Hd Hm Hc] (Hnd & Hmat & Hdis & Hcur & Hleak & Hall).
  rewrite Ht, Hd, Hm, Hc, length_app. cbn [length].
  assert (∀ t, t ∈ disposed s ++ option_list (currentTexture s) →
               (t < length (textures s))%nat) as Hold.
  { intros t [Hin|Hin]%elem_of_app; [by apply Hdis|].
    destruct (currentTexture s) as [t0|]; [|inversion Hin].
    apply list_elem_of_singleton in Hin as ->. by destruct (Hcur t0 eq_refl). }
  split; [|split; [done|split; [|split; [|split]]]].
  - apply NoDup_app. split; [done|]. split.
    + intros x Hx Hx'. destruct (currentTexture s) as [t0|]; [|inversion Hx'].
      apply list_elem_of_singleton in Hx' as ->. by destruct (Hcur t0 eq_refl).
    + destruct (currentTexture s); [apply NoDup_singleton|constructor].
  - intros t Hin. apply Hold in Hin. lia.
  - intros t [= <-]. split; [lia|]. intros Hin. apply Hold in Hin. lia.
  - intros t0 Ht0. destruct (Hleak t0 Ht0) as (Hnot & t & Hct & Hlt).
    destruct (Hcur t Hct) as [Hlen _].
    split; [|exists (length (textures s)); split; [done|lia]].
    rewrite Hct. intros [Hin|Hin]%elem_of_app; [done|].
    apply list_elem_of_singleton in Hin. lia.
  - intros t Hlt. destruct (decide (t = length (textures s))) as [->|Hne];
      [right; by left|].
    destruct (Hall t) as [?|[Hc'|?]]; [lia|left|left|right; by right].
    + apply elem_of_app. by left.
    + apply elem_of_app. right. rewrite Hc'. by apply list_elem_of_singleton.
Qed.

(** The fallback: the texture bound so far, if any, is left behind. *)
Lemma texture_inv_with_fallback s s' :
  gfx s' = (textures s ++ [fallback_image], disposed s,
            Some (length (textures s)), Some (length (textures s))) →
  texture_inv_with None s → texture_inv_with (currentTexture s) s'.
Proof.
  unfold gfx, texture_inv_with.
  intros [= Ht Hd Hm Hc] (Hnd & Hmat & Hdis & Hcur & _ & Hall).
  rewrite Ht, Hd, Hm, Hc, length_app. cbn [length].
  split; [done|]. split; [done|]. split; [|split; [|split]].
  - intros t Hin. apply Hdis in Hin. lia.
  - intros t [= <-]. split; [lia|]. intros Hin. apply Hdis in Hin. lia.
  - intros t0 Ht0. destruct (Hcur t0 Ht0) as [Hlt Hnot].
    split; [done|]. by exists (length (textures s)).
  - intros t Hlt. destruct (decide (t = length (textures s))) as [->|Hne];
      [right; by left|].
    destruct (Hall t) as [?|[?|?]]; [lia|by left|right; by right|done].
Qed.

Lemma texture_inv_with_constructed : texture_inv_with None constructed.
Proof.
  split; [constructor|]. split; [done|]. split; [|split; [|split]].
  - intros t Hin. inversion Hin.
  - intros t Ht. discriminate Ht.
  - intros t0 Ht0. discriminate Ht0.
  - intros t Hlt. cbn in Hlt. lia.
Qed.

Lemma step_texture_inv_with leak ev s :
  texture_inv_with leak s → texture_inv_with leak (step ev s).
Proof.
  intros Hinv. destruct (step_gfx ev s) as [Hg|[src Hg]].
  - by apply (texture_inv_with_frame leak s).
  - by apply (texture_inv_with_swapped leak src s).
Qed.

(** As long as the default image does not fail, nothing new is left
    behind. *)
Lemma happen_texture_inv_with leak h s :
  h ≠ DefaultImage false →
  texture_inv_with leak s → texture_inv_with leak (happen h s).
Proof.
  intros Hh Hinv. destruct h as [ev|[|]]; [| |done]; unfold happen.
  - by apply step_texture_inv_with.
  - apply (texture_inv_with_swapped leak default_image s); [|done].
    apply gfx_loadDefaultTexture_onload.
Qed.

Lemma session_from_texture_inv_with leak hs s :
  List.filter is_outcome hs = [] →
  texture_inv_with leak s → texture_inv_with leak (session_from hs s).
Proof.
  revert s. induction hs as [|h hs IH]; intros s Hhs Hinv; [done|].
  destruct h as [ev|b]; cbn in Hhs; [|done].
  apply (IH (happen (Ev ev) s) Hhs). by apply happen_texture_inv_with.
Qed.

Lemma settles_once_cons_Ev ev hs :
  settles_once (Ev ev :: hs) = settles_once hs.
Proof. reflexivity. Qed.

Lemma settles_once_cons_outcome b hs :
  settles_once (DefaultImage b :: hs) = true → List.filter is_outcome hs = [].
Proof.
  unfold settles_once. cbn. intros H%Nat.leb_le.
  destruct (List.filter is_outcome hs); [done|cbn in H; lia].
Qed.

Lemma settles_once_no_outcome hs :
  List.filter is_outcome hs = [] → settles_once hs = true.
Proof. unfold settles_once. by intros ->. Qed.

Lemma leaked_from_no_outcome hs s :
  List.filter is_outcome hs = [] → leaked_from hs s = None.
Proof.
  revert s. induction hs as [|[ev|b] hs IH]; intros s Hhs; [done| |done].
  cbn in *. by apply IH.
Qed.

Lemma session_from_textures hs s :
  settles_once hs = true → texture_inv_with None s →
  texture_inv_with (leaked_from hs s) (session_from hs s).
Proof.
  revert s. induction hs as [|h hs IH]; intros s Hhs Hinv; [done|].
  destruct h as [ev|[|]].
  - apply (IH (happen (Ev ev) s)); [done|]. by apply happen_texture_inv_with.
  - apply settles_once_cons_outcome in Hhs.
    apply (IH (happen (DefaultImage true) s));
      [by apply settles_once_no_outcome|].
    by apply happen_texture_inv_with.
  - apply settles_once_cons_outcome in Hhs.
    change (leaked_from (DefaultImage false :: hs) s) with (currentTexture s).
    change (session_from (DefaultImage false :: hs) s)
      with (session_from hs (loadDefaultTexture_onerror true s)).
    apply session_from_texture_inv_with; [done|].
    apply (texture_inv_with_fallback s); [|done].
    apply gfx_loadDefaultTexture_onerror.
Qed.

Lemma StronglySorted_seq a n : StronglySorted lt (seq a n).
Proof.
  revert a. induction n as [|n IH]; intros a; cbn; constructor; [apply IH|].
  apply Forall_forall. intros x Hx%elem_of_seq. lia.
Qed.

Lemma StronglySorted_filter_lt (P : nat → Prop) `{!∀ x, Decision (P x)} l :
  StronglySorted lt l → StronglySorted lt (filter P l).
Proof.
  induction 1 as [|x l Hl IH Hx]; [constructor|].
  rewrite filter_cons. destruct (decide (P x)); [|done].
  constructor; [done|]. apply Forall_forall. intros y Hy%list_elem_of_filter.
  rewrite Forall_forall in Hx. apply Hx, Hy.
Qed.

(** The textures that are alive: the one left behind by the fallback, if
    any, and the current one. *)
Lemma live_textures_with leak s :
  texture_inv_with leak s →
  live_textures s = option_list leak ++ option_list (currentTexture s).
Proof.
  intros (Hnd & Hmat & Hdis & Hcur & Hleak & Hall).
  apply (StronglySorted_unique_strong lt).
  - intros x y _ _ Hxy Hyx. lia.
  - unfold live_textures. apply StronglySorted_filter_lt, StronglySorted_seq.
  - destruct leak as [t0|], (currentTexture s) as [t|] eqn:Ec; cbn;
      repeat constructor.
    destruct (Hleak t0 eq_refl) as (_ & t' & [= <-] & Hlt). done.
  - apply NoDup_Permutation.
    + unfold live_textures. apply NoDup_filter, NoDup_seq.
    + destruct leak as [t0|], (currentTexture s) as [t|] eqn:Ec; cbn;
        repeat constructor; try (by intros H; inversion H).
      destruct (Hleak t0 eq_refl) as (_ & t' & [= <-] & Hlt).
      intros H%list_elem_of_singleton. lia.
    + intros x. rewrite elem_of_live_textures, elem_of_app.
      split.
      * intros [Hnot Hlt]. destruct (Hall x Hlt) as [?|[Hc| ->]]; [done|right|left].
        -- rewrite Hc. by left.
        -- by left.
      * intros [Hx|Hx].
        -- destruct leak as [t0|]; [|inversion Hx].
           apply list_elem_of_singleton in Hx as ->.
           destruct (Hleak t0 eq_refl) as (Hnot & t & Hct & Hlt).
           destruct (Hcur t Hct). split; [done|lia].
        -- destruct (currentTexture s) as [t|] eqn:Ec; [|inversion Hx].
           apply list_elem_of_singleton in Hx as ->.
           destruct (Hcur t eq_refl). by split.
Qed.

Lemma session_from_app hs hs' s :
  session_from (hs ++ hs') s = session_from hs' (session_from hs s).
Proof. apply fold_left_app. Qed.

Lemma session_Ev evs s :
  session_from (Ev <$> evs) s = run evs s.
Proof.
  revert s. induction evs as [|ev evs IH]; intros s; [done|]. apply IH.
Qed.

Lemma current_of_gfx s a b c d : gfx s = (a, b, c, d) → currentTexture s = d.
Proof. unfold gfx. by intros [= _ _ _ <-]. Qed.

Lemma settled_is_bound hs s :
  List.filter is_outcome hs ≠ [] → is_Some (currentTexture (session_from hs s)).
Proof.
  revert s. induction hs as [|h hs IH] using rev_ind; intros s Hhs; [done|].
  rewrite session_from_app. cbn [session_from fold_left].
  rewrite List.filter_app in Hhs.
  destruct h as [ev|b].
  - cbn in Hhs. rewrite app_nil_r in Hhs. specialize (IH s Hhs).
    set (x := session_from hs s) in *. clearbody x. unfold happen.
    destruct (step_gfx ev x) as [Hg|[src Hg]].
    + by rewrite (current_of_gfx _ _ _ _ _ Hg).
    + rewrite (current_of_gfx _ _ _ _ _ Hg). by eexists.
  - set (x := session_from hs s). clearbody x. destruct b; unfold happen.
    + rewrite (current_of_gfx _ _ _ _ _ (gfx_loadDefaultTexture_onload true x)).
      by eexists.
    + rewrite (current_of_gfx _ _ _ _ _ (gfx_loadDefaultTexture_onerror true x)).
      by eexists.
Qed.

(** X6. Over a whole session, from the constructor on and with the default
    image loading or failing at any moment, no texture is released twice
    and the texture on the material is the one the viewer holds as
    current.  The textures alive are the current one and, before it, the
    one the fallback has left behind: the texture that was bound when the
    default image failed is never released.  So exactly one texture is
    alive once the default image has settled, unless it failed after a
    load had completed: from then on exactly two are. *)
Theorem textures_released_except_fallback_leak (hs : list Happening) :
  settles_once hs = true →
  let s := session hs in
  NoDup (disposed s)
  ∧ material_map s = currentTexture s
  ∧ live_textures s = option_list (leaked hs) ++ option_list (currentTexture s)
  ∧ (List.filter is_outcome hs ≠ [] →
     ∃ t, currentTexture s = Some t
          ∧ match leaked hs with
            | None =>
                live_textures s = [t]
                ∧ (length (disposed s) + 1 = length (textures s))%nat
            | Some t0 =>
                live_textures s = [t0; t]
                ∧ (length (disposed s) + 2 = length (textures s))%nat
            end).
Proof.
  intros Hhs s.
  pose proof (session_from_textures hs constructed Hhs
                texture_inv_with_constructed) as Hinv.
  fold (leaked hs) in Hinv. fold (session hs) in Hinv. fold s in Hinv.
  pose proof (live_textures_with _ _ Hinv) as Hlive.
  pose proof Hinv as (Hnd & Hmat & Hdis & Hcur & Hleak & Hall).
  split; [done|]. split; [done|]. split; [done|].
  intros Hset. destruct (settled_is_bound hs constructed Hset) as [t Ht].
  fold (session hs) in Ht. fold s in Ht.
  exists t. split; [done|].
  assert (disposed s ++ live_textures s ≡ₚ seq 0 (length (textures s))) as Hp.
  { apply NoDup_Permutation.
    - apply NoDup_app. split; [done|]. split.
      + intros x Hx [Hx' _]%elem_of_live_textures. done.
      + unfold live_textures. apply NoDup_filter, NoDup_seq.
    - apply NoDup_seq.
    - intros x. rewrite elem_of_app, elem_of_live_textures, elem_of_seq.
      split.
      + intros [Hx|[_ Hx]]; [apply Hdis in Hx|]; lia.
      + intros [_ Hx]. destruct (decide (x ∈ disposed s)); [by left|by right]. }
  apply Permutation_length in Hp. rewrite length_app, length_seq in Hp.
  rewrite Hlive, Ht in Hp |- *.
  destruct (leaked hs) as [t0|]; cbn in Hp |- *; (split; [done|lia]).
Qed.

Lemma textures_released_except_fallback_leak_witness :
  let file := File.mk "earth.jpg" "image/jpeg" 2000000 in
  let uploaded := Ev <$> upload file "data:earth" (mkEnv 1001 "data:thumb" 1000) in
  let preset := [Ev (ClickPreset "assets/moon.jpg"); Ev (ImgLoaded 0 (mkEnv 0 "" 0))] in
  live_textures (session (DefaultImage true :: uploaded ++ preset)) = [2%nat]
  ∧ live_textures (session (DefaultImage false :: uploaded ++ preset)) = [2%nat]
  ∧ live_textures (session (uploaded ++ DefaultImage false :: preset))
    = [0%nat; 2%nat]
  ∧ bound_image (session (uploaded ++ DefaultImage false :: preset))
    = Some "assets/moon.jpg".
Proof.
  cbv zeta.
  set (uploaded := Ev <$> upload _ _ _).
  set (preset := [Ev (ClickPreset _); _]).
  split; [|split; [|split]].
  - destruct (textures_released_except_fallback_leak
                (DefaultImage true :: uploaded ++ preset) eq_refl)
      as (_ & _ & _ & Hl).
    destruct Hl as (t & Ht & Hl); [discriminate|].
    assert (currentTexture (session (DefaultImage true :: uploaded ++ preset))
            = Some 2%nat) as Hc by (vm_compute; reflexivity).
    rewrite Hc in Ht. injection Ht as <-. exact (proj1 Hl).
  - destruct (textures_released_except_fallback_leak
                (DefaultImage false :: uploaded ++ preset) eq_refl)
      as (_ & _ & _ & Hl).
    destruct Hl as (t & Ht & Hl); [discriminate|].
    assert (currentTexture (session (DefaultImage false :: uploaded ++ preset))
            = Some 2%nat) as Hc by (vm_compute; reflexivity).
    rewrite Hc in Ht. injection Ht as <-. exact (proj1 Hl).
  - destruct (textures_released_except_fallback_leak
                (uploaded ++ DefaultImage false :: preset) eq_refl)
      as (_ & _ & Hl & _).
    rewrite Hl. vm_compute. reflexivity.
  - vm_compute. reflexivity.
Defined.


(** ** Overlapping loads, in a whole session *)



(** ** Settings the viewer wrote *)

Lemma settings_inv_intro s' h u c d :
  hist s' = (h, u, c, d) →
  Forall (λ e, entry_written_by_viewer e = true) h →
  (∀ m k e, d = Some m → m !! k = Some e → entry_written_by_viewer e = true) →
  Forall (λ t, task_written_by_viewer t = true) (inflight s') →
  settings_inv s'.
Proof.
  intros Hh Hheap Hdb Hin.
  rewrite <- (heap_of_hist _ _ _ _ _ Hh) in Hheap.
  rewrite <- (db_of_hist _ _ _ _ _ Hh) in Hdb.
  by split; [|split].
Qed.

Lemma settings_inv_same s s' :
  hist s' = hist s → inflight s' = inflight s →
  settings_inv s → settings_inv s'.
Proof.
  intros Hh Hi (Hheap & Hdb & Hin).
  apply (settings_inv_intro s' _ _ _ _ Hh); [done|done|by rewrite Hi].
Qed.

Lemma settings_inv_spawn t s :
  task_written_by_viewer t = true → settings_inv s → settings_inv (spawn t s).
Proof.
  intros Ht (Hheap & Hdb & Hin).
  apply (settings_inv_intro _ _ _ _ _ (hist_spawn t s)); [done|done|].
  change (inflight (spawn t s)) with (inflight s ++ [t]).
  apply Forall_app. split; [done|]. by constructor.
Qed.

Lemma settings_inv_finish i s : settings_inv s → settings_inv (finish i s).
Proof.
  intros (Hheap & Hdb & Hin).
  apply (settings_inv_intro _ _ _ _ _ (hist_finish i s)); [done|done|].
  by apply Forall_delete.
Qed.

Lemma cursor_prev_written m :
  (∀ k e, m !! k = Some e → entry_written_by_viewer e = true) →
  Forall (λ e, entry_written_by_viewer e = true) (cursor_prev m).
Proof.
  intros Hm. apply Forall_forall. intros e [k Hk]%elem_of_cursor_prev.
  by apply (Hm k).
Qed.

Lemma store_put_written e m :
  entry_written_by_viewer e = true →
  (∀ k x, m !! k = Some x → entry_written_by_viewer x = true) →
  ∀ k x, store_put e m !! k = Some x → entry_written_by_viewer x = true.
Proof.
  intros He Hm k x. unfold store_put.
  destruct (decide (UploadEntry.id e = k)) as [<-|Hne].
  - rewrite lookup_insert_eq. by intros [= <-].
  - rewrite lookup_insert_ne by done. apply Hm.
Qed.

Lemma settings_inv_loadUploadHistory s :
  settings_inv s → settings_inv (loadUploadHistory s).
Proof.
  intros Hs. destruct (db s) as [m|] eqn:E;
    [|by rewrite loadUploadHistory_memory].
  destruct Hs as (Hheap & Hdb & Hin).
  apply (settings_inv_intro _ _ _ _ _ (hist_loadUploadHistory_store s m E)).
  - apply Forall_app. split; [done|]. apply cursor_prev_written.
    intros k e. by apply Hdb.
  - intros m' k e [= <-]. by apply Hdb.
  - by rewrite inflight_loadUploadHistory.
Qed.

Lemma settings_inv_saveTextureToIndexedDB l s :
  settings_inv s → settings_inv (saveTextureToIndexedDB l s).
Proof.
  intros Hs. destruct (db s) as [m|] eqn:E; destruct Hs as (Hheap & Hdb & Hin).
  - destruct (heap s !! l) as [e|] eqn:He.
    + assert (entry_written_by_viewer e = true) as Hw.
      { rewrite Forall_forall in Hheap. apply Hheap.
        by eapply list_elem_of_lookup_2. }
      apply (settings_inv_intro _ _ _ _ _
               (hist_saveTextureToIndexedDB_store l s m e E He)).
      * apply Forall_app. split; [done|]. apply cursor_prev_written.
        apply store_put_written; [done|]. intros k x. by apply Hdb.
      * intros m' k x [= <-]. apply store_put_written; [done|].
        intros k' x'. by apply Hdb.
      * by rewrite inflight_saveTextureToIndexedDB.
    + unfold saveTextureToIndexedDB. rewrite E, He. by split; [|split].
  - apply (settings_inv_intro _ _ _ _ _
             (hist_saveTextureToIndexedDB_memory l s E)); [done|done|].
    by rewrite inflight_saveTextureToIndexedDB.
Qed.

Lemma settings_inv_saveCurrentSettings s :
  settings_inv s → settings_inv (saveCurrentSettings s).
Proof.
  intros Hs. unfold saveCurrentSettings.
  destruct (currentUploadEntry s) as [l|] eqn:E.
  - apply settings_inv_saveTextureToIndexedDB.
    destruct Hs as (Hheap & Hdb & Hin).
    apply (settings_inv_intro _ _ _ _ _ (hist_set_heap _ s)); [|done|done].
    apply Forall_alter; [done|]. by intros e _.
  - by apply (settings_inv_same s).
Qed.

Lemma settings_inv_addToUploadHistory file src env s :
  settings_inv s → settings_inv (addToUploadHistory file src env s).
Proof.
  intros (Hheap & Hdb & Hin). unfold addToUploadHistory. cbv zeta.
  apply settings_inv_saveTextureToIndexedDB.
  eapply settings_inv_intro; [apply hist_eta|..];
    cbn [heap db inflight set_heap set_currentUploadEntry]; [|done|done].
  apply Forall_app. split; [done|]. by constructor.
Qed.

Lemma settings_inv_loadTexture_img_onload file src env s :
  settings_inv s → settings_inv (loadTexture_img_onload file src env s).
Proof.
  intros Hs. unfold loadTexture_img_onload. cbv zeta.
  assert (settings_inv (addToUploadHistory file src env
                          (updateLighting (swap_texture src s)))) as H.
  { apply settings_inv_addToUploadHistory.
    apply (settings_inv_same s); [by autorewrite with frame..|done]. }
  rotation_cases; (eapply settings_inv_same; [| |exact H]);
    by autorewrite with frame.
Qed.

Lemma settings_inv_store_of records :
  forallb entry_written_by_viewer records = true →
  ∀ k e, store_of records !! k = Some e → entry_written_by_viewer e = true.
Proof.
  intros Hr k e He. apply store_of_lookup in He.
  rewrite forallb_forall in Hr. apply Hr. by apply list_elem_of_In.
Qed.

(** What the viewer does keeps the settings it holds its own, as long as
    the store delivers records it wrote. *)
Lemma step_settings_inv ev s :
  stored_by_viewer [Ev ev] = true → settings_inv s → settings_inv (step ev s).
Proof.
  intros Hev Hs.
  destruct ev as [file|url|l| | | | |v|v|v|p q|records|i r|i|i env|i];
    unfold step.
  - unfold loadTexture. destruct (negb _).
    { by apply (settings_inv_same s). }
    destruct (maxSize <? _); apply settings_inv_spawn; try done;
      by apply (settings_inv_same s).
  - unfold loadTextureFromUrl. apply settings_inv_spawn; [done|].
    by apply (settings_inv_same s).
  - case_bool_decide as Hl; [|done]. unfold history_item_click.
    destruct (heap s !! l) as [e|] eqn:He; [|done].
    unfold loadTextureFromDataUrl. apply settings_inv_spawn.
    + destruct Hs as (Hheap & _). rewrite Forall_forall in Hheap.
      apply (Hheap e). by eapply list_elem_of_lookup_2.
    + by apply (settings_inv_same s).
  - by apply settings_inv_saveCurrentSettings.
  - destruct Hs as (Hheap & Hdb & Hin).
    apply (settings_inv_intro _ _ _ _ _ (hist_clearUploadHistory s));
      [done| |by rewrite inflight_clearUploadHistory].
    intros m k e Hm. destruct (db s); [|done]. injection Hm as <-.
    by rewrite lookup_empty.
  - by apply (settings_inv_same s).
  - unfold controls_start. destruct (autoRotate s); [|done].
    by apply (settings_inv_same s).
  - by apply (settings_inv_same s).
  - by apply (settings_inv_same s).
  - by apply (settings_inv_same s).
  - by apply (settings_inv_same s).
  - unfold initIndexedDB_onsuccess. apply settings_inv_loadUploadHistory.
    destruct Hs as (Hheap & Hdb & Hin).
    apply (settings_inv_intro _ _ _ _ _ (hist_set_db _ s)); [done| |done].
    intros m k e [= <-]. apply settings_inv_store_of.
    cbn in Hev. by rewrite andb_true_r in Hev.
  - destruct (inflight s !! i) as [[file| | |]|]; try done.
    unfold loadTexture_reader_onload. apply settings_inv_spawn; [done|].
    eapply settings_inv_same; [| |by apply (settings_inv_finish i)]; done.
  - destruct (inflight s !! i) as [[file| | |]|]; try done.
    eapply settings_inv_same; [| |by apply (settings_inv_finish i)]; done.
  - destruct (inflight s !! i) as [[file|file src|url|dataUrl ss ue]|] eqn:Hi;
      try done.
    + by apply settings_inv_loadTexture_img_onload, settings_inv_finish.
    + eapply settings_inv_same; [| |by apply (settings_inv_finish i)].
      * by rewrite hist_loadTextureFromUrl_onload.
      * by rewrite inflight_loadTextureFromUrl_onload.
    + destruct (settings_inv_finish i s Hs) as (Hheap & Hdb & Hin).
      apply (settings_inv_intro _ _ _ _ _
               (hist_loadTextureFromDataUrl_onload _ dataUrl ss ue (finish i s)));
        [done|done|].
      by rewrite inflight_loadTextureFromDataUrl_onload.
  - destruct (inflight s !! i) as [[file|file src|url|dataUrl ss ue]|];
      try done;
      (eapply settings_inv_same; [| |by apply (settings_inv_finish i)]); done.
Qed.

Lemma hist_loadDefaultTexture_onload skipLoading s :
  hist (loadDefaultTexture_onload skipLoading s) = hist s.
Proof.
  unfold loadDefaultTexture_onload. cbv zeta.
  destruct skipLoading; cbn [negb]; by autorewrite with frame.
Qed.

Lemma inflight_loadDefaultTexture_onload skipLoading s :
  inflight (loadDefaultTexture_onload skipLoading s) = inflight s.
Proof.
  unfold loadDefaultTexture_onload. cbv zeta.
  destruct skipLoading; cbn [negb]; by autorewrite with frame.
Qed.

Lemma hist_loadDefaultTexture_onerror skipLoading s :
  hist (loadDefaultTexture_onerror skipLoading s) = hist s.
Proof. by destruct skipLoading. Qed.

Lemma inflight_loadDefaultTexture_onerror skipLoading s :
  inflight (loadDefaultTexture_onerror skipLoading s) = inflight s.
Proof. by destruct skipLoading. Qed.

Lemma happen_settings_inv h s :
  stored_by_viewer [h] = true → settings_inv s → settings_inv (happen h s).
Proof.
  intros Hh Hs. destruct h as [ev|[|]]; unfold happen.
  - by apply step_settings_inv.
  - apply (settings_inv_same s); [| |done].
    + apply hist_loadDefaultTexture_onload.
    + apply inflight_loadDefaultTexture_onload.
  - apply (settings_inv_same s); [| |done].
    + apply hist_loadDefaultTexture_onerror.
    + apply inflight_loadDefaultTexture_onerror.
Qed.

Lemma session_from_settings_inv hs s :
  stored_by_viewer hs = true → settings_inv s →
  settings_inv (session_from hs s).
Proof.
  revert s. induction hs as [|h hs IH]; intros s Hhs Hs; [done|].
  unfold stored_by_viewer in Hhs. cbn [forallb] in Hhs.
  apply andb_true_iff in Hhs as [Hh Hhs].
  apply (IH (happen h s)); [done|]. apply happen_settings_inv; [|done].
  unfold stored_by_viewer. cbn [forallb]. by rewrite Hh.
Qed.

Lemma settings_inv_constructed : settings_inv constructed.
Proof.
  split; [constructor|]. split; [|constructor]. intros m k e Hm. discriminate Hm.
Qed.

(** ** Saved settings are applied whole *)

(** C6. A cached load carries the settings of a history entry, and these
    are the viewer's own: absent, or the complete object of "save current
    view", provided the store only delivers records the viewer wrote.
    Without settings, lighting and camera stay as they were.  With
    settings, all of them are applied: the three lighting values are
    copied and the lights updated, the camera position and the orbit
    target are written and handed to the update of the orbit controls,
    which leaves the camera where it puts that pose.  Every call made for
    the settings comes after the bind of the new texture. *)
Theorem settings_applied_all_or_none
    (hs : list Happening) (i : nat) (env : Env) (dataUrl : string)
    (savedSettings : option SavedSettings) (uploadEntry : option loc) :
  stored_by_viewer hs = true →
  let s := session hs in
  inflight s !! i = Some (DecodingDataUrl dataUrl savedSettings uploadEntry) →
  let s' := step (ImgLoaded i env) s in
  let t := length (textures s) in
  bound_image s' = Some dataUrl
  ∧ match savedSettings with
    | None =>
        lighting_of s' = lighting_of s
        ∧ (ambientLight_intensity s', directionalLight_intensity s')
          = (ambientLight_intensity s, directionalLight_intensity s)
        ∧ camera_of s' = camera_of s
        ∧ effects s' = effects s ++ release_effects s ++ [Bind t; HideLoading]
    | Some ss =>
        ∃ l c, ss = mkSaved (Some l) (Some c)
          ∧ lighting_of s' = l
          ∧ (ambientLight_intensity s', directionalLight_intensity s')
            = (s_ambientBrightness l, s_directionalBrightness l)
          ∧ camera_of s' = env_controls env (controls_autoRotate s) c
          ∧ effects s'
            = effects s ++ release_effects s
                ++ [Bind t; UpdateLighting;
                    SetCameraPosition (s_position c);
                    SetControlsTarget (s_target c);
                    ControlsUpdate; HideLoading]
    end.
Proof.
  intros Hhs s Hi s' t.
  assert (settings_inv s) as (_ & _ & Hin)
    by (by apply session_from_settings_inv, settings_inv_constructed).
  assert (written_by_viewer savedSettings = true) as Hw.
  { rewrite Forall_forall in Hin.
    apply (Hin (DecodingDataUrl dataUrl savedSettings uploadEntry)).
    by eapply list_elem_of_lookup_2. }
  assert (s' = loadTextureFromDataUrl_onload (env_controls env) dataUrl
                 savedSettings uploadEntry (finish i s)) as Hs'.
  { unfold s', step. by rewrite Hi. }
  destruct (loadTextureFromDataUrl_onload_groups (env_controls env) dataUrl
              savedSettings uploadEntry (finish i s))
    as (Hl & Hint & Hc & He & _ & Hb).
  rewrite <- Hs' in Hl, Hint, Hc, He, Hb. clearbody s' s.
  change (lighting_of (finish i s)) with (lighting_of s) in Hl.
  change (camera_of (finish i s)) with (camera_of s) in Hc.
  change (controls_autoRotate (finish i s)) with (controls_autoRotate s) in Hc.
  change (ambientLight_intensity (finish i s)) with (ambientLight_intensity s)
    in Hint.
  change (directionalLight_intensity (finish i s))
    with (directionalLight_intensity s) in Hint.
  change (effects (finish i s)) with (effects s) in He.
  change (release_effects (finish i s)) with (release_effects s) in He.
  change (textures (finish i s)) with (textures s) in He.
  split; [done|].
  destruct savedSettings as [[[l|] [c|]]|]; try discriminate Hw.
  - exists l, c. by repeat split.
  - by repeat split.
Qed.

Lemma settings_applied_all_or_none_witness :
  let turn : ControlsBehaviour :=
    λ auto pose, if auto then mkCamera (mkVec3 1 0 5) (s_target pose) else pose in
  let hs :=
    DefaultImage true
    :: (Ev <$> upload (File.mk "earth.jpg" "image/jpeg" 2000000) "data:earth"
                 (mkEnv 1001 "data:thumb" 1000))
    ++ [Ev (Orbit (mkVec3 0 0 5) (mkVec3 0 1 0)); Ev ClickSave;
        Ev (AmbientInput 2); Ev (ClickHistory 0)] in
  let s' := step (ImgLoaded 0 (Build_Env 0 "" 0 turn)) (session hs) in
  lighting_of (session hs) = mkLighting 2 (12 # 10) 45
  ∧ bound_image s' = Some "data:earth"
  ∧ lighting_of s' = mkLighting (9 # 10) (12 # 10) 45
  ∧ camera_of s' = mkCamera (mkVec3 1 0 5) (mkVec3 0 1 0).
Proof.
  intros turn hs s'.
  pose (l := mkLighting (9 # 10) (12 # 10) 45).
  pose (c := mkCamera (mkVec3 0 0 5) (mkVec3 0 1 0)).
  destruct (settings_applied_all_or_none hs 0 (Build_Env 0 "" 0 turn)
              "data:earth" (Some (mkSaved (Some l) (Some c))) (Some 0%nat))
    as (Hb & l' & c' & Heq & Hl & _ & Hc & _).
  - reflexivity.
  - vm_compute. reflexivity.
  - injection Heq as <- <-. fold s' in Hb, Hl, Hc.
    split; [vm_compute; reflexivity|]. split; [exact Hb|]. split; [exact Hl|].
    rewrite Hc. vm_compute. reflexivity.
Defined.

(** ** Saved settings: the way back *)

Lemma capture_settings_inj s s0 :
  capture_settings s = capture_settings s0
  ↔ lighting_of s = lighting_of s0 ∧ camera_of s = camera_of s0.
Proof.
  change (capture_settings s)
    with (mkSaved (Some (lighting_of s)) (Some (camera_of s))).
  change (capture_settings s0)
    with (mkSaved (Some (lighting_of s0)) (Some (camera_of s0))).
  split.
  - intros H. split; apply (inj Some).
    + exact (f_equal lighting H).
    + exact (f_equal camera H).
  - by intros [-> ->].
Qed.

(** X17. Selecting a history entry whose saved settings were captured in a
    state [s0] brings back the lighting of [s0], whatever it has become
    since.  The camera is set to the saved position and target and then
    goes through the update of the orbit controls, run while auto-rotation
    is still as it was before the load: the camera ends where the controls
    put the saved pose, so capturing the view again gives the saved
    settings exactly when the controls leave that pose alone.  The entry's
    image is bound, the entry becomes the current one, and auto-rotation
    is off afterwards. *)
Theorem selecting_entry_restores_saved_view
    (s s0 : State) (l : loc) (e : UploadEntry.t) (env : Env) :
  l ∈ uploadHistory s → heap s !! l = Some e →
  UploadEntry.savedSettings e = Some (capture_settings s0) →
  let s' := run [ClickHistory l; ImgLoaded (length (inflight s)) env] s in
  let pose := env_controls env (controls_autoRotate s) (camera_of s0) in
  lighting_of s' = lighting_of s0
  ∧ ambientLight_intensity s' = ambientBrightness s0
  ∧ directionalLight_intensity s' = directionalBrightness s0
  ∧ camera_of s' = pose
  ∧ (capture_settings s' = capture_settings s0 ↔ pose = camera_of s0)
  ∧ bound_image s' = Some (UploadEntry.originalDataUrl e)
  ∧ currentUploadEntry s' = Some l
  ∧ autoRotate s' = false.
Proof.
  intros Hl He Hss s' pose.
  set (t := DecodingDataUrl (UploadEntry.originalDataUrl e)
              (Some (capture_settings s0)) (Some l)).
  set (s1 := step (ClickHistory l) s).
  assert (s1 = spawn t (emit (SetImgSrc (UploadEntry.originalDataUrl e))
                 (showLoading
                    match UploadEntry.name e with
                    | String c n => "Loading " +:+ String c n +:+ "..."
                    | EmptyString => "Loading cached texture..."
                    end s))) as Hs1.
  { unfold s1, step. rewrite bool_decide_eq_true_2 by done.
    unfold history_item_click. rewrite He, Hss. reflexivity. }
  assert (inflight s1 !! length (inflight s) = Some t) as Hi.
  { rewrite Hs1. change (inflight (spawn t ?x)) with (inflight s ++ [t]).
    by apply list_lookup_middle. }
  assert (controls_autoRotate (finish (length (inflight s)) s1)
          = controls_autoRotate s) as Hauto by (by rewrite Hs1).
  assert (s' = loadTextureFromDataUrl_onload (env_controls env)
                 (UploadEntry.originalDataUrl e)
                 (Some (capture_settings s0)) (Some l)
                 (finish (length (inflight s)) s1)) as Hs'.
  { unfold s', run. cbn [fold_left]. fold s1. unfold step. by rewrite Hi. }
  assert (bound_image s' = Some (UploadEntry.originalDataUrl e)) as Hb.
  { apply (decode_completion_binds s1 (length (inflight s)) env t _ Hi eq_refl). }
  clearbody s'. subst s'. set (x := finish _ s1) in *. clearbody x.
  destruct (captured_settings_applied_whole (env_controls env)
              (UploadEntry.originalDataUrl e) (Some l) s0 x)
    as (Hlight & Hamb & Hdir & Hcam).
  rewrite Hauto in Hcam. fold pose in Hcam.
  split; [done|]. split; [done|]. split; [done|]. split; [done|].
  split.
  { rewrite capture_settings_inj, Hcam. by split; [intros [_ ?]|]. }
  split; [done|].
  split; [|apply loadTextureFromDataUrl_onload_autoRotate].
  pose proof (hist_loadTextureFromDataUrl_onload (env_controls env)
                (UploadEntry.originalDataUrl e)
                (Some (capture_settings s0)) (Some l) x) as Hh.
  exact (current_of_hist _ _ _ _ _ Hh).
Qed.

Lemma selecting_entry_restores_saved_view_witness :
  let turn : ControlsBehaviour :=
    λ auto pose, if auto then mkCamera (mkVec3 3 0 1) (s_target pose) else pose in
  let s0 := run (upload (File.mk "earth.jpg" "image/jpeg" 2000000) "data:earth"
                        (mkEnv 1001 "data:thumb" 1000)
                 ++ [AmbientInput (1 # 2); Orbit (mkVec3 1 2 3) (mkVec3 0 0 0)])
                ready in
  let s := run [ClickSave; AmbientInput 2; LightRotationInput 180;
                Orbit (mkVec3 0 0 5) (mkVec3 0 1 0)] s0 in
  let s' := run [ClickHistory 0; ImgLoaded 0 (mkEnv 0 "" 0)] s in
  let s'' := run [ClickHistory 0; ImgLoaded 0 (Build_Env 0 "" 0 turn)] s in
  ¬ (capture_settings s = capture_settings s0)
  ∧ capture_settings s' = capture_settings s0
  ∧ lighting_of s'' = lighting_of s0
  ∧ camera_of s'' = mkCamera (mkVec3 3 0 1) (mkVec3 0 0 0)
  ∧ ¬ (capture_settings s'' = capture_settings s0).
Proof.
  cbv zeta.
  set (turn := λ (auto : bool) pose, if auto then _ else pose).
  set (s0 := run (_ ++ _) ready).
  set (s := run [ClickSave; _; _; _] s0).
  pose (e := UploadEntry.mk 1001 "earth" "data:thumb" "data:earth" 1000
               (Some (capture_settings s0))).
  assert (0%nat ∈ uploadHistory s) as Hin.
  { assert (uploadHistory s = [0; 0]%nat) as -> by (vm_compute; reflexivity).
    left. }
  assert (heap s !! 0%nat = Some e) as He by (vm_compute; reflexivity).
  assert (length (inflight s) = 0%nat) as Hlen by (vm_compute; reflexivity).
  destruct (selecting_entry_restores_saved_view s s0 0 e (mkEnv 0 "" 0)
              Hin He eq_refl) as (_ & _ & _ & _ & Hiff & _).
  destruct (selecting_entry_restores_saved_view s s0 0 e (Build_Env 0 "" 0 turn)
              Hin He eq_refl) as (Hl & _ & _ & Hc & Hiff' & _).
  rewrite Hlen in Hiff, Hl, Hc, Hiff'.
  split; [vm_compute; discriminate|].
  split; [by apply Hiff|].
  split; [exact Hl|].
  split; [rewrite Hc; vm_compute; reflexivity|].
  intros H%Hiff'. vm_compute in H. discriminate H.
Defined.
